(** * react-azure-msal-security: persistent cache, observer and session service

    A shallow embedding of the JavaScript sources

    - [cache.util.js]: [write], [read], [dateNextDays], [cacheAsyncCallback];
    - [observer.util.js]: class [Observer];
    - [services/aad.service.js]: of the object [AuthenticationService], the
      methods [init], [setState], [acquireTokenInCache], [acquireTokenSilent],
      [acquireToken], [login], [logout], [clearCache] and the getters,

    with the parts of the browser and of the [msal] library they rest on
    ([JSON], [Storage], [Date], promises, [Msal.UserAgentApplication]),
    followed by the properties of the specification that concern them.

    Asynchronous code is cut at its suspension points: a function of the
    embedding runs a call up to the point where it gives control back, and
    the reactions it left behind run when the event they wait for is
    delivered. *)

From Stdlib Require Import ZArith Ascii String List Decimal DecimalPos DecimalN DecimalZ.
From stdpp Require Import base option list gmap strings.

Local Open Scope string_scope.
Local Open Scope list_scope.
Local Open Scope Z_scope.

(** ** JavaScript values, exceptions and completions *)

(** Values that the cache utilities move in and out of browser storage.
    Numbers are the integer-valued ones (kept as [Z]) plus [NaN]; a [Date]
    is its time value in milliseconds since the epoch; an object is the
    list of its own enumerable properties in property order. *)
Unset Elimination Schemes.
Inductive value : Type :=
| VUndefined
| VNull
| VBool (b : bool)
| VNum (n : Z)
| VNaN
| VBigInt (n : Z)
| VStr (s : string)
| VDate (t : Z)
| VArr (l : list value)
| VObj (l : list (string * value)).
Set Elimination Schemes.

(** Exceptions raised by the platform or by the code itself. *)
Inductive exn : Type :=
| SyntaxError                       (* JSON.parse on malformed text *)
| TypeError (msg : string)
| QuotaExceededError                (* Storage.setItem beyond the quota *)
| Error (msg : string)              (* [new Error(msg)] *)
| ProviderError (errorCode : option string) (msg : string).

(** Outcome of evaluating a statement sequence: a value or a raised exception. *)
Inductive completion (A : Type) : Type :=
| Normal (a : A)
| Throw (e : exn).
Arguments Normal {A} a.
Arguments Throw {A} e.

(** State of a promise. *)
Inductive promise (A : Type) : Type :=
| Pending
| Fulfilled (a : A)
| Rejected (e : exn).
Arguments Pending {A}.
Arguments Fulfilled {A} a.
Arguments Rejected {A} e.

(** ToBoolean. *)
Definition truthy (v : value) : bool :=
  match v with
  | VUndefined | VNull | VNaN => false
  | VBool b => b
  | VNum n | VBigInt n => negb (n =? 0)%Z
  | VStr s => negb (String.eqb s EmptyString)
  | VDate _ | VArr _ | VObj _ => true
  end.

(** Own property [k] of an object given by its list of properties. *)
Fixpoint own_prop {V : Type} (l : list (string * V)) (k : string) : option V :=
  match l with
  | [] => None
  | (k', v) :: r => if String.eqb k' k then Some v else own_prop r k
  end.

(** [o.k] for a value [o] that is not [null] or [undefined]: own data
    properties of objects; the primitives and arrays met here have no
    property named like the cache's fields, so the lookup is [undefined]. *)
Definition get_prop (o : value) (k : string) : value :=
  match o with
  | VObj l => default VUndefined (own_prop l k)
  | _ => VUndefined
  end.

(** [obj[k] = v] on an ordinary object: an existing property keeps its
    place, a new one goes last. *)
Fixpoint set_prop {V : Type} (l : list (string * V)) (k : string) (v : V) : list (string * V) :=
  match l with
  | [] => [(k, v)]
  | (k', v') :: r => if String.eqb k' k then (k', v) :: r else (k', v') :: set_prop r k v
  end.

(** ** The browser platform

    What the sources take from the browser and cannot be read off them:
    - [toISOString t]: the text of the date with time value [t]
      ([Date.prototype.toJSON], an ISO-8601 string);
    - [Date_getTime x]: [new Date(x).getTime()] for a value [x] read back
      from storage, [None] standing for [NaN];
    - [addDays t d]: the time value of a date [t] after
      [date.setDate(date.getDate() + d)] in the local time zone (in UTC it
      is [t + d * 86400000]);
    - [storage_accepts items k v]: whether [Storage.setItem(k, v)] fits the
      quota; it raises [QuotaExceededError] when it does not. *)
Class Platform : Type := {
  toISOString : Z -> string;
  Date_getTime : value -> option Z;
  addDays : Z -> Z -> Z;
  storage_accepts : gmap string string -> string -> string -> bool
}.

(** ** JSON text *)

Abbreviation chars := (list ascii) (only parsing).

(** Decimal digits, most significant first, as in [Decimal.uint]. *)
Fixpoint print_uint (u : uint) : chars :=
  match u with
  | Nil => []
  | D0 r => "0"%char :: print_uint r
  | D1 r => "1"%char :: print_uint r
  | D2 r => "2"%char :: print_uint r
  | D3 r => "3"%char :: print_uint r
  | D4 r => "4"%char :: print_uint r
  | D5 r => "5"%char :: print_uint r
  | D6 r => "6"%char :: print_uint r
  | D7 r => "7"%char :: print_uint r
  | D8 r => "8"%char :: print_uint r
  | D9 r => "9"%char :: print_uint r
  end.

(** Number::toString on an integer-valued number. *)
Definition print_Z (z : Z) : chars :=
  match Z.to_int z with
  | Pos u => print_uint u
  | Neg u => "-"%char :: print_uint u
  end.

Definition digit_of (c : ascii) : option (uint -> uint) :=
  match c with
  | "0"%char => Some D0 | "1"%char => Some D1 | "2"%char => Some D2
  | "3"%char => Some D3 | "4"%char => Some D4 | "5"%char => Some D5
  | "6"%char => Some D6 | "7"%char => Some D7 | "8"%char => Some D8
  | "9"%char => Some D9
  | _ => None
  end.

(** The longest run of digits at the head of the text. *)
Fixpoint take_digits (s : chars) : uint * chars :=
  match s with
  | [] => (Nil, [])
  | c :: r =>
      match digit_of c with
      | Some d => let (u, r') := take_digits r in (d u, r')
      | None => (Nil, s)
      end
  end.

(** The hexadecimal digit of a number below sixteen, in lower case, and
    the number of a hexadecimal digit in either case. *)
Definition hex_digit (n : N) : ascii :=
  ascii_of_N (if (n <? 10)%N then 48 + n else 87 + n)%N.

Definition hex_value (c : ascii) : option N :=
  let n := N_of_ascii c in
  if ((48 <=? n) && (n <=? 57))%N then Some (n - 48)%N
  else if ((97 <=? n) && (n <=? 102))%N then Some (n - 87)%N
  else if ((65 <=? n) && (n <=? 70))%N then Some (n - 55)%N
  else None.

(** QuoteJSONString on one code unit: the two-character escapes, [\u00xx]
    for the other control characters, the character itself otherwise. *)
Definition escape_char (c : ascii) : chars :=
  let n := N_of_ascii c in
  if (n =? 34)%N then ["\"; "034"]%char
  else if (n =? 92)%N then ["\"; "\"]%char
  else if (n =? 8)%N then ["\"; "b"]%char
  else if (n =? 9)%N then ["\"; "t"]%char
  else if (n =? 10)%N then ["\"; "n"]%char
  else if (n =? 12)%N then ["\"; "f"]%char
  else if (n =? 13)%N then ["\"; "r"]%char
  else if (n <? 32)%N then
    ["\"; "u"; "0"; "0"; hex_digit (n / 16); hex_digit (n mod 16)]%char
  else [c].

Fixpoint escape (s : chars) : chars :=
  match s with
  | [] => []
  | c :: r => escape_char c ++ escape r
  end.

Definition quote (s : string) : chars :=
  "034"%char :: escape (list_ascii_of_string s) ++ ["034"%char].

Fixpoint join_comma (ts : list chars) : chars :=
  match ts with
  | [] => []
  | [t] => t
  | t :: r => t ++ ","%char :: join_comma r
  end.

(** Result of SerializeJSONProperty: a text, [undefined] (the property is
    left out of an object and written [null] in an array), or an abrupt
    completion. *)
Inductive sres : Type :=
| SText (t : chars)
| SOmit
| SThrow (e : exn).

(** Elements are serialized in order; the first exception aborts. *)
Fixpoint array_items (rs : list sres) : completion (list chars) :=
  match rs with
  | [] => Normal []
  | SThrow e :: _ => Throw e
  | x :: r =>
      match array_items r with
      | Throw e => Throw e
      | Normal ts =>
          Normal (match x with SText t => t | _ => list_ascii_of_string "null" end :: ts)
      end
  end.

Fixpoint object_items (rs : list (string * sres)) : completion (list chars) :=
  match rs with
  | [] => Normal []
  | (_, SThrow e) :: _ => Throw e
  | (k, x) :: r =>
      match object_items r with
      | Throw e => Throw e
      | Normal ts =>
          Normal (match x with
                  | SText t => (quote k ++ ":"%char :: t) :: ts
                  | _ => ts
                  end)
      end
  end.

Definition bracket (o c : ascii) (items : completion (list chars)) : sres :=
  match items with
  | Throw e => SThrow e
  | Normal ts => SText (o :: join_comma ts ++ [c])
  end.

(** SerializeJSONProperty without replacer or indentation. *)
Fixpoint serialize `{Platform} (v : value) : sres :=
  match v with
  | VUndefined => SOmit
  | VNull | VNaN => SText (list_ascii_of_string "null")
  | VBool true => SText (list_ascii_of_string "true")
  | VBool false => SText (list_ascii_of_string "false")
  | VNum n => SText (print_Z n)
  | VBigInt _ => SThrow (TypeError "Do not know how to serialize a BigInt")
  | VStr s => SText (quote s)
  | VDate t => SText (quote (toISOString t))
  | VArr l => bracket "["%char "]"%char (array_items (List.map serialize l))
  | VObj l =>
      bracket "{"%char "}"%char
        (object_items (List.map (fun kv => let '(k, x) := kv in (k, serialize x)) l))
  end.

(** [JSON.stringify(v)]: a string, or [undefined] ([None]), or a raised
    exception. *)
Definition JSON_stringify `{Platform} (v : value) : completion (option string) :=
  match serialize v with
  | SText t => Normal (Some (string_of_list_ascii t))
  | SOmit => Normal None
  | SThrow e => Throw e
  end.

(** *** Parsing

    [JSON.parse] on the fragment of JSON whose number literals are
    integers (a fraction or an exponent is not in the fragment and is
    refused) and whose strings are made of 8-bit code units (a [\uXXXX]
    escape above [00ff] is refused). *)

Definition is_ws (c : ascii) : bool :=
  let n := N_of_ascii c in
  ((n =? 32) || (n =? 9) || (n =? 10) || (n =? 13))%N.

Fixpoint skip_ws (s : chars) : chars :=
  match s with
  | c :: r => if is_ws c then skip_ws r else s
  | [] => []
  end.

(** [strip_prefix p s] is the rest of [s] after the literal [p]. *)
Fixpoint strip_prefix (p s : chars) : option chars :=
  match p, s with
  | [], _ => Some s
  | a :: p', b :: s' => if Ascii.eqb a b then strip_prefix p' s' else None
  | _ :: _, [] => None
  end.

Definition unescape (e : ascii) : option ascii :=
  let n := N_of_ascii e in
  if (n =? 34)%N then Some e                       (* quotation mark *)
  else if (n =? 92)%N then Some e                  (* reverse solidus *)
  else if (n =? 47)%N then Some e                  (* solidus *)
  else if (n =? 98)%N then Some (ascii_of_N 8)     (* b: backspace *)
  else if (n =? 116)%N then Some (ascii_of_N 9)    (* t: tab *)
  else if (n =? 110)%N then Some (ascii_of_N 10)   (* n: line feed *)
  else if (n =? 102)%N then Some (ascii_of_N 12)   (* f: form feed *)
  else if (n =? 114)%N then Some (ascii_of_N 13)   (* r: carriage return *)
  else None.

Definition hex4 (a b c d : ascii) : option N :=
  match hex_value a, hex_value b, hex_value c, hex_value d with
  | Some x, Some y, Some z, Some w => Some (((x * 16 + y) * 16 + z) * 16 + w)%N
  | _, _, _, _ => None
  end.

(** The characters of a string literal after its opening quote, up to and
    including the closing quote. *)
Fixpoint parse_string (s : chars) : option (chars * chars) :=
  match s with
  | [] => None
  | c :: r =>
      if (N_of_ascii c =? 34)%N then Some ([], r)
      else if (N_of_ascii c =? 92)%N then
        match r with
        | [] => None
        | e :: r1 =>
            if (N_of_ascii e =? 117)%N then
              match r1 with
              | h1 :: h2 :: h3 :: h4 :: r2 =>
                  match hex4 h1 h2 h3 h4 with
                  | Some n =>
                      if (n <? 256)%N then
                        match parse_string r2 with
                        | Some (str, r') => Some (ascii_of_N n :: str, r')
                        | None => None
                        end
                      else None
                  | None => None
                  end
              | _ => None
              end
            else
              match unescape e with
              | Some c' =>
                  match parse_string r1 with
                  | Some (str, r') => Some (c' :: str, r')
                  | None => None
                  end
              | None => None
              end
        end
      else if (N_of_ascii c <? 32)%N then None
      else
        match parse_string r with
        | Some (str, r') => Some (c :: str, r')
        | None => None
        end
  end.

Definition uint_eqb (u v : uint) : bool := if Decimal.uint_eq_dec u v then true else false.

(** An integer literal: an optional minus sign, then [0] or a digit run
    without leading zero; nothing of a fraction or exponent may follow. *)
Definition parse_number (s : chars) : option (Z * chars) :=
  let '(neg, ds) := match s with
                    | c :: r => if (N_of_ascii c =? 45)%N then (true, r) else (false, s)
                    | [] => (false, s)
                    end in
  let '(u, r) := take_digits ds in
  if uint_eqb (unorm u) u then
    match r with
    | c :: _ =>
        if ((N_of_ascii c =? 46) || (N_of_ascii c =? 101) || (N_of_ascii c =? 69))%N
        then None
        else Some (Z.of_int (if neg then Neg u else Pos u), r)
    | [] => Some (Z.of_int (if neg then Neg u else Pos u), r)
    end
  else None.

(** The parser proper. [fuel] bounds the nesting of calls, which never
    exceeds twice the length of the text (see [JSON_parse]). Members are added to
    the object under construction with [set_prop], so that a repeated
    key keeps its first place and its last value. *)
Fixpoint parse_value (fuel : nat) (s : chars) : option (value * chars) :=
  match fuel with
  | O => None
  | S f =>
      match skip_ws s with
      | [] => None
      | c :: r =>
          let n := N_of_ascii c in
          if (n =? 110)%N then                                   (* null *)
            r' ← strip_prefix (list_ascii_of_string "ull") r; Some (VNull, r')
          else if (n =? 116)%N then                              (* true *)
            r' ← strip_prefix (list_ascii_of_string "rue") r; Some (VBool true, r')
          else if (n =? 102)%N then                              (* false *)
            r' ← strip_prefix (list_ascii_of_string "alse") r; Some (VBool false, r')
          else if (n =? 34)%N then
            '(str, r') ← parse_string r; Some (VStr (string_of_list_ascii str), r')
          else if (n =? 91)%N then                               (* array *)
            match skip_ws r with
            | c' :: r' =>
                if (N_of_ascii c' =? 93)%N then Some (VArr [], r')
                else '(l, r'') ← parse_elements f r; Some (VArr l, r'')
            | [] => None
            end
          else if (n =? 123)%N then                              (* object *)
            match skip_ws r with
            | c' :: r' =>
                if (N_of_ascii c' =? 125)%N then Some (VObj [], r')
                else '(l, r'') ← parse_members f [] r; Some (VObj l, r'')
            | [] => None
            end
          else
            '(z, r') ← parse_number (c :: r); Some (VNum z, r')
      end
  end
with parse_elements (fuel : nat) (s : chars) : option (list value * chars) :=
  match fuel with
  | O => None
  | S f =>
      '(v, r) ← parse_value f s;
      match skip_ws r with
      | c :: r' =>
          if (N_of_ascii c =? 44)%N then
            '(l, r'') ← parse_elements f r'; Some (v :: l, r'')
          else if (N_of_ascii c =? 93)%N then Some ([v], r')
          else None
      | [] => None
      end
  end
with parse_members (fuel : nat) (acc : list (string * value)) (s : chars)
  : option (list (string * value) * chars) :=
  match fuel with
  | O => None
  | S f =>
      match skip_ws s with
      | q :: r =>
          if (N_of_ascii q =? 34)%N then
            '(k, r1) ← parse_string r;
            match skip_ws r1 with
            | c :: r2 =>
                if (N_of_ascii c =? 58)%N then
                  '(v, r3) ← parse_value f r2;
                  let acc' := set_prop acc (string_of_list_ascii k) v in
                  match skip_ws r3 with
                  | c' :: r4 =>
                      if (N_of_ascii c' =? 44)%N then parse_members f acc' r4
                      else if (N_of_ascii c' =? 125)%N then Some (acc', r4)
                      else None
                  | [] => None
                  end
                else None
            | [] => None
            end
          else None
      | [] => None
      end
  end.

(** [JSON.parse(text)]: the value, or a [SyntaxError]. *)
Definition JSON_parse (text : string) : completion value :=
  let s := list_ascii_of_string text in
  match parse_value (2 * length s + 2) s with
  | Some (v, r) =>
      match skip_ws r with
      | [] => Normal v
      | _ :: _ => Throw SyntaxError
      end
  | None => Throw SyntaxError
  end.

(** ** cache.util.js *)

(** [types.CACHE]: the two browser storages. *)
Inductive storage_type : Type := LOCAL_STORAGE | SESSION_STORAGE.

(** The part of [window] the sources touch. *)
Record window : Type := {
  localStorage : gmap string string;
  sessionStorage : gmap string string
}.

(** [window[storageType]] *)
Definition storage_of (w : window) (t : storage_type) : gmap string string :=
  match t with
  | LOCAL_STORAGE => localStorage w
  | SESSION_STORAGE => sessionStorage w
  end.

Definition with_storage (w : window) (t : storage_type) (items : gmap string string) : window :=
  match t with
  | LOCAL_STORAGE => {| localStorage := items; sessionStorage := sessionStorage w |}
  | SESSION_STORAGE => {| localStorage := localStorage w; sessionStorage := items |}
  end.

Definition getItem (items : gmap string string) (key : string) : option string :=
  items !! key.

Definition setItem `{Platform} (items : gmap string string) (key text : string)
  : completion (gmap string string) :=
  if storage_accepts items key text then Normal (<[key := text]> items)
  else Throw QuotaExceededError.

Definition clear (items : gmap string string) : gmap string string := ∅.

(** [String(v)] for a falsy [v]; [None] when [v] is truthy. *)
Definition falsy_text (v : value) : option string :=
  match v with
  | VUndefined => Some "undefined"
  | VNull => Some "null"
  | VBool false => Some "false"
  | VNum 0 | VBigInt 0 => Some "0"
  | VNaN => Some "NaN"
  | VStr EmptyString => Some EmptyString
  | _ => None
  end.

(** The [try] block of [write]: [setItem] with the value itself when it is
    falsy, with its JSON text otherwise. *)
Definition write_try `{Platform} (key : string) (v : value) (items : gmap string string)
  : completion (gmap string string) :=
  match falsy_text v with
  | Some text => setItem items key text            (* if (!value) *)
  | None =>
      match JSON_stringify v with
      | Throw e => Throw e
      | Normal (Some text) => setItem items key text
      | Normal None => setItem items key "undefined"
      end
  end.

(** [write(key, value, storageType)] *)
Definition write `{Platform} (key : string) (v : value) (storageType : storage_type)
    (w : window) : window :=
  let items := storage_of w storageType in
  match write_try key v items with
  | Normal items' => with_storage w storageType items'
  | Throw _ => with_storage w storageType (clear items)      (* catch *)
  end.

(** The stored texts that [read] takes for "nothing stored". *)
Definition blank (data : string) : bool :=
  String.eqb data EmptyString || String.eqb data "null" || String.eqb data "undefined"
  || String.eqb data "{}" || String.eqb data "[]".

(** [read(key, storageType)] *)
Definition read (key : string) (storageType : storage_type) (w : window) : completion value :=
  match getItem (storage_of w storageType) key with
  | None => Normal VNull
  | Some data => if blank data then Normal VNull else JSON_parse data
  end.

(** [dateNextDays(days)], evaluated when the clock shows [now]. [days] is
    [None] when the option was not given. *)
Definition dateNextDays `{Platform} (now : Z) (days : option Z) : value :=
  match days with
  | None | Some 0 => VNull                         (* if (!days) return null *)
  | Some d => VDate (addDays now d)
  end.

(** The object literal [{ expiration: dateNextDays(expirationInDays), data }]. *)
Definition new_entry `{Platform} (now : Z) (expirationInDays : option Z) (data : value) : value :=
  VObj [("expiration", dateNextDays now expirationInDays); ("data", data)].

(** [cache?.expiration && new Date().getTime() > new Date(cache.expiration).getTime()] *)
Definition expired `{Platform} (now : Z) (cache : value) : bool :=
  let expiration := match cache with
                    | VNull | VUndefined => VUndefined
                    | _ => get_prop cache "expiration"
                    end in
  truthy expiration &&
  match Date_getTime expiration with
  | Some t => t <? now
  | None => false
  end.

(** An invocation of the async function [cacheAsyncCallback] between two
    turns of the event loop: the state of the promise it returned, and
    which of its two [await promise] points are still suspended. *)
Record invocation : Type := {
  returned : promise value;
  refreshing : bool;          (* the detached refresh waits for the producer *)
  awaiting : bool             (* the body itself waits for the producer *)
}.

(** [cacheAsyncCallback(key, promise, { expirationInDays, storageType })],
    from the call to the first suspension. [promise], the producer, is not
    an argument of this part: the body reaches it only through [await],
    which always gives control back before the producer's state is seen. *)
Definition cacheAsyncCallback `{Platform} (key : string) (storageType : storage_type)
    (now : Z) (w : window) : invocation :=
  if String.eqb key EmptyString then
    {| returned := Rejected (Error "[key] is required."); refreshing := false; awaiting := false |}
  else
    match read key storageType w with
    | Throw e => {| returned := Rejected e; refreshing := false; awaiting := false |}
    | Normal cache =>
        let refresh := expired now cache in
        if truthy cache then
          {| returned := Fulfilled (get_prop cache "data"); refreshing := refresh; awaiting := false |}
        else
          {| returned := Pending; refreshing := refresh; awaiting := true |}
    end.

(** The turn in which the producer settles with [outcome], at time [now]:
    the detached refresh resumes first (it was suspended first), then the
    body. A rejection met by the detached refresh stays in its own,
    unobserved promise. *)
Definition producer_settled `{Platform} (key : string) (expirationInDays : option Z)
    (storageType : storage_type) (outcome : completion value) (now : Z)
    (i : invocation) (w : window) : invocation * window :=
  let w1 :=
    if refreshing i then
      match outcome with
      | Normal data => write key (new_entry now expirationInDays data) storageType w
      | Throw _ => w
      end
    else w in
  if awaiting i then
    match outcome with
    | Normal data =>
        ({| returned := Fulfilled data; refreshing := false; awaiting := false |},
         write key (new_entry now expirationInDays data) storageType w1)
    | Throw e =>
        ({| returned := Rejected e; refreshing := false; awaiting := false |}, w1)
    end
  else
    ({| returned := returned i; refreshing := false; awaiting := false |}, w1).

(** ** JSON-representable values

    The values [JSON.stringify] writes without loss: [null], booleans,
    numbers, strings, arrays and plain objects of such values. An object
    lists each property once. *)
Fixpoint distinct (ks : list string) : bool :=
  match ks with
  | [] => true
  | k :: r => negb (existsb (String.eqb k) r) && distinct r
  end.

Fixpoint json_ok (v : value) : bool :=
  match v with
  | VNull | VBool _ | VNum _ | VStr _ => true
  | VUndefined | VNaN | VBigInt _ | VDate _ => false
  | VArr l => forallb json_ok l
  | VObj l => forallb (fun kv => json_ok (snd kv)) l && distinct (List.map fst l)
  end.

(** The text of a JSON-representable value (what [serialize] answers on
    it, see [serialize_print]). *)
Fixpoint print (v : value) : chars :=
  match v with
  | VNull => list_ascii_of_string "null"
  | VBool true => list_ascii_of_string "true"
  | VBool false => list_ascii_of_string "false"
  | VNum n => print_Z n
  | VStr s => quote s
  | VArr l => "["%char :: join_comma (List.map print l) ++ ["]"%char]
  | VObj l =>
      "{"%char ::
        join_comma (List.map (fun kv => quote (fst kv) ++ ":"%char :: print (snd kv)) l)
        ++ ["}"%char]
  | _ => []
  end.

(** What may follow a value inside a JSON text: the end of the text, a
    comma or a closing bracket. *)
Definition closes (rest : chars) : Prop :=
  match rest with
  | [] => True
  | c :: _ => c = ","%char \/ c = "]"%char \/ c = "}"%char
  end.

(** First characters of a number, and of any value, as [print] writes them. *)
Definition num_start (c : ascii) : bool :=
  let n := N_of_ascii c in ((n =? 45) || ((48 <=? n) && (n <=? 57)))%N.

Definition val_start (c : ascii) : bool :=
  let n := N_of_ascii c in
  (num_start c || (n =? 110) || (n =? 116) || (n =? 102) || (n =? 34) || (n =? 91)
   || (n =? 123))%N.

(** [v] is read back from its own text, whatever follows it. *)
Definition parses_back (v : value) : Prop :=
  forall (fuel : nat) (rest : chars),
    (length (print v) <= fuel)%nat -> closes rest ->
    parse_value fuel (print v ++ rest) = Some (v, rest).

(** The text of one member of an object. *)
Definition print_member (kv : string * value) : chars :=
  quote (fst kv) ++ ":"%char :: print (snd kv).

(** What [JSON.parse] gives back for a value as [serialize] writes it at
    the top of an entry: a date has become its ISO text. *)
Definition stored_form `{Platform} (v : value) : value :=
  match v with
  | VDate t => VStr (toISOString t)
  | _ => v
  end.

(** The [try] block of [write] raises: [JSON.stringify] does, or
    [setItem] does on the text it is given. *)
Definition write_raises `{Platform} (key : string) (v : value) (items : gmap string string)
  : Prop :=
  (falsy_text v = None /\ exists e, JSON_stringify v = Throw e) \/
  (exists text,
      (falsy_text v = Some text \/
       (falsy_text v = None /\ JSON_stringify v = Normal (Some text))) /\
      storage_accepts items key text = false).

(** ** observer.util.js *)

Module Observer.
Section Observer.
(** [Args] is the payload of [trigger]; [App] is whatever the listeners
    act upon. A listener may change it and may raise. *)
Context {Args App : Type}.

Definition callback : Type := Args -> App -> App * option exn.

(** [this.subscriptors]: an object from ids to listeners, [None] being
    [undefined]. *)
Definition subscriptors : Type := list (string * option callback).

(** [constructor()] *)
Definition new : subscriptors := [].

(** [Date.now().toString()] when the clock shows [now]. *)
Definition fresh_id (now : Z) : string := string_of_list_ascii (print_Z now).

(** [subscribe(callback)] *)
Definition subscribe (now : Z) (cb : callback) (this : subscriptors)
  : string * subscriptors :=
  let id := fresh_id now in
  (id, set_prop this id (Some cb)).

(** [unsubscribe(id)] *)
Definition unsubscribe (id : string) (this : subscriptors) : subscriptors :=
  set_prop this id None.

(** A property key that is an array index: the canonical decimal text of
    an integer below [2^32 - 1]. *)
Definition array_index (k : string) : option N :=
  match take_digits (list_ascii_of_string k) with
  | (u, []) =>
      if uint_eqb (unorm u) u && (N.of_uint u <? 4294967295)%N
      then Some (N.of_uint u) else None
  | _ => None
  end.

Fixpoint insert_index {V : Type} (i : N) (e : string * V) (l : list (N * (string * V)))
  : list (N * (string * V)) :=
  match l with
  | [] => [(i, e)]
  | (j, e') :: r => if (i <? j)%N then (i, e) :: (j, e') :: r
                    else (j, e') :: insert_index i e r
  end.

(** OrdinaryOwnPropertyKeys: array indices in ascending order, then the
    other keys in the order of their creation. *)
Fixpoint own_entries {V : Type} (o : list (string * V))
  : list (N * (string * V)) * list (string * V) :=
  match o with
  | [] => ([], [])
  | (k, v) :: r =>
      let '(idx, str) := own_entries r in
      match array_index k with
      | Some i => (insert_index i (k, v) idx, str)
      | None => (idx, (k, v) :: str)
      end
  end.

Definition Object_entries {V : Type} (o : list (string * V)) : list (string * V) :=
  let '(idx, str) := own_entries o in List.map snd idx ++ str.

(** The loop of [trigger] over the listeners, each paired with its id.
    The second component of the result lists the ids whose listener
    was called; the third is the exception that ended the loop, if any. *)
Fixpoint call_each (cbs : list (string * option callback)) (args : Args) (app : App)
  : App * list string * option exn :=
  match cbs with
  | [] => (app, [], None)
  | (_, None) :: r => call_each r args app                  (* callback && ... *)
  | (id, Some cb) :: r =>
      match cb args app with
      | (app1, Some e) => (app1, [id], Some e)
      | (app1, None) =>
          let '(app2, ids, res) := call_each r args app1 in (app2, id :: ids, res)
      end
  end.

(** The ids of the entries that hold a listener. *)
Definition live (cbs : list (string * option callback)) : list string :=
  List.map fst
    (List.filter (fun e => match snd e with Some _ => true | None => false end) cbs).

(** [trigger(args)] *)
Definition trigger (args : Args) (this : subscriptors) (app : App)
  : App * list string * option exn :=
  call_each (Object_entries this) args app.
End Observer.
End Observer.

(** ** services/aad.service.js *)

Module AuthenticationService.

(** Values held in the fields of the session state: primitives, and
    objects (errors among them) known by their identity only. *)
Inductive sval : Type :=
| SUndefined
| SNull
| SBool (b : bool)
| SNum (n : Z)
| SNaN
| SStr (s : string)
| SRef (addr : nat)
| SErr (e : exn).

Definition exn_eqb (a b : exn) : bool :=
  match a, b with
  | SyntaxError, SyntaxError | QuotaExceededError, QuotaExceededError => true
  | TypeError x, TypeError y | Error x, Error y => String.eqb x y
  | ProviderError c x, ProviderError d y =>
      match c, d with
      | Some c', Some d' => String.eqb c' d'
      | None, None => true
      | _, _ => false
      end && String.eqb x y
  | _, _ => false
  end.

(** [a === b]. Objects are equal when they are the same object; an
    exception object is told from another by its content. *)
Definition strict_eq (a b : sval) : bool :=
  match a, b with
  | SUndefined, SUndefined | SNull, SNull => true
  | SBool x, SBool y => Bool.eqb x y
  | SNum x, SNum y => (x =? y)%Z
  | SStr x, SStr y => String.eqb x y
  | SRef x, SRef y => Nat.eqb x y
  | SErr x, SErr y => exn_eqb x y
  | _, _ => false                                  (* NaN differs from itself *)
  end.

(** The session state object, [{ authenticated, authenticating, error }]. *)
Abbreviation session := (gmap string sval).

(** [o[k]]: [undefined] for a missing property. *)
Definition get (o : session) (k : string) : sval := default SUndefined (o !! k).

(** *** What the service consumes from the [msal] library *)

Record Account : Type := {
  accountIdentifier : string;
  userName : string;
  idTokenClaims : option (list (string * value))
}.

(** The response kept in the library's token cache. *)
Record AuthResponse : Type := {
  accessToken : value;
  idToken : value
}.

(** [types.LOGIN_TYPE] *)
Inductive LOGIN_TYPE : Type := REDIRECT | POPUP.

(** [Msal.UserAgentApplication]: the answers of its synchronous getters. *)
Record UserAgentApplication : Type := {
  account : option Account;                                    (* getAccount() *)
  loginInProgress : bool;                                      (* getLoginInProgress() *)
  acquireTokenInProgress : bool;                               (* getAcquireTokenInProgress() *)
  redirectUri : string;                                        (* config.auth.redirectUri *)
  cachedToken : list string -> completion (option AuthResponse)
                                       (* getCachedTokenInternal(scopes, getAccount()) *)
}.

Definition setAcquireTokenInProgress (b : bool) (c : UserAgentApplication) : UserAgentApplication :=
  {| account := account c; loginInProgress := loginInProgress c;
     acquireTokenInProgress := b; redirectUri := redirectUri c;
     cachedToken := cachedToken c |}.

Definition set_redirectUri (u : string) (c : UserAgentApplication) : UserAgentApplication :=
  {| account := account c; loginInProgress := loginInProgress c;
     acquireTokenInProgress := acquireTokenInProgress c; redirectUri := u;
     cachedToken := cachedToken c |}.

(** Asynchronous operations asked of the library. *)
Inductive request : Type :=
| AcquireTokenSilent (scopes : list string) (loginHint : option string)
    (forceRefresh : option bool)
| LoginRedirect (scopes : list string) (loginHint : option string) (forceRefresh : bool)
| LoginPopup (scopes : list string) (loginHint : option string) (forceRefresh : bool)
| Logout
| ClearCache.

(** The part of [createConfig]'s result that the service reads back. *)
Record Config : Type := {
  tokenRefreshUri : string
}.

(** [error.errorCode] *)
Definition errorCode (e : exn) : option string :=
  match e with
  | ProviderError c _ => c
  | _ => None
  end.

(** [types.DEFAULT_SCOPES] *)
Definition DEFAULT_SCOPES : list string := ["user.read"].

(** *** Promises *)

(** What the service's promises settle with. *)
Inductive pvalue : Type :=
| PState (s : session)
| PResponse (r : AuthResponse)
| PExn (e : exn)
| PUndefined.

Inductive pstate : Type :=
| PPending
| PFulfilled (v : pvalue)
| PRejected (v : pvalue).

(** Reactions registered on a pending promise of the library. *)
Inductive flow : Type :=
| LoginSilent (q p : nat) (type : LOGIN_TYPE) (scopes : list string)
    (loginHint : option string) (forceTokenRefresh : bool)
    (* [login]: [.then(..).catch(..)] on [context.acquireTokenSilent], for the promise [p] *)
| LoginPopupWait (q p : nat)
    (* [login]: [?.then(..)?.catch(..)] on [context.loginPopup] *)
| Finally (q q' : nat)
    (* [acquireTokenSilent]: [.finally(..)] on the library's promise [q], giving [q'] *)
| TokenWait (r p : nat)
    (* [acquireToken]: [.then(..).catch(..)] on what [acquireTokenSilent]
       returned, for the promise [p] it hands out *).

(** The options of [login], after the defaults of its parameter list. *)
Record login_options : Type := {
  type : LOGIN_TYPE;
  scopes : list string;
  loginHint : option string;
  forceTokenRefresh : bool
}.

Definition login_defaults : login_options :=
  {| type := REDIRECT; scopes := DEFAULT_SCOPES; loginHint := None;
     forceTokenRefresh := false |}.

(** What happens outside the service. *)
Inductive event : Type :=
| Settled (q : nat) (outcome : pstate)       (* a promise of the library settles *)
| RedirectReturned (error : sval) (response : bool)
                           (* the callback given to [handleRedirectCallback] is called *)
| ContextChanged (c : UserAgentApplication).  (* the library changed its own state *)

Section Service.
Context {App : Type}.

(** The object [AuthenticationService], the promises it made, and the
    surroundings it acts on. [requests] and [broadcasts] record, oldest
    first, the operations asked of the library and the payloads handed
    to [observer.trigger]. *)
Record world : Type := {
  disabled : bool;
  baseConfig : option Config;
  context : option UserAgentApplication;
  observer : @Observer.subscriptors session App;
  state : session;
  acquireTokenPromise : option nat;
  authenticatingPromise : option nat;
  AuthenticatingPromise : option nat;
  Error : option exn;
  promises : list pstate;
  flows : list flow;
  redirectCallback : option nat;
  requests : list request;
  broadcasts : list session;
  win : window;
  app : App
}.

(** Field updates. *)
Definition set_disabled (x : bool) (w : world) : world :=
  {| disabled := x; baseConfig := baseConfig w; context := context w;
     observer := observer w; state := state w;
     acquireTokenPromise := acquireTokenPromise w;
     authenticatingPromise := authenticatingPromise w;
     AuthenticatingPromise := AuthenticatingPromise w; Error := Error w;
     promises := promises w; flows := flows w; redirectCallback := redirectCallback w;
     requests := requests w; broadcasts := broadcasts w; win := win w; app := app w |}.

Definition set_baseConfig (x : option Config) (w : world) : world :=
  {| disabled := disabled w; baseConfig := x; context := context w;
     observer := observer w; state := state w;
     acquireTokenPromise := acquireTokenPromise w;
     authenticatingPromise := authenticatingPromise w;
     AuthenticatingPromise := AuthenticatingPromise w; Error := Error w;
     promises := promises w; flows := flows w; redirectCallback := redirectCallback w;
     requests := requests w; broadcasts := broadcasts w; win := win w; app := app w |}.

Definition set_context (x : option UserAgentApplication) (w : world) : world :=
  {| disabled := disabled w; baseConfig := baseConfig w; context := x;
     observer := observer w; state := state w;
     acquireTokenPromise := acquireTokenPromise w;
     authenticatingPromise := authenticatingPromise w;
     AuthenticatingPromise := AuthenticatingPromise w; Error := Error w;
     promises := promises w; flows := flows w; redirectCallback := redirectCallback w;
     requests := requests w; broadcasts := broadcasts w; win := win w; app := app w |}.

Definition set_observer (x : @Observer.subscriptors session App) (w : world) : world :=
  {| disabled := disabled w; baseConfig := baseConfig w; context := context w;
     observer := x; state := state w; acquireTokenPromise := acquireTokenPromise w;
     authenticatingPromise := authenticatingPromise w;
     AuthenticatingPromise := AuthenticatingPromise w; Error := Error w;
     promises := promises w; flows := flows w; redirectCallback := redirectCallback w;
     requests := requests w; broadcasts := broadcasts w; win := win w; app := app w |}.

Definition set_state (x : session) (w : world) : world :=
  {| disabled := disabled w; baseConfig := baseConfig w; context := context w;
     observer := observer w; state := x; acquireTokenPromise := acquireTokenPromise w;
     authenticatingPromise := authenticatingPromise w;
     AuthenticatingPromise := AuthenticatingPromise w; Error := Error w;
     promises := promises w; flows := flows w; redirectCallback := redirectCallback w;
     requests := requests w; broadcasts := broadcasts w; win := win w; app := app w |}.

Definition set_acquireTokenPromise (x : option nat) (w : world) : world :=
  {| disabled := disabled w; baseConfig := baseConfig w; context := context w;
     observer := observer w; state := state w; acquireTokenPromise := x;
     authenticatingPromise := authenticatingPromise w;
     AuthenticatingPromise := AuthenticatingPromise w; Error := Error w;
     promises := promises w; flows := flows w; redirectCallback := redirectCallback w;
     requests := requests w; broadcasts := broadcasts w; win := win w; app := app w |}.

Definition set_AuthenticatingPromise (x : option nat) (w : world) : world :=
  {| disabled := disabled w; baseConfig := baseConfig w; context := context w;
     observer := observer w; state := state w;
     acquireTokenPromise := acquireTokenPromise w;
     authenticatingPromise := authenticatingPromise w; AuthenticatingPromise := x;
     Error := Error w; promises := promises w; flows := flows w;
     redirectCallback := redirectCallback w; requests := requests w;
     broadcasts := broadcasts w; win := win w; app := app w |}.

Definition set_Error (x : option exn) (w : world) : world :=
  {| disabled := disabled w; baseConfig := baseConfig w; context := context w;
     observer := observer w; state := state w;
     acquireTokenPromise := acquireTokenPromise w;
     authenticatingPromise := authenticatingPromise w;
     AuthenticatingPromise := AuthenticatingPromise w; Error := x;
     promises := promises w; flows := flows w; redirectCallback := redirectCallback w;
     requests := requests w; broadcasts := broadcasts w; win := win w; app := app w |}.

Definition set_promises (x : list pstate) (w : world) : world :=
  {| disabled := disabled w; baseConfig := baseConfig w; context := context w;
     observer := observer w; state := state w;
     acquireTokenPromise := acquireTokenPromise w;
     authenticatingPromise := authenticatingPromise w;
     AuthenticatingPromise := AuthenticatingPromise w; Error := Error w; promises := x;
     flows := flows w; redirectCallback := redirectCallback w; requests := requests w;
     broadcasts := broadcasts w; win := win w; app := app w |}.

Definition set_flows (x : list flow) (w : world) : world :=
  {| disabled := disabled w; baseConfig := baseConfig w; context := context w;
     observer := observer w; state := state w;
     acquireTokenPromise := acquireTokenPromise w;
     authenticatingPromise := authenticatingPromise w;
     AuthenticatingPromise := AuthenticatingPromise w; Error := Error w;
     promises := promises w; flows := x; redirectCallback := redirectCallback w;
     requests := requests w; broadcasts := broadcasts w; win := win w; app := app w |}.

Definition set_redirectCallback (x : option nat) (w : world) : world :=
  {| disabled := disabled w; baseConfig := baseConfig w; context := context w;
     observer := observer w; state := state w;
     acquireTokenPromise := acquireTokenPromise w;
     authenticatingPromise := authenticatingPromise w;
     AuthenticatingPromise := AuthenticatingPromise w; Error := Error w;
     promises := promises w; flows := flows w; redirectCallback := x;
     requests := requests w; broadcasts := broadcasts w; win := win w; app := app w |}.

Definition set_requests (x : list request) (w : world) : world :=
  {| disabled := disabled w; baseConfig := baseConfig w; context := context w;
     observer := observer w; state := state w;
     acquireTokenPromise := acquireTokenPromise w;
     authenticatingPromise := authenticatingPromise w;
     AuthenticatingPromise := AuthenticatingPromise w; Error := Error w;
     promises := promises w; flows := flows w; redirectCallback := redirectCallback w;
     requests := x; broadcasts := broadcasts w; win := win w; app := app w |}.

Definition set_broadcasts (x : list session) (w : world) : world :=
  {| disabled := disabled w; baseConfig := baseConfig w; context := context w;
     observer := observer w; state := state w;
     acquireTokenPromise := acquireTokenPromise w;
     authenticatingPromise := authenticatingPromise w;
     AuthenticatingPromise := AuthenticatingPromise w; Error := Error w;
     promises := promises w; flows := flows w; redirectCallback := redirectCallback w;
     requests := requests w; broadcasts := x; win := win w; app := app w |}.

Definition set_win (x : window) (w : world) : world :=
  {| disabled := disabled w; baseConfig := baseConfig w; context := context w;
     observer := observer w; state := state w;
     acquireTokenPromise := acquireTokenPromise w;
     authenticatingPromise := authenticatingPromise w;
     AuthenticatingPromise := AuthenticatingPromise w; Error := Error w;
     promises := promises w; flows := flows w; redirectCallback := redirectCallback w;
     requests := requests w; broadcasts := broadcasts w; win := x; app := app w |}.

Definition set_app (x : App) (w : world) : world :=
  {| disabled := disabled w; baseConfig := baseConfig w; context := context w;
     observer := observer w; state := state w;
     acquireTokenPromise := acquireTokenPromise w;
     authenticatingPromise := authenticatingPromise w;
     AuthenticatingPromise := AuthenticatingPromise w; Error := Error w;
     promises := promises w; flows := flows w; redirectCallback := redirectCallback w;
     requests := requests w; broadcasts := broadcasts w; win := win w; app := x |}.

(** The object as the module creates it, before [init]. *)
Definition created (win0 : window) (app0 : App) : world :=
  {| disabled := false; baseConfig := None; context := None;
     observer := Observer.new; state := ∅;
     acquireTokenPromise := None; authenticatingPromise := None;
     AuthenticatingPromise := None; Error := None;
     promises := []; flows := []; redirectCallback := None;
     requests := []; broadcasts := []; win := win0; app := app0 |}.

(** [new Promise(..)], already in state [s0]. *)
Definition new_promise (s0 : pstate) (w : world) : nat * world :=
  (length (promises w), set_promises (promises w ++ [s0]) w).

(** [resolve(..)] or [reject(..)] of promise [p]: only the first counts. *)
Definition settle (p : nat) (s : pstate) (w : world) : world :=
  match promises w !! p with
  | Some PPending => set_promises (<[p := s]> (promises w)) w
  | _ => w
  end.

Definition ask (r : request) (w : world) : world :=
  set_requests (requests w ++ [r]) w.

Definition null_deref (what : string) : exn :=
  TypeError ("Cannot read properties of null (reading '" ++ what ++ "')")%string.

(** The loop of [setState] over [Object.keys(newState)]: does it reach a
    key whose value changed? *)
Fixpoint changed (keys : list string) (old new : session) : bool :=
  match keys with
  | [] => false
  | key :: r =>
      if negb (strict_eq (get old key) (get new key)) then true
      else changed r old new
  end.

(** [setState(changes)] *)
Definition setState (changes : session) (w : world) : world * completion session :=
  let newState := changes ∪ state w in              (* { ...state, ...changes } *)
  if changed (List.map fst (map_to_list newState)) (state w) newState then
    let w1 := set_state newState w in
    let w2 := set_broadcasts (broadcasts w1 ++ [newState]) w1 in
    let '(app', _, raised) := Observer.trigger newState (observer w2) (app w2) in
    let w3 := set_app app' w2 in
    match raised with
    | Some e => (w3, Throw e)
    | None => (w3, Normal (state w3))
    end
  else (w, Normal (state w)).

Definition has_account (c : UserAgentApplication) : bool :=
  match account c with Some _ => true | None => false end.

(** [init(config, disabled)]. [config] is what [createConfig] made of the
    argument and [ctx0] the application object the library constructs
    from it. *)
Definition init (config : Config) (ctx0 : UserAgentApplication) (disabled' : bool)
    (w : world) : world * completion session :=
  let w1 := set_disabled disabled' w in
  let w2 := if disabled' then set_context None w1
            else set_context (Some ctx0) (set_baseConfig (Some config) w1) in
  setState
    {[ "authenticated" := SBool (disabled' || has_account ctx0);
       "authenticating" := SBool (negb disabled' && loginInProgress ctx0) ]}
    w2.

(** [isDisabled()] *)
Definition isDisabled (w : world) : bool := disabled w.

(** [isAuthenticated()] *)
Definition isAuthenticated (w : world) : completion bool :=
  if disabled w then Normal true
  else match context w with
       | None => Throw (null_deref "getAccount")
       | Some c => Normal (has_account c)
       end.

(** [getAccount()] *)
Definition getAccount (w : world) : completion (option Account) :=
  if disabled w then Normal None
  else match context w with
       | None => Throw (null_deref "getAccount")
       | Some c => Normal (account c)
       end.

(** [getUserName()] *)
Definition getUserName (w : world) : completion (option string) :=
  match getAccount w with
  | Throw e => Throw e
  | Normal a => Normal (userName <$> a)
  end.

(** [getClaims()] *)
Definition getClaims (w : world) : completion (option (list (string * value))) :=
  match getAccount w with
  | Throw e => Throw e
  | Normal a => Normal (a ≫= idTokenClaims)
  end.

(** [getRoles()] *)
Definition getRoles (w : world) : completion value :=
  if disabled w then Normal VNull
  else
    match getAccount w with
    | Throw e => Throw e
    | Normal a =>
        match a ≫= idTokenClaims with       (* ({...} = getAccount() ?? {}).idTokenClaims *)
        | None => Throw (TypeError "Cannot convert undefined or null to object")
        | Some claims =>
            match own_prop claims "roles" with     (* hasOwnProperty.call(claims, 'roles') *)
            | Some roles => Normal roles
            | None => Normal VNull
            end
        end
    end.

(** [acquireTokenInCache({ scopes })] *)
Definition acquireTokenInCache (scopes' : list string) (w : world)
  : world * completion (option AuthResponse) :=
  if disabled w then (w, Normal None)
  else
    let attempt := match context w with
                   | None => Throw (null_deref "getCachedTokenInternal")
                   | Some c => cachedToken c scopes'
                   end in
    match attempt with
    | Normal r => (w, Normal r)
    | Throw error =>
        match errorCode error with
        | Some code =>
            if String.eqb code "cannot_parse_cache"
            then (set_win (with_storage (win w) LOCAL_STORAGE (clear (localStorage (win w)))) w,
                  Throw error)
            else (w, Throw error)
        | None => (w, Throw error)
        end
    end.

(** [acquireTokenSilent({ scopes, loginHint, forceTokenRefresh })]: [null],
    or the promise handed back. *)
Definition acquireTokenSilent (scopes' : list string) (loginHint' : option string)
    (forceTokenRefresh' : option bool) (w : world) : world * completion (option nat) :=
  if disabled w then (w, Normal None)
  else
    let start (w : world) : world * completion (option nat) :=
      match context w with
      | None => (w, Throw (null_deref "setAcquireTokenInProgress"))
      | Some c =>
          let w1 := set_context (Some (setAcquireTokenInProgress true c)) w in
          match baseConfig w1 with
          | None => (w1, Throw (null_deref "auth"))
          | Some cfg =>
              let c2 := set_redirectUri (tokenRefreshUri cfg) (setAcquireTokenInProgress true c) in
              let w2 := set_context (Some c2) w1 in
              let hint := match loginHint' with       (* loginHint ?? getUserName() *)
                          | Some h => Some h
                          | None => userName <$> account c2
                          end in
              let w3 := ask (AcquireTokenSilent scopes' hint forceTokenRefresh') w2 in
              let '(q, w4) := new_promise PPending w3 in
              let w5 := set_acquireTokenPromise (Some q) w4 in
              let '(q', w6) := new_promise PPending w5 in      (* .finally(..) *)
              (set_flows (flows w6 ++ [Finally q q']) w6, Normal (Some q'))
          end
      end in
    match acquireTokenPromise w, context w with
    | Some q, Some c => if acquireTokenInProgress c then (w, Normal (Some q)) else start w
    | Some q, None => (w, Throw (null_deref "getAcquireTokenInProgress"))
    | None, _ => start w
    end.

(** [login({ type, scopes, loginHint, forceTokenRefresh })]: [null], or
    the promise handed back. *)
Definition login (o : login_options) (w : world) : world * option nat :=
  if disabled w then (w, None)
  else
    match AuthenticatingPromise w with
    | Some p => (w, Some p)                    (* prevents multiple authentication processes *)
    | None =>
        let '(p, w0) := new_promise PPending w in
        let w1 :=                                             (* the executor *)
          match isAuthenticated w0 with
          | Throw e => settle p (PRejected (PExn e)) w0
          | Normal true => settle p (PFulfilled (PState (state w0))) w0
          | Normal false =>
              match setState {[ "authenticating" := SBool true ]} w0 with
              | (w', Throw e) => settle p (PRejected (PExn e)) w'
              | (w', Normal _) =>
                  let w'' := ask (AcquireTokenSilent (scopes o) None None) w' in
                  let '(q, w3) := new_promise PPending w'' in
                  set_flows (flows w3 ++
                    [LoginSilent q p (type o) (scopes o) (loginHint o) (forceTokenRefresh o)]) w3
              end
          end in
        (set_AuthenticatingPromise (Some p) w1, Some p)
    end.

(** [logout()] and [clearCache()] *)
Definition logout (w : world) : world * completion unit :=
  if disabled w then (w, Normal tt)
  else match context w with
       | None => (w, Throw (null_deref "logout"))
       | Some _ => (ask Logout w, Normal tt)
       end.

Definition clearCache (w : world) : world * completion unit :=
  if disabled w then (w, Normal tt)
  else match context w with
       | None => (w, Throw (null_deref "clearCache"))
       | Some _ => (ask ClearCache w, Normal tt)
       end.

(** *** Reactions *)

Definition signed_in : session :=
  {[ "authenticating" := SBool false; "authenticated" := SBool true ]}.

Definition failed (error : sval) : session :=
  {[ "authenticating" := SBool false; "error" := error ]}.

(** [resolve(setState({ authenticating: false, authenticated: true }))];
    [None] when [setState] raised. *)
Definition resolve_signed_in (p : nat) (w : world) : world * option exn :=
  match setState signed_in w with
  | (w', Normal s) => (settle p (PFulfilled (PState s)) w', None)
  | (w', Throw e) => (w', Some e)
  end.

(** [reject(setState({ authenticating: false, error }))] *)
Definition reject_failed (p : nat) (error : sval) (w : world) : world :=
  match setState (failed error) w with
  | (w', Normal s) => settle p (PRejected (PState s)) w'
  | (w', Throw _) => w'
  end.

Definition error_of (v : pvalue) : sval :=
  match v with
  | PExn e => SErr e
  | _ => SUndefined
  end.

(** The [.catch] of [login] after the silent attempt: arm the redirect
    callback, then start the interactive flow. *)
Definition interactive (p : nat) (t : LOGIN_TYPE) (scopes' : list string)
    (hint : option string) (force : bool) (w : world) : world :=
  let w1 := set_redirectCallback (Some p) w in          (* handleRedirectCallback(..) *)
  match t with
  | REDIRECT => ask (LoginRedirect scopes' hint force) w1
  | POPUP =>
      let '(q, w2) := new_promise PPending (ask (LoginPopup scopes' hint force) w1) in
      set_flows (flows w2 ++ [LoginPopupWait q p]) w2
  end.

Definition waits_on (q : nat) (f : flow) : bool :=
  match f with
  | LoginSilent q' _ _ _ _ _ | LoginPopupWait q' _ | Finally q' _ | TokenWait q' _ =>
      Nat.eqb q q'
  end.

(** The reaction [f], registered on a promise that settled with [outcome]. *)
Definition react (outcome : pstate) (f : flow) (w : world) : world :=
  match f, outcome with
  | _, PPending => w
  | LoginSilent _ p t sc hint force, PFulfilled _ =>
      match resolve_signed_in p w with
      | (w', None) => w'
      | (w', Some _) => interactive p t sc hint force w'
      end
  | LoginSilent _ p t sc hint force, PRejected _ => interactive p t sc hint force w
  | LoginPopupWait _ p, PFulfilled _ =>
      match resolve_signed_in p w with
      | (w', None) => w'
      | (w', Some e) => reject_failed p (SErr e) w'
      end
  | LoginPopupWait _ p, PRejected v => reject_failed p (error_of v) w
  | Finally _ q', _ =>
      match context w with
      | Some c => settle q' outcome (set_context (Some (setAcquireTokenInProgress false c)) w)
      | None => settle q' (PRejected (PExn (null_deref "setAcquireTokenInProgress"))) w
      end
  | TokenWait _ p, PFulfilled v => settle p (PFulfilled v) w
  | TokenWait _ p, PRejected _ => fst (login login_defaults w)
  end.

(** Run, oldest first, the reactions registered on [q]. *)
Definition deliver (q : nat) (w : world) : world :=
  match promises w !! q with
  | None | Some PPending => w
  | Some outcome =>
      let ready := List.filter (waits_on q) (flows w) in
      let w1 := set_flows (List.filter (fun f => negb (waits_on q f)) (flows w)) w in
      fold_left (fun w f => react outcome f w) ready w1
  end.

(** [cached && cached.accessToken && cached.idToken] *)
Definition usable (cached : option AuthResponse) : bool :=
  match cached with
  | Some r => truthy (accessToken r) && truthy (idToken r)
  | None => false
  end.

(** [acquireToken({ scopes, forceTokenRefresh })]: the promise handed back,
    in the state it has once the reactions already due have run. *)
Definition acquireToken (scopes' : list string) (forceTokenRefresh' : bool) (w : world)
  : world * nat :=
  (* the executor: a response, an exception, or a promise to wait for *)
  let silent (w : world) : world * (completion AuthResponse + nat) :=
    match acquireTokenSilent scopes' None (Some true) w with
    | (w', Throw e) => (w', inl (Throw e))
    | (w', Normal None) => (w', inl (Throw (null_deref "then")))
    | (w', Normal (Some r)) => (w', inr r)
    end in
  let '(w1, res) :=
    if negb forceTokenRefresh' then
      match acquireTokenInCache DEFAULT_SCOPES w with
      | (w', Throw e) => (w', inl (Throw e))
      | (w', Normal cached) =>
          match cached with
          | Some r => if usable cached then (w', inl (Normal r)) else silent w'
          | None => silent w'
          end
      end
    else silent w in
  match res with
  | inl (Normal r) => let '(p, w2) := new_promise (PFulfilled (PResponse r)) w1 in (w2, p)
  | inl (Throw e) =>                       (* .catch((error) => Error = error) *)
      let '(p, w2) := new_promise (PFulfilled (PExn e)) (set_Error (Some e) w1) in (w2, p)
  | inr r =>
      let '(p, w2) := new_promise PPending w1 in
      (deliver r (set_flows (flows w2 ++ [TokenWait r p]) w2), p)
  end.


(** [q] is a promise made by the library, not yet settled: the service
    put a reaction on each of them when it got it. *)
Definition asked_of_library (q : nat) (f : flow) : bool :=
  match f with
  | LoginSilent q' _ _ _ _ _ | LoginPopupWait q' _ | Finally q' _ => Nat.eqb q q'
  | TokenWait _ _ => false
  end.

Definition finally_of (q : nat) (fs : list flow) : list nat :=
  flat_map (fun f => match f with
                     | Finally q0 q' => if Nat.eqb q q0 then [q'] else []
                     | _ => []
                     end) fs.

(** One turn of the event loop. *)
Definition step (e : event) (w : world) : world :=
  match e with
  | Settled q outcome =>
      match outcome with
      | PPending => w
      | _ =>
          if existsb (asked_of_library q) (flows w) then
            let derived := finally_of q (flows w) in
            let w1 := deliver q (settle q outcome w) in
            fold_left (fun w q' => deliver q' w) derived w1
          else w
      end
  | RedirectReturned error response =>
      match redirectCallback w with
      | Some p =>
          if response then fst (resolve_signed_in p w) else reject_failed p error w
      | None => w
      end
  | ContextChanged c =>
      match context w with
      | Some _ => set_context (Some c) w
      | None => w
      end
  end.


(** [login] is enabled and has handed out the promise [h]. *)
Definition in_flight (h : nat) (w : world) : Prop :=
  disabled w = false /\ AuthenticatingPromise w = Some h.

Fixpoint steps (es : list event) (w : world) : world :=
  match es with
  | [] => w
  | e :: r => steps r (step e w)
  end.
End Service.
End AuthenticationService.

(** ** Concrete surroundings for the examples *)

(** A platform to run the definitions on: a date is written as its time
    value in decimal digits and read back from them, days are the days of
    UTC, and the storage takes texts of at most 64 characters. *)
Definition example_getTime (v : value) : option Z :=
  match v with
  | VNum n => Some n
  | VStr s =>
      match parse_number (list_ascii_of_string s) with
      | Some (z, []) => Some z
      | _ => None
      end
  | _ => None
  end.

Definition example_platform : Platform :=
  {| toISOString := fun t => string_of_list_ascii (print_Z t);
     Date_getTime := example_getTime;
     addDays := fun t d => t + d * 86400000;
     storage_accepts := fun _ _ text => (String.length text <=? 64)%nat |}.

Definition empty_window : window := {| localStorage := ∅; sessionStorage := ∅ |}.

(** A storage holding an entry for ["msal.u1.info"] that expired at time
    [1000], and another application's item. *)
Definition stale_window : window :=
  {| localStorage :=
       {[ "msal.u1.info" :=
            string_of_list_ascii
              (print (VObj [("expiration", VStr "1000"); ("data", VStr "old")]));
          "other" := "1" ]};
     sessionStorage := ∅ |}.

(** Listeners that append their name to a log; the first one raises. *)
Definition noisy_listener : @Observer.callback unit (list string) :=
  fun _ log => (log ++ ["first"], Some (Error "boom")).

Definition quiet_listener : @Observer.callback unit (list string) :=
  fun _ log => (log ++ ["second"], None).

(** Two subscriptions made one millisecond apart. *)
Definition two_listeners : @Observer.subscriptors unit (list string) :=
  snd (Observer.subscribe 1700000000001 quiet_listener
         (snd (Observer.subscribe 1700000000000 noisy_listener Observer.new))).

(** Two subscriptions made within the same millisecond. *)
Definition same_tick_listeners : @Observer.subscriptors unit (list string) :=
  snd (Observer.subscribe 1700000000000 quiet_listener
         (snd (Observer.subscribe 1700000000000 noisy_listener Observer.new))).

(** Two applications of the library: one with a signed-in account whose
    claims name no role and whose token cache cannot be parsed, one
    without account. *)
Definition signed_in_context : AuthenticationService.UserAgentApplication :=
  {| AuthenticationService.account :=
       Some {| AuthenticationService.accountIdentifier := "u1";
               AuthenticationService.userName := "ada@example.org";
               AuthenticationService.idTokenClaims := Some [("name", VStr "Ada")] |};
     AuthenticationService.loginInProgress := false;
     AuthenticationService.acquireTokenInProgress := false;
     AuthenticationService.redirectUri := "/";
     AuthenticationService.cachedToken :=
       fun _ => Throw (ProviderError (Some "cannot_parse_cache") "cache is corrupt") |}.

Definition signed_out_context : AuthenticationService.UserAgentApplication :=
  {| AuthenticationService.account := None;
     AuthenticationService.loginInProgress := false;
     AuthenticationService.acquireTokenInProgress := false;
     AuthenticationService.redirectUri := "/";
     AuthenticationService.cachedToken := fun _ => Normal None |}.

Definition example_config : AuthenticationService.Config :=
  {| AuthenticationService.tokenRefreshUri := "/auth" |}.

(** The service after [init(config)] in each of the two, and after
    [init(config, true)]. *)
Definition signed_in_world : @AuthenticationService.world unit :=
  fst (AuthenticationService.init example_config signed_in_context false
         (AuthenticationService.created stale_window tt)).

Definition signed_out_world : @AuthenticationService.world unit :=
  fst (AuthenticationService.init example_config signed_out_context false
         (AuthenticationService.created stale_window tt)).

Definition disabled_world : @AuthenticationService.world unit :=
  fst (AuthenticationService.init example_config signed_out_context true
         (AuthenticationService.created stale_window tt)).

(** ** The promises the reactions of the service refer to *)

Section Reactions.
Import AuthenticationService.
Context {App : Type}.

(** The promise a reaction waits on, and the promise it settles. *)
Definition waited (f : flow) : nat :=
  match f with
  | LoginSilent q _ _ _ _ _ | LoginPopupWait q _ | Finally q _ | TokenWait q _ => q
  end.

Definition target (f : flow) : nat :=
  match f with
  | LoginSilent _ p _ _ _ _ | LoginPopupWait _ p | Finally _ p | TokenWait _ p => p
  end.

(** The reactions, the redirect callback and the handle of the token
    request refer to promises that were made. *)
Definition made (w : @world App) : Prop :=
  (forall f, In f (flows w) ->
     (waited f < length (promises w))%nat /\ (target f < length (promises w))%nat) /\
  (forall p, redirectCallback w = Some p -> (p < length (promises w))%nat) /\
  (forall q, acquireTokenPromise w = Some q -> (q < length (promises w))%nat).

(** From [w] to [w']: promises were added at most, and the reactions of
    [w'] refer to promises that were made. *)
Definition made_on (w w' : @world App) : Prop :=
  made w' /\ (length (promises w) <= length (promises w'))%nat.

(** The promise [p] is pending and is not one the library settles, and
    neither a reaction nor the redirect callback is left that would
    settle it. *)
Definition abandoned (p : nat) (w : @world App) : Prop :=
  promises w !! p = Some PPending /\
  (forall f, In f (flows w) -> target f <> p /\ asked_of_library p f = false) /\
  redirectCallback w <> Some p.

(** No listener of the registry raises. *)
Definition quiet (w : @world App) : Prop :=
  forall id cb s a, In (id, Some cb) (observer w) -> snd (cb s a) = None.

(** The service after a call of [acquireTokenSilent] that asked the
    library: the application object marked and pointed at the refresh
    page, the request, the library's promise and the one derived from it
    by [finally]. *)
Definition silent_started (sc : list string) (hint : option string) (force : option bool)
    (c : UserAgentApplication) (cfg : Config) (w : @world App) : @world App :=
  let c2 := set_redirectUri (tokenRefreshUri cfg) (setAcquireTokenInProgress true c) in
  let hint' := match hint with Some h => Some h | None => userName <$> account c end in
  set_flows (flows w ++ [Finally (length (promises w)) (S (length (promises w)))])
    (set_promises (promises w ++ [PPending; PPending])
       (set_acquireTokenPromise (Some (length (promises w)))
          (set_requests (requests w ++ [AcquireTokenSilent sc hint' force])
             (set_context (Some c2) w)))).

(** The service after a call of [acquireToken] that went to
    [acquireTokenSilent]: the promise handed out is the third one made,
    and waits for the promise derived by [finally]. *)
Definition token_started (sc : list string) (c : UserAgentApplication) (cfg : Config)
    (w : @world App) : @world App :=
  set_flows (flows w ++ [Finally (length (promises w)) (S (length (promises w)));
                         TokenWait (S (length (promises w))) (S (S (length (promises w))))])
    (set_promises (promises w ++ [PPending; PPending; PPending])
       (silent_started sc None (Some true) c cfg w)).

(** What the application may do with the service, and what may happen
    around it, one thing after the other. *)
Inductive action : Type :=
| DoInit (config : Config) (ctx0 : UserAgentApplication) (disabled' : bool)
| DoSetState (changes : session)
| DoLogin (o : login_options)
| DoAcquireTokenInCache (scopes' : list string)
| DoAcquireTokenSilent (scopes' : list string) (loginHint' : option string)
    (forceTokenRefresh' : option bool)
| DoAcquireToken (scopes' : list string) (forceTokenRefresh' : bool)
| DoLogout
| DoClearCache
| Happens (e : event).

Definition act (a : action) (w : @world App) : @world App :=
  match a with
  | DoInit config ctx0 disabled' => fst (init config ctx0 disabled' w)
  | DoSetState changes => fst (setState changes w)
  | DoLogin o => fst (login o w)
  | DoAcquireTokenInCache scopes' => fst (acquireTokenInCache scopes' w)
  | DoAcquireTokenSilent scopes' loginHint' forceTokenRefresh' =>
      fst (acquireTokenSilent scopes' loginHint' forceTokenRefresh' w)
  | DoAcquireToken scopes' forceTokenRefresh' => fst (acquireToken scopes' forceTokenRefresh' w)
  | DoLogout => fst (logout w)
  | DoClearCache => fst (clearCache w)
  | Happens e => step e w
  end.

Fixpoint acts (l : list action) (w : @world App) : @world App :=
  match l with
  | [] => w
  | a :: r => acts r (act a w)
  end.
End Reactions.

(** ** services/aad.service.js: the remaining getters, and the hooks that
    call the service *)

Section Callers.
Import AuthenticationService.
Context {App : Type}.

(** [getId()] *)
Definition getId (w : @world App) : completion (option string) :=
  match getAccount w with
  | Throw e => Throw e
  | Normal a => Normal (accountIdentifier <$> a)
  end.

(** ToBoolean on the values of the session state. *)
Definition struthy (v : sval) : bool :=
  match v with
  | SUndefined | SNull | SNaN => false
  | SBool b => b
  | SNum n => negb (n =? 0)%Z
  | SStr s => negb (String.eqb s EmptyString)
  | SRef _ | SErr _ => true
  end.

(** [isAuthenticating()]:
    [!disabled && (authenticating || context.getLoginInProgress())]. *)
Definition isAuthenticating (w : @world App) : completion sval :=
  if disabled w then Normal (SBool false)
  else
    let authenticating := get (state w) "authenticating" in
    if struthy authenticating then Normal authenticating
    else match context w with
         | None => Throw (null_deref "getLoginInProgress")
         | Some c => Normal (SBool (loginInProgress c))
         end.

(** The function [useLogout()] returns:
    [if (isAuthenticated()) { clearCache(); logout(); }]. *)
Definition useLogout (w : @world App) : @world App * completion unit :=
  match isAuthenticated w with
  | Throw e => (w, Throw e)
  | Normal false => (w, Normal tt)
  | Normal true =>
      match clearCache w with
      | (w1, Throw e) => (w1, Throw e)
      | (w1, Normal _) => logout w1
      end
  end.

End Callers.

(** An application of the library with a signed-in account and a token
    cache that holds a response for the default scopes only. *)
Definition cached_context : AuthenticationService.UserAgentApplication :=
  {| AuthenticationService.account :=
       Some {| AuthenticationService.accountIdentifier := "u1";
               AuthenticationService.userName := "ada@example.org";
               AuthenticationService.idTokenClaims := None |};
     AuthenticationService.loginInProgress := false;
     AuthenticationService.acquireTokenInProgress := false;
     AuthenticationService.redirectUri := "/";
     AuthenticationService.cachedToken :=
       fun sc =>
         match sc with
         | ["user.read"] =>
             Normal (Some {| AuthenticationService.accessToken := VStr "access";
                             AuthenticationService.idToken := VStr "id" |})
         | _ => Normal None
         end |}.

Definition cached_world : @AuthenticationService.world unit :=
  fst (AuthenticationService.init example_config cached_context false
         (AuthenticationService.created empty_window tt)).

(** * Properties *)

(** ** JSON text: parsing what was printed *)

Lemma parse_string_escape_char (c : ascii) (s : chars) :
  parse_string (escape_char c ++ s) =
  match parse_string s with
  | Some (str, r) => Some (c :: str, r)
  | None => None
  end.
Proof.
  destruct c as [[] [] [] [] [] [] [] []]; simpl; reflexivity.
Qed.

Lemma parse_string_escape (s rest : chars) :
  parse_string (escape s ++ "034"%char :: rest) = Some (s, rest).
Proof.
  induction s as [|c s IH]; [reflexivity|].
  change (escape (c :: s)) with (escape_char c ++ escape s).
  rewrite <- app_assoc, parse_string_escape_char, IH. reflexivity.
Qed.

Lemma parse_string_quote (s : string) (rest : chars) :
  exists t, quote s = "034"%char :: t /\
            parse_string (t ++ rest) = Some (list_ascii_of_string s, rest).
Proof.
  eexists; split; [reflexivity|].
  rewrite <- app_assoc. apply parse_string_escape.
Qed.

Lemma take_digits_closes (rest : chars) : closes rest -> take_digits rest = (Nil, rest).
Proof.
  destruct rest as [|c r]; [reflexivity|].
  intros [-> | [-> | ->]]; reflexivity.
Qed.

Lemma take_digits_print (u : uint) (rest : chars) :
  closes rest -> take_digits (print_uint u ++ rest) = (u, rest).
Proof.
  intros Hr. induction u; simpl; rewrite ?IHu; auto using take_digits_closes.
Qed.

Lemma to_int_unorm (z : Z) (u : uint) :
  Z.to_int z = Pos u \/ Z.to_int z = Neg u -> unorm u = u.
Proof.
  intros H.
  assert (Hn : norm (Z.to_int z) = Z.to_int z).
  { rewrite <- DecimalZ.to_of, DecimalZ.of_to. reflexivity. }
  destruct H as [H | H]; rewrite H in Hn; simpl in Hn.
  - congruence.
  - unfold unorm. destruct (nzhead u); congruence.
Qed.

Lemma print_uint_head (u : uint) :
  unorm u = u -> exists c t, print_uint u = c :: t /\ num_start c = true /\
                             (N_of_ascii c =? 45)%N = false.
Proof.
  destruct u; intros H; try discriminate H; simpl; eauto.
Qed.

Lemma print_Z_head (z : Z) :
  exists c t, print_Z z = c :: t /\ num_start c = true.
Proof.
  unfold print_Z. destruct (Z.to_int z) as [u | u] eqn:E.
  - destruct (print_uint_head u) as (c & t & -> & Hc & _); eauto using to_int_unorm.
  - eauto.
Qed.

Lemma parse_number_print (z : Z) (rest : chars) :
  closes rest -> parse_number (print_Z z ++ rest) = Some (z, rest).
Proof.
  intros Hr. unfold print_Z, parse_number.
  pose proof (DecimalZ.of_to z) as Hz.
  destruct (Z.to_int z) as [u | u] eqn:E.
  - assert (Hu : unorm u = u) by eauto using to_int_unorm.
    destruct (print_uint_head u Hu) as (c & t & Hp & _ & Hm).
    rewrite Hp. simpl. rewrite Hm.
    change (c :: t ++ rest) with ((c :: t) ++ rest). rewrite <- Hp.
    rewrite take_digits_print by assumption.
    unfold uint_eqb. rewrite Hu. destruct (uint_eq_dec u u); [|congruence].
    destruct rest as [|d r]; [do 2 f_equal; exact Hz|].
    destruct Hr as [-> | [-> | ->]]; simpl; do 2 f_equal; exact Hz.
  - assert (Hu : unorm u = u) by eauto using to_int_unorm.
    simpl. rewrite take_digits_print by assumption.
    unfold uint_eqb. rewrite Hu. destruct (uint_eq_dec u u); [|congruence].
    destruct rest as [|d r]; [do 2 f_equal; exact Hz|].
    destruct Hr as [-> | [-> | ->]]; simpl; do 2 f_equal; exact Hz.
Qed.

(** Induction on values that reaches inside arrays and objects. *)
Lemma value_ind' (P : value -> Prop) :
  P VUndefined -> P VNull -> (forall b, P (VBool b)) -> (forall n, P (VNum n)) ->
  P VNaN -> (forall n, P (VBigInt n)) -> (forall s, P (VStr s)) ->
  (forall t, P (VDate t)) ->
  (forall l, Forall P l -> P (VArr l)) ->
  (forall l, Forall (fun kv => P (snd kv)) l -> P (VObj l)) ->
  forall v, P v.
Proof.
  intros HU HN HB HZ HNaN HBig HS HD HA HO.
  fix IH 1.
  intros [ | | b | n | | n | s | t | l | l];
    [exact HU | exact HN | apply HB | apply HZ | exact HNaN | apply HBig | apply HS
    | apply HD | | ].
  - apply HA. induction l as [|x l IHl]; constructor; [apply IH | exact IHl].
  - apply HO. induction l as [|[k x] l IHl]; constructor; [apply IH | exact IHl].
Qed.

Lemma val_start_skip_ws (c : ascii) (t : chars) :
  val_start c = true -> skip_ws (c :: t) = c :: t.
Proof.
  destruct c as [[] [] [] [] [] [] [] []]; intros H; try discriminate H; reflexivity.
Qed.

Lemma parse_value_number (f : nat) (c : ascii) (t : chars) :
  num_start c = true ->
  parse_value (S f) (c :: t) =
  match parse_number (c :: t) with
  | Some (z, r) => Some (VNum z, r)
  | None => None
  end.
Proof.
  destruct c as [[] [] [] [] [] [] [] []]; intros H; try discriminate H; reflexivity.
Qed.

Lemma print_head (v : value) :
  json_ok v = true -> exists c t, print v = c :: t /\ val_start c = true.
Proof.
  destruct v as [ | | [] | n | | n | s | t | l | l]; intros H; try discriminate H;
    simpl; eauto.
  destruct (print_Z_head n) as (c & t & -> & Hc).
  exists c, t. split; [reflexivity|]. unfold val_start. rewrite Hc. reflexivity.
Qed.

Lemma val_start_not_close (c : ascii) :
  val_start c = true ->
  (N_of_ascii c =? 93)%N = false /\ (N_of_ascii c =? 125)%N = false.
Proof.
  destruct c as [[] [] [] [] [] [] [] []]; intros H; try discriminate H; split; reflexivity.
Qed.

Lemma parse_elements_S (f : nat) (s : chars) :
  parse_elements (S f) s =
  match parse_value f s with
  | Some (v, r) =>
      match skip_ws r with
      | c :: r' =>
          if (N_of_ascii c =? 44)%N then
            match parse_elements f r' with
            | Some (l, r'') => Some (v :: l, r'')
            | None => None
            end
          else if (N_of_ascii c =? 93)%N then Some ([v], r')
          else None
      | [] => None
      end
  | None => None
  end.
Proof.
  simpl. destruct (parse_value f s) as [[v r]|]; [|reflexivity]. simpl.
  destruct (skip_ws r) as [|c r']; [reflexivity|].
  destruct (N_of_ascii c =? 44)%N; [|reflexivity].
  destruct (parse_elements f r') as [[l r'']|]; reflexivity.
Qed.

Lemma parse_elements_print (l : list value) :
  l <> [] -> Forall parses_back l ->
  forall (fuel : nat) (rest : chars),
    (length (join_comma (List.map print l)) < fuel)%nat ->
    parse_elements fuel (join_comma (List.map print l) ++ "]"%char :: rest) = Some (l, rest).
Proof.
  induction l as [|x l IH]; [congruence|]. intros _ Hall fuel rest Hfuel.
  inversion Hall as [|? ? Hx Hl]; subst.
  destruct fuel as [|f]; [lia|]. rewrite parse_elements_S.
  destruct l as [|y l].
  - simpl in *. rewrite Hx; [reflexivity | lia | simpl; auto].
  - change (join_comma (List.map print (x :: y :: l)))
      with (print x ++ ","%char :: join_comma (List.map print (y :: l))) in *.
    rewrite length_app in Hfuel. cbn [length] in Hfuel.
    rewrite <- app_assoc. simpl app at 2.
    rewrite Hx; [| lia | simpl; auto]. simpl skip_ws. cbv iota beta.
    change (N_of_ascii "," =? 44)%N with true. cbv iota.
    rewrite IH; [reflexivity | congruence | assumption | lia].
Qed.

Lemma parse_members_quote (f : nat) (acc : list (string * value)) (k : string) (R : chars) :
  parse_members (S f) acc (quote k ++ ":"%char :: R) =
  match parse_value f R with
  | Some (v, r3) =>
      match skip_ws r3 with
      | c :: r4 =>
          if (N_of_ascii c =? 44)%N then parse_members f (set_prop acc k v) r4
          else if (N_of_ascii c =? 125)%N then Some (set_prop acc k v, r4)
          else None
      | [] => None
      end
  | None => None
  end.
Proof.
  destruct (parse_string_quote k (":"%char :: R)) as (t & -> & Ht).
  cbn [parse_members app skip_ws is_ws]. change (is_ws "034") with false. cbv iota.
  change (N_of_ascii "034" =? 34)%N with true. cbv iota.
  rewrite Ht. cbn [mbind option_bind skip_ws]. change (is_ws ":") with false. cbv iota.
  change (N_of_ascii ":" =? 58)%N with true. cbv iota.
  rewrite string_of_list_ascii_of_string.
  destruct (parse_value f R) as [[v r3]|]; reflexivity.
Qed.

Lemma set_prop_fresh {V : Type} (acc : list (string * V)) (k : string) (v : V) :
  ~ In k (List.map fst acc) -> set_prop acc k v = acc ++ [(k, v)].
Proof.
  induction acc as [|[k' v'] acc IH]; simpl; intros Hk; [reflexivity|].
  destruct (String.eqb_spec k' k) as [-> | Hne]; [tauto|].
  rewrite IH; [reflexivity | tauto].
Qed.

Lemma distinct_NoDup (ks : list string) : distinct ks = true -> List.NoDup ks.
Proof.
  induction ks as [|k ks IH]; simpl; intros H; [constructor|].
  apply andb_prop in H as [H1 H2]. constructor; [|auto].
  intros Hin. apply negb_true_iff in H1.
  assert (existsb (String.eqb k) ks = true) as E; [|congruence].
  apply existsb_exists. exists k. split; [assumption | apply String.eqb_refl].
Qed.

Lemma parse_members_print (l : list (string * value)) :
  l <> [] -> Forall (fun kv => parses_back (snd kv)) l ->
  forall (acc : list (string * value)) (fuel : nat) (rest : chars),
    (length (join_comma (List.map print_member l)) < fuel)%nat ->
    List.NoDup (List.map fst acc ++ List.map fst l) ->
    parse_members fuel acc (join_comma (List.map print_member l) ++ "}"%char :: rest)
    = Some (acc ++ l, rest).
Proof.
  induction l as [|[k v] l IH]; [congruence|]. intros _ Hall acc fuel rest Hfuel Hnd.
  inversion Hall as [|? ? Hv Hl]; subst. simpl in Hv.
  destruct fuel as [|f]; [lia|].
  assert (Hk : set_prop acc k v = acc ++ [(k, v)]).
  { apply set_prop_fresh. intros Hin. apply NoDup_remove_2 in Hnd.
    apply Hnd, in_or_app; auto. }
  destruct l as [|m l].
  - cbn [List.map join_comma] in *. unfold print_member in *. cbn [fst snd] in *.
    rewrite <- app_assoc. cbn [app]. rewrite length_app in Hfuel. cbn [length] in Hfuel.
    rewrite parse_members_quote, Hv; [| lia | simpl; auto].
    cbn [skip_ws]. change (is_ws "}") with false. cbv iota.
    change (N_of_ascii "}" =? 44)%N with false. change (N_of_ascii "}" =? 125)%N with true.
    cbv iota. rewrite Hk. reflexivity.
  - change (join_comma (List.map print_member ((k, v) :: m :: l)))
      with ((quote k ++ ":"%char :: print v) ++ ","%char ::
             join_comma (List.map print_member (m :: l))) in *.
    rewrite ?length_app in Hfuel. cbn [length] in Hfuel. rewrite ?length_app in Hfuel.
    rewrite <- !app_assoc. cbn [app]. rewrite <- ?app_assoc. cbn [app].
    rewrite parse_members_quote, Hv; [| lia | simpl; auto].
    cbn [skip_ws]. change (is_ws ",") with false. cbv iota.
    change (N_of_ascii "," =? 44)%N with true. cbv iota.
    rewrite Hk, IH; [| congruence | assumption | lia |].
    + rewrite <- app_assoc. reflexivity.
    + rewrite List.map_app, <- app_assoc. exact Hnd.
Qed.

Lemma parse_value_array (f : nat) (r : chars) :
  parse_value (S f) ("["%char :: r) =
  match skip_ws r with
  | c :: r' =>
      if (N_of_ascii c =? 93)%N then Some (VArr [], r')
      else match parse_elements f r with
           | Some (l, r'') => Some (VArr l, r'')
           | None => None
           end
  | [] => None
  end.
Proof.
  cbn [parse_value skip_ws]. change (is_ws "[") with false. cbv iota beta zeta.
  change (N_of_ascii "[") with 91%N.
  change (91 =? 110)%N with false. change (91 =? 116)%N with false.
  change (91 =? 102)%N with false. change (91 =? 34)%N with false.
  change (91 =? 91)%N with true. cbv iota.
  destruct (skip_ws r) as [|c r']; [reflexivity|].
  destruct (N_of_ascii c =? 93)%N; [reflexivity|].
  destruct (parse_elements f r) as [[l r'']|]; reflexivity.
Qed.

Lemma parse_value_object (f : nat) (r : chars) :
  parse_value (S f) ("{"%char :: r) =
  match skip_ws r with
  | c :: r' =>
      if (N_of_ascii c =? 125)%N then Some (VObj [], r')
      else match parse_members f [] r with
           | Some (l, r'') => Some (VObj l, r'')
           | None => None
           end
  | [] => None
  end.
Proof.
  cbn [parse_value skip_ws]. change (is_ws "{") with false. cbv iota beta zeta.
  change (N_of_ascii "{") with 123%N.
  change (123 =? 110)%N with false. change (123 =? 116)%N with false.
  change (123 =? 102)%N with false. change (123 =? 34)%N with false.
  change (123 =? 91)%N with false. change (123 =? 123)%N with true. cbv iota.
  destruct (skip_ws r) as [|c r']; [reflexivity|].
  destruct (N_of_ascii c =? 125)%N; [reflexivity|].
  destruct (parse_members f [] r) as [[l r'']|]; reflexivity.
Qed.

Lemma join_comma_head (t : chars) (ts : list chars) (c : ascii) (t' : chars) :
  t = c :: t' -> exists u, join_comma (t :: ts) = c :: u.
Proof. intros ->. destruct ts; simpl; eauto. Qed.

(** Every JSON-representable value is parsed back from its text. *)
Lemma json_ok_parses_back (v : value) : json_ok v = true -> parses_back v.
Proof.
  induction v as [ | | b | n | | n | s | t | l IH | l IH] using value_ind';
    intros Hok; try discriminate Hok; intros fuel rest Hfuel Hrest.
  - destruct fuel as [|f]; [simpl in Hfuel; lia | reflexivity].
  - destruct fuel as [|f]; [destruct b; simpl in Hfuel; lia | destruct b; reflexivity].
  - destruct (print_Z_head n) as (c & t & Hp & Hc).
    destruct fuel as [|f]; [simpl in Hfuel; rewrite Hp in Hfuel; simpl in Hfuel; lia|].
    cbn [print]. pose proof (parse_number_print n rest Hrest) as Hn.
    rewrite Hp in *. cbn [app] in *. rewrite parse_value_number, Hn by assumption.
    reflexivity.
  - destruct fuel as [|f]; [simpl in Hfuel; lia|].
    destruct (parse_string_quote s rest) as (t & Hq & Ht).
    cbn [print]. rewrite Hq. cbn [app parse_value skip_ws].
    change (is_ws "034") with false. cbv iota beta zeta.
    change (N_of_ascii "034") with 34%N.
    change (34 =? 110)%N with false. change (34 =? 116)%N with false.
    change (34 =? 102)%N with false. change (34 =? 34)%N with true. cbv iota.
    rewrite Ht. cbn [mbind option_bind]. rewrite string_of_list_ascii_of_string.
    reflexivity.
  - destruct fuel as [|f]; [simpl in Hfuel; lia|].
    cbn [print json_ok] in *. cbn [app]. rewrite parse_value_array.
    destruct l as [|x l].
    + reflexivity.
    + assert (Hall : Forall parses_back (x :: l)).
      { apply Forall_forall. intros y Hy.
        rewrite Forall_forall in IH. apply IH; [assumption|].
        rewrite forallb_forall in Hok. apply Hok. apply list_elem_of_In. assumption. }
      assert (Hx : json_ok x = true) by (simpl in Hok; apply andb_prop in Hok; tauto).
      destruct (print_head x Hx) as (c & t & Hp & Hc).
      destruct (join_comma_head (print x) (List.map print l) c t Hp) as (u & Hu).
      rewrite <- app_assoc. cbn [app].
      rewrite parse_elements_print; [| congruence | assumption |].
      * change (List.map print (x :: l)) with (print x :: List.map print l).
        rewrite Hu. cbn [app]. rewrite (val_start_skip_ws c) by assumption.
        destruct (val_start_not_close c Hc) as [-> _]. reflexivity.
      * cbn [length] in Hfuel. rewrite length_app in Hfuel. cbn [length] in Hfuel. lia.
  - destruct fuel as [|f]; [simpl in Hfuel; lia|].
    cbn [print json_ok] in *. cbn [app]. rewrite parse_value_object.
    apply andb_prop in Hok as [Hok Hd].
    destruct l as [|[k x] l].
    + reflexivity.
    + assert (Hall : Forall (fun kv => parses_back (snd kv)) ((k, x) :: l)).
      { apply Forall_forall. intros y Hy.
        rewrite Forall_forall in IH. apply IH; [assumption|].
        rewrite forallb_forall in Hok. apply Hok. apply list_elem_of_In. assumption. }
      change (fun kv : string * value => quote (fst kv) ++ ":"%char :: print (snd kv))
        with print_member in *.
      rewrite <- app_assoc. cbn [app].
      rewrite parse_members_print; [| congruence | assumption | | ].
      * cbn [List.map join_comma]. unfold print_member. cbn [fst snd].
        destruct (parse_string_quote k []) as (t & Hq & _). rewrite Hq.
        destruct (List.map _ l); reflexivity.
      * cbn [length] in Hfuel. rewrite length_app in Hfuel. cbn [length] in Hfuel.
        lia.
      * cbn [app]. apply distinct_NoDup. assumption.
Qed.

Lemma array_items_text (ts : list chars) : array_items (List.map SText ts) = Normal ts.
Proof. induction ts as [|t ts IH]; simpl; [|rewrite IH]; reflexivity. Qed.

Lemma object_items_text (ms : list (string * chars)) :
  object_items (List.map (fun m => (fst m, SText (snd m))) ms)
  = Normal (List.map (fun m => quote (fst m) ++ ":"%char :: snd m) ms).
Proof. induction ms as [|[k t] ms IH]; simpl; [|rewrite IH]; reflexivity. Qed.

(** On a JSON-representable value [serialize] neither raises nor omits:
    it answers the text [print]. *)
Lemma serialize_print `{Platform} (v : value) :
  json_ok v = true -> serialize v = SText (print v).
Proof.
  induction v as [ | | b | n | | n | s | t | l IH | l IH] using value_ind';
    intros Hok; try discriminate Hok; try reflexivity.
  - destruct b; reflexivity.
  - cbn [serialize print json_ok] in *.
    assert (E : List.map serialize l = List.map SText (List.map print l)).
    { rewrite List.map_map. apply List.map_ext_in. intros x Hx.
      rewrite Forall_forall in IH. rewrite forallb_forall in Hok.
      apply IH; [apply list_elem_of_In | apply Hok]; assumption. }
    rewrite E, array_items_text. reflexivity.
  - cbn [serialize print json_ok] in *. apply andb_prop in Hok as [Hok _].
    assert (E : List.map (fun kv : string * value => let '(k, x) := kv in (k, serialize x)) l
                = List.map (fun m => (fst m, SText (snd m)))
                    (List.map (fun kv => (fst kv, print (snd kv))) l)).
    { rewrite List.map_map. apply List.map_ext_in. intros [k x] Hx. cbn [fst snd].
      rewrite Forall_forall in IH. rewrite forallb_forall in Hok.
      f_equal. apply (IH (k, x)); [apply list_elem_of_In | apply (Hok (k, x))]; assumption. }
    rewrite E, object_items_text, List.map_map. reflexivity.
Qed.

(** [JSON.parse(JSON.stringify(v))] is [v] for every JSON-representable [v]. *)
Lemma JSON_parse_print (v : value) :
  json_ok v = true -> JSON_parse (string_of_list_ascii (print v)) = Normal v.
Proof.
  intros Hok. unfold JSON_parse. rewrite list_ascii_of_string_of_list_ascii.
  pose proof (json_ok_parses_back v Hok (2 * length (print v) + 2)%nat []) as Hp.
  rewrite app_nil_r in Hp. rewrite Hp; [reflexivity | lia | exact I].
Qed.

Lemma JSON_roundtrip `{Platform} (v : value) :
  json_ok v = true ->
  exists text, JSON_stringify v = Normal (Some text) /\ JSON_parse text = Normal v.
Proof.
  intros Hok. exists (string_of_list_ascii (print v)). split.
  - unfold JSON_stringify. rewrite serialize_print by assumption. reflexivity.
  - apply JSON_parse_print, Hok.
Qed.

(** ** cache.util.js *)

Section Cache.
Context `{Platform}.

Lemma storage_of_with_storage (w : window) (t : storage_type) (items : gmap string string) :
  storage_of (with_storage w t items) t = items.
Proof. destruct t; reflexivity. Qed.

Lemma storage_of_with_storage_ne (w : window) (t t' : storage_type)
    (items : gmap string string) :
  t' <> t -> storage_of (with_storage w t items) t' = storage_of w t'.
Proof. destruct t, t'; intros Hne; solve [reflexivity | congruence]. Qed.

Lemma entry_json_ok (E D : value) :
  json_ok (stored_form E) = true -> json_ok D = true ->
  json_ok (VObj [("expiration", stored_form E); ("data", D)]) = true.
Proof. intros HE HD. simpl. rewrite HE, HD. reflexivity. Qed.

Lemma serialize_entry (E D : value) :
  json_ok (stored_form E) = true -> json_ok D = true ->
  serialize (VObj [("expiration", E); ("data", D)])
  = SText (print (VObj [("expiration", stored_form E); ("data", D)])).
Proof.
  intros HE HD. rewrite <- serialize_print by (apply entry_json_ok; assumption).
  destruct E; reflexivity.
Qed.

(** The text of a non-empty object is none of the texts [read] skips. *)
Lemma blank_object_text (k : string) (x : value) (l : list (string * value)) :
  blank (string_of_list_ascii (print (VObj ((k, x) :: l)))) = false.
Proof.
  cbn [print List.map fst snd].
  destruct (parse_string_quote k []) as (t & Hq & _).
  destruct (List.map _ l); cbn [join_comma]; rewrite Hq; reflexivity.
Qed.

(** When the [try] block of [write] completes on an entry, [read] gives
    the entry back. *)
Lemma read_write_entry (K : string) (E D : value) (st : storage_type) (w : window)
    (items' : gmap string string) :
  json_ok (stored_form E) = true -> json_ok D = true ->
  write_try K (VObj [("expiration", E); ("data", D)]) (storage_of w st) = Normal items' ->
  read K st (write K (VObj [("expiration", E); ("data", D)]) st w)
  = Normal (VObj [("expiration", stored_form E); ("data", D)]).
Proof.
  intros HE HD Htry. unfold write. rewrite Htry.
  unfold write_try, JSON_stringify in Htry. cbn [falsy_text] in Htry.
  rewrite serialize_entry in Htry by assumption.
  remember (string_of_list_ascii
              (print (VObj [("expiration", stored_form E); ("data", D)]))) as text eqn:Ht.
  unfold setItem in Htry. destruct (storage_accepts _ _ _); [|discriminate Htry].
  injection Htry as <-.
  unfold read, getItem. rewrite storage_of_with_storage, lookup_insert_eq. subst text.
  rewrite blank_object_text. apply JSON_parse_print, entry_json_ok; assumption.
Qed.

Lemma write_try_raises (key : string) (v : value) (items : gmap string string) :
  write_raises key v items <-> exists e, write_try key v items = Throw e.
Proof.
  unfold write_raises, write_try, setItem. split.
  - intros [[Hf [e He]] | (text & [Hf | [Hf Hs]] & Hq)].
    + rewrite Hf, He. eauto.
    + rewrite Hf, Hq. eauto.
    + rewrite Hf, Hs, Hq. eauto.
  - intros [e He]. revert He. destruct (falsy_text v) as [text|] eqn:Hf; intros He.
    + right. exists text. split; [auto|]. destruct (storage_accepts _ _ _); congruence.
    + revert He. destruct (JSON_stringify v) as [[text|]|e'] eqn:Hs; intros He.
      * right. exists text. split; [auto|]. destruct (storage_accepts _ _ _); congruence.
      * exfalso. clear He. unfold JSON_stringify in Hs.
        destruct v as [ | | [] | n | | n | s | t | l | l]; try discriminate Hf;
          cbn in Hs; try discriminate Hs.
        -- destruct (array_items _); discriminate Hs.
        -- destruct (object_items _); discriminate Hs.
      * left. eauto.
Qed.

Lemma dateNextDays_stored (now : Z) (days : option Z) :
  json_ok (stored_form (dateNextDays now days)) = true.
Proof. destruct days as [[|d|d]|]; reflexivity. Qed.

Lemma expired_truthy (now : Z) (cache : value) :
  expired now cache = true -> truthy cache = true.
Proof.
  unfold expired. destruct cache; cbn; try discriminate; reflexivity.
Qed.
End Cache.




(** Claim C10: when [JSON.stringify] or [setItem] raises inside [write],
    the whole storage of that type is cleared: afterwards it holds no item
    at all, so every other key's entry is gone too, while the storage of
    the other type is left as it was. *)
Theorem write_failure_clears_storage `{Platform} (key : string) (v : value)
    (st : storage_type) (w : window) :
  write_raises key v (storage_of w st) ->
  storage_of (write key v st w) st = ∅ /\
  (forall k, getItem (storage_of (write key v st w) st) k = None) /\
  (forall k, read k st (write key v st w) = Normal VNull) /\
  (forall st', st' <> st -> storage_of (write key v st w) st' = storage_of w st').
Proof.
  intros Hr. apply write_try_raises in Hr as [e He].
  assert (Hw : write key v st w = with_storage w st ∅).
  { unfold write. rewrite He. reflexivity. }
  rewrite Hw. repeat split.
  - apply storage_of_with_storage.
  - intros k. rewrite storage_of_with_storage. apply lookup_empty.
  - intros k. unfold read, getItem. rewrite storage_of_with_storage, lookup_empty.
    reflexivity.
  - intros st' Hne. apply storage_of_with_storage_ne. assumption.
Qed.

Lemma write_failure_clears_storage_witness :
  getItem (localStorage stale_window) "other" = Some "1" /\
  (storage_of (@write example_platform "k" (VBigInt 5) LOCAL_STORAGE stale_window)
     LOCAL_STORAGE = ∅ /\
   (forall k, getItem (storage_of (@write example_platform "k" (VBigInt 5) LOCAL_STORAGE
                                      stale_window) LOCAL_STORAGE) k = None) /\
   (forall k, read k LOCAL_STORAGE
                (@write example_platform "k" (VBigInt 5) LOCAL_STORAGE stale_window)
              = Normal VNull) /\
   (forall st', st' <> LOCAL_STORAGE ->
      storage_of (@write example_platform "k" (VBigInt 5) LOCAL_STORAGE stale_window) st'
      = storage_of stale_window st')).
Proof.
  split; [vm_compute; reflexivity|].
  apply (@write_failure_clears_storage example_platform "k" (VBigInt 5) LOCAL_STORAGE
           stale_window).
  left. split; [reflexivity|]. eexists. vm_compute. reflexivity.
Defined.



(** ** observer.util.js *)

Lemma own_prop_set_prop {V : Type} (l : list (string * V)) (k : string) (v : V) :
  own_prop (set_prop l k v) k = Some v.
Proof.
  induction l as [|[k' v'] l IH]; simpl.
  - rewrite String.eqb_refl. reflexivity.
  - destruct (String.eqb k' k) eqn:E; simpl; rewrite E; [reflexivity | exact IH].
Qed.

Lemma set_prop_set_prop {V : Type} (l : list (string * V)) (k : string) (v1 v2 : V) :
  set_prop (set_prop l k v1) k v2 = set_prop l k v2.
Proof.
  induction l as [|[k' v'] l IH]; simpl.
  - rewrite String.eqb_refl. reflexivity.
  - destruct (String.eqb k' k) eqn:E; simpl; rewrite E; [reflexivity | rewrite IH; reflexivity].
Qed.

Lemma print_Z_inj (a b : Z) : print_Z a = print_Z b -> a = b.
Proof.
  intros E. pose proof (parse_number_print a [] I) as Ha.
  pose proof (parse_number_print b [] I) as Hb.
  rewrite E, Hb in Ha. congruence.
Qed.

(** Ids issued at different readings of the clock differ. *)
Lemma fresh_id_inj (a b : Z) : Observer.fresh_id a = Observer.fresh_id b -> a = b.
Proof.
  unfold Observer.fresh_id. intros E. apply print_Z_inj.
  rewrite <- (list_ascii_of_string_of_list_ascii (print_Z a)), E.
  apply list_ascii_of_string_of_list_ascii.
Qed.

(** Claim C7, the code at its failing input: two [subscribe] calls within
    the same millisecond get the same id, and the second listener takes
    the place of the first, which is registered no more; [trigger] then
    calls the second listener only. *)
Theorem subscribe_same_tick_displaces {Args App : Type} (now : Z)
    (cb1 cb2 : @Observer.callback Args App) (this : @Observer.subscriptors Args App) :
  fst (Observer.subscribe now cb1 this)
  = fst (Observer.subscribe now cb2 (snd (Observer.subscribe now cb1 this))) /\
  snd (Observer.subscribe now cb2 (snd (Observer.subscribe now cb1 this)))
  = snd (Observer.subscribe now cb2 this) /\
  own_prop (snd (Observer.subscribe now cb2 (snd (Observer.subscribe now cb1 this))))
    (fst (Observer.subscribe now cb1 this)) = Some (Some cb2) /\
  Observer.trigger tt same_tick_listeners [] = (["second"], ["1700000000000"], None).
Proof.
  unfold Observer.subscribe. cbn [fst snd]. repeat split.
  - apply set_prop_set_prop.
  - rewrite set_prop_set_prop. apply own_prop_set_prop.
Qed.

Section Trigger.
Context {Args App : Type}.
Implicit Types (cbs : list (string * option (@Observer.callback Args App))).

Lemma call_each_app cbs1 cbs2 (args : Args) (app : App) :
  Observer.call_each (cbs1 ++ cbs2) args app =
  match Observer.call_each cbs1 args app with
  | (app1, ids1, Some e) => (app1, ids1, Some e)
  | (app1, ids1, None) =>
      let '(app2, ids2, res) := Observer.call_each cbs2 args app1 in
      (app2, ids1 ++ ids2, res)
  end.
Proof.
  revert app. induction cbs1 as [|[id [cb|]] cbs1 IH]; intros app; cbn [List.app Observer.call_each].
  - destruct (Observer.call_each cbs2 args app) as [[app2 ids2] res]. reflexivity.
  - destruct (cb args app) as [app1 [e|]]; [reflexivity|].
    rewrite IH. destruct (Observer.call_each cbs1 args app1) as [[app1' ids1] [e|]];
      [reflexivity|].
    destruct (Observer.call_each cbs2 args app1') as [[app2 ids2] res]. reflexivity.
  - apply IH.
Qed.

Lemma call_each_quiet cbs (args : Args) (app : App) :
  (forall id cb a, In (id, Some cb) cbs -> snd (cb args a) = None) ->
  snd (Observer.call_each cbs args app) = None /\
  snd (fst (Observer.call_each cbs args app)) = Observer.live cbs.
Proof.
  revert app. induction cbs as [|[id [cb|]] cbs IH]; intros app Hq;
    cbn [Observer.call_each]; [split; reflexivity | | ].
  - pose proof (Hq id cb app (or_introl eq_refl)) as Hcb.
    destruct (cb args app) as [app1 res]. simpl in Hcb. subst res.
    destruct (IH app1) as [H1 H2]; [intros; eapply Hq; right; eassumption|].
    destruct (Observer.call_each cbs args app1) as [[app2 ids] res].
    simpl in *. subst. split; reflexivity.
  - apply IH. intros; eapply Hq; right; eassumption.
Qed.
End Trigger.

(** Claim C8, refuted as stated: with two listeners registered, the first
    raising, [trigger] ends with that exception and the second listener,
    though registered, is not called. *)
Lemma trigger_stops_at_raising_listener :
  own_prop two_listeners "1700000000001" = Some (Some quiet_listener) /\
  Observer.trigger tt two_listeners []
  = (["first"], ["1700000000000"], Some (Error "boom")) /\
  ~ In "1700000000001" (snd (fst (Observer.trigger tt two_listeners []))).
Proof.
  split; [reflexivity|]. split; [reflexivity|].
  cbn. intros [E | []]. discriminate E.
Qed.

(** Claim C8, amended: [trigger] calls the registered listeners one after
    the other, in the order of [Object.values]; when none of them raises,
    each registered listener is called once and [trigger] completes; when
    one raises, the exception leaves [trigger] at once: the listeners
    before it have been called, those after it are not. *)
Theorem trigger_calls_until_first_raise {Args App : Type} (args : Args)
    (this : @Observer.subscriptors Args App) (app : App) :
  ((forall id cb a, In (id, Some cb) (Observer.Object_entries this) ->
                    snd (cb args a) = None) ->
   snd (Observer.trigger args this app) = None /\
   snd (fst (Observer.trigger args this app))
   = Observer.live (Observer.Object_entries this)) /\
  (forall pre id cb post app1 ids1 app2 e,
     Observer.Object_entries this = pre ++ (id, Some cb) :: post ->
     Observer.call_each pre args app = (app1, ids1, None) ->
     cb args app1 = (app2, Some e) ->
     Observer.trigger args this app = (app2, ids1 ++ [id], Some e)).
Proof.
  split.
  - intros Hq. apply call_each_quiet. exact Hq.
  - intros pre id cb post app1 ids1 app2 e Hent Hpre Hcb.
    unfold Observer.trigger. rewrite Hent, call_each_app, Hpre.
    cbn [Observer.call_each]. rewrite Hcb. reflexivity.
Qed.

Lemma trigger_calls_until_first_raise_witness :
  Observer.trigger tt two_listeners [] = (["first"], [] ++ ["1700000000000"], Some (Error "boom")).
Proof.
  apply (proj2 (@trigger_calls_until_first_raise unit (list string) tt two_listeners [])
           [] "1700000000000" noisy_listener [("1700000000001", Some quiet_listener)]
           [] [] ["first"] (Error "boom")); reflexivity.
Defined.

(** ** services/aad.service.js *)

Section ServiceFacts.
Import AuthenticationService.
Context {App : Type}.
Implicit Types (w : @world App) (s changes : session).

Lemma changed_true (keys : list string) (old new : session) :
  changed keys old new = true <->
  exists k, In k keys /\ strict_eq (get old k) (get new k) = false.
Proof.
  induction keys as [|k keys IH]; simpl.
  - split; [discriminate | intros (k & [] & _)].
  - destruct (strict_eq (get old k) (get new k)) eqn:E; simpl.
    + rewrite IH. split.
      * intros (k' & Hin & Hk'). eauto.
      * intros (k' & [-> | Hin] & Hk'); [congruence | eauto].
    + split; [eauto | reflexivity].
Qed.

Lemma in_keys (m : session) (k : string) :
  In k (List.map fst (map_to_list m)) <-> is_Some (m !! k).
Proof.
  rewrite in_map_iff. split.
  - intros ([k' v] & <- & Hin). apply list_elem_of_In, elem_of_map_to_list in Hin. eauto.
  - intros [v Hv]. exists (k, v). split; [reflexivity|].
    apply list_elem_of_In, elem_of_map_to_list. exact Hv.
Qed.

(** The loop of [setState] finds a change exactly when some field of the
    merged state differs from the same field of the current state. *)
Lemma changed_merged (old changes : session) :
  changed (List.map fst (map_to_list (changes ∪ old))) old (changes ∪ old) = true <->
  exists k, strict_eq (get old k) (get (changes ∪ old) k) = false.
Proof.
  rewrite changed_true. split.
  - intros (k & _ & Hk). eauto.
  - intros (k & Hk). exists k. split; [|exact Hk].
    apply in_keys. destruct ((changes ∪ old) !! k) as [v|] eqn:E; [eauto|].
    exfalso. unfold get in Hk. rewrite E in Hk.
    apply lookup_union_None in E as [_ E]. rewrite E in Hk. discriminate Hk.
Qed.

Lemma setState_unfold changes w :
  setState changes w =
  if changed (List.map fst (map_to_list (changes ∪ state w))) (state w) (changes ∪ state w)
  then
    let r := Observer.trigger (changes ∪ state w) (observer w) (app w) in
    (set_app (fst (fst r))
       (set_broadcasts (broadcasts w ++ [changes ∪ state w])
          (set_state (changes ∪ state w) w)),
     match snd r with
     | Some e => Throw e
     | None => Normal (changes ∪ state w)
     end)
  else (w, Normal (state w)).
Proof.
  unfold setState. destruct (changed _ _ _); [|reflexivity].
  cbn [set_state set_broadcasts set_app observer app broadcasts state].
  destruct (Observer.trigger _ _ _) as [[app' ids] [e|]]; reflexivity.
Qed.


(** What [setState] leaves alone. *)
Lemma setState_frame changes w :
  disabled (fst (setState changes w)) = disabled w /\
  context (fst (setState changes w)) = context w /\
  AuthenticatingPromise (fst (setState changes w)) = AuthenticatingPromise w /\
  requests (fst (setState changes w)) = requests w /\
  promises (fst (setState changes w)) = promises w /\
  flows (fst (setState changes w)) = flows w /\
  win (fst (setState changes w)) = win w.
Proof.
  rewrite setState_unfold. destruct (changed _ _ _); repeat split.
Qed.

Lemma settle_frame (p : nat) (st : pstate) w :
  disabled (settle p st w) = disabled w /\
  context (settle p st w) = context w /\
  AuthenticatingPromise (settle p st w) = AuthenticatingPromise w /\
  requests (settle p st w) = requests w /\
  state (settle p st w) = state w /\
  broadcasts (settle p st w) = broadcasts w.
Proof.
  unfold settle. destruct (promises w !! p) as [[]|]; repeat split.
Qed.


(** A call of [login] while the handle of an earlier call is set. *)
Lemma login_again (o : login_options) w (h : nat) :
  disabled w = false -> AuthenticatingPromise w = Some h -> login o w = (w, Some h).
Proof. intros Hd Ha. unfold login. rewrite Hd, Ha. reflexivity. Qed.



(** *** The handle of [login] outlives every event *)

Lemma in_flight_settle (h p : nat) (st : pstate) w :
  in_flight h w -> in_flight h (settle p st w).
Proof.
  unfold in_flight. destruct (settle_frame p st w) as (-> & _ & -> & _). tauto.
Qed.

Lemma in_flight_setState (h : nat) changes w :
  in_flight h w -> in_flight h (fst (setState changes w)).
Proof.
  unfold in_flight. destruct (setState_frame changes w) as (-> & _ & -> & _). tauto.
Qed.

Lemma in_flight_resolve (h p : nat) w :
  in_flight h w -> in_flight h (fst (resolve_signed_in p w)).
Proof.
  intros Hw. unfold resolve_signed_in.
  pose proof (in_flight_setState h signed_in w Hw) as Hs.
  destruct (setState signed_in w) as [w' [s|e]]; cbn [fst] in *;
    auto using in_flight_settle.
Qed.

Lemma in_flight_reject (h p : nat) (error : sval) w :
  in_flight h w -> in_flight h (reject_failed p error w).
Proof.
  intros Hw. unfold reject_failed.
  pose proof (in_flight_setState h (failed error) w Hw) as Hs.
  destruct (setState (failed error) w) as [w' [s|e]]; cbn [fst] in *;
    auto using in_flight_settle.
Qed.

Lemma in_flight_interactive (h p : nat) (t : LOGIN_TYPE) (sc : list string)
    (hint : option string) (force : bool) w :
  in_flight h w -> in_flight h (interactive p t sc hint force w).
Proof. intros Hw. destruct t; exact Hw. Qed.

Lemma in_flight_react (h : nat) (outcome : pstate) (f : flow) w :
  in_flight h w -> in_flight h (react outcome f w).
Proof.
  intros Hw. destruct f as [q p t sc hint force | q p | q q' | r p], outcome as [|v|v];
    cbn [react]; try exact Hw.
  - pose proof (in_flight_resolve h p w Hw) as Hr.
    destruct (resolve_signed_in p w) as [w' [e|]]; cbn [fst] in Hr;
      auto using in_flight_interactive.
  - apply in_flight_interactive, Hw.
  - pose proof (in_flight_resolve h p w Hw) as Hr.
    destruct (resolve_signed_in p w) as [w' [e|]]; cbn [fst] in Hr;
      auto using in_flight_reject.
  - apply in_flight_reject, Hw.
  - destruct (context w); apply in_flight_settle; exact Hw.
  - destruct (context w); apply in_flight_settle; exact Hw.
  - apply in_flight_settle, Hw.
  - destruct Hw as [Hd Ha]. rewrite (login_again login_defaults w h Hd Ha).
    split; assumption.
Qed.

Lemma in_flight_reactions (h : nat) (outcome : pstate) (fs : list flow) w :
  in_flight h w -> in_flight h (fold_left (fun w f => react outcome f w) fs w).
Proof.
  revert w. induction fs as [|f fs IH]; intros w Hw; [exact Hw|].
  apply IH, in_flight_react, Hw.
Qed.

Lemma in_flight_deliver (h q : nat) w : in_flight h w -> in_flight h (deliver q w).
Proof.
  intros Hw. unfold deliver. destruct (promises w !! q) as [[|v|v]|]; try exact Hw;
    apply in_flight_reactions; exact Hw.
Qed.

Lemma in_flight_step (h : nat) (e : event) w : in_flight h w -> in_flight h (step e w).
Proof.
  intros Hw. destruct e as [q outcome | error response | c]; cbn [step].
  - assert (Hgo : forall qs w', in_flight h w' ->
                    in_flight h (fold_left (fun w q' => deliver q' w) qs w')).
    { induction qs as [|q' qs IH]; intros w' Hw'; [exact Hw'|].
      apply IH, in_flight_deliver, Hw'. }
    destruct outcome; [exact Hw | |];
      (destruct (existsb _ _); [|exact Hw]);
      apply Hgo, in_flight_deliver, in_flight_settle, Hw.
  - destruct (redirectCallback w); [|exact Hw].
    destruct response; [apply in_flight_resolve | apply in_flight_reject]; exact Hw.
  - destruct (context w); exact Hw.
Qed.

(** Whatever happens after a call of [login] handed out [h], the handle
    stays: every later call hands out [h] again. *)
Lemma in_flight_forever (h : nat) (es : list event) (o : login_options) w :
  in_flight h w -> login o (steps es w) = (steps es w, Some h).
Proof.
  revert w. induction es as [|e es IH]; intros w Hw; cbn [steps].
  - destruct Hw. apply login_again; assumption.
  - apply IH, in_flight_step, Hw.
Qed.



End ServiceFacts.


Section ServiceClaims.
Import AuthenticationService.
Context {App : Type}.
Implicit Types (w : @world App).

Lemma init_disabled (config : Config) (ctx0 : UserAgentApplication) w :
  disabled (fst (init config ctx0 true w)) = true /\
  requests (fst (init config ctx0 true w)) = requests w.
Proof.
  unfold init.
  destruct (setState_frame
              {[ "authenticated" := SBool (true || has_account ctx0);
                 "authenticating" := SBool (negb true && loginInProgress ctx0) ]}
              (set_context None (set_disabled true w))) as (-> & _ & _ & -> & _).
  split; reflexivity.
Qed.

Lemma acquireToken_disabled (scopes' : list string) (force : bool) w :
  disabled w = true ->
  acquireToken scopes' force w
  = (set_promises (promises w ++ [PFulfilled (PExn (null_deref "then"))])
       (set_Error (Some (null_deref "then")) w),
     length (promises w)).
Proof.
  intros Hd.
  assert (Hc : acquireTokenInCache DEFAULT_SCOPES w = (w, Normal None))
    by (unfold acquireTokenInCache; rewrite Hd; reflexivity).
  assert (Hs : acquireTokenSilent scopes' None (Some true) w = (w, Normal None))
    by (unfold acquireTokenSilent; rewrite Hd; reflexivity).
  unfold acquireToken. cbv zeta beta.
  destruct force; cbn [negb]; rewrite ?Hc, Hs; reflexivity.
Qed.

(** Claim C5, the code at its failing input: after [init(config, true)],
    [isAuthenticated()] is true and [login()] returns [null] at once,
    asking nothing of the library; but [acquireToken()] calls [.then] on
    the [null] that [acquireTokenSilent] returns: a [TypeError] is raised
    in its executor, stored in [AuthenticationService.Error], and the
    promise handed back is fulfilled with that error object. Nothing is
    asked of the library. *)
Theorem disabled_acquireToken_raises_TypeError (config : Config)
    (ctx0 : UserAgentApplication) (o : login_options) (scopes' : list string)
    (force : bool) w :
  isAuthenticated (fst (init config ctx0 true w)) = Normal true /\
  login o (fst (init config ctx0 true w)) = (fst (init config ctx0 true w), None) /\
  promises (fst (acquireToken scopes' force (fst (init config ctx0 true w))))
    !! snd (acquireToken scopes' force (fst (init config ctx0 true w)))
  = Some (PFulfilled (PExn (TypeError "Cannot read properties of null (reading 'then')"))) /\
  Error (fst (acquireToken scopes' force (fst (init config ctx0 true w))))
  = Some (TypeError "Cannot read properties of null (reading 'then')") /\
  requests (fst (acquireToken scopes' force (fst (init config ctx0 true w)))) = requests w.
Proof.
  destruct (init_disabled config ctx0 w) as [Hd Hr].
  set (wd := fst (init config ctx0 true w)) in *.
  rewrite (acquireToken_disabled scopes' force wd Hd). cbn [fst snd].
  split; [unfold isAuthenticated; rewrite Hd; reflexivity|].
  split; [unfold login; rewrite Hd; reflexivity|].
  split; [|split; [reflexivity | exact Hr]].
  cbn [promises set_promises set_Error].
  rewrite lookup_app_r by lia. rewrite Nat.sub_diag. reflexivity.
Qed.

(** Claim C6: when the library's cache lookup raises an error whose
    [errorCode] is ['cannot_parse_cache'], [acquireTokenInCache] empties
    [localStorage], where the library keeps its tokens, and raises that same
    error; on any other error it raises the error and leaves the storage
    as it is. *)
Theorem acquireTokenInCache_clears_corrupt_cache (scopes' : list string) w
    (c : UserAgentApplication) (e : exn) :
  disabled w = false -> context w = Some c -> cachedToken c scopes' = Throw e ->
  (errorCode e = Some "cannot_parse_cache" ->
   snd (acquireTokenInCache scopes' w) = Throw e /\
   localStorage (win (fst (acquireTokenInCache scopes' w))) = ∅ /\
   sessionStorage (win (fst (acquireTokenInCache scopes' w))) = sessionStorage (win w)) /\
  (errorCode e <> Some "cannot_parse_cache" ->
   acquireTokenInCache scopes' w = (w, Throw e)).
Proof.
  intros Hd Hc He. unfold acquireTokenInCache. rewrite Hd, Hc, He. split.
  - intros ->. rewrite String.eqb_refl. repeat split.
  - intros Hne. destruct (errorCode e) as [code|]; [|reflexivity].
    destruct (String.eqb_spec code "cannot_parse_cache") as [-> | _]; [congruence | reflexivity].
Qed.

(** Claim C9, amended: with authentication enabled and a current account
    whose claims have no ['roles'] entry, [getRoles] returns [null]; with
    such an entry it returns the entry. It raises no error in either case. *)
Theorem getRoles_without_roles_is_null w (c : UserAgentApplication) (a : Account)
    (claims : list (string * value)) :
  disabled w = false -> context w = Some c -> account c = Some a ->
  idTokenClaims a = Some claims ->
  (own_prop claims "roles" = None -> getRoles w = Normal VNull) /\
  (forall roles, own_prop claims "roles" = Some roles -> getRoles w = Normal roles).
Proof.
  intros Hd Hc Ha Hcl. unfold getRoles, getAccount. rewrite Hd, Hc, Ha. cbn.
  rewrite Hcl. split; [intros -> | intros roles ->]; reflexivity.
Qed.
End ServiceClaims.

Lemma acquireTokenInCache_clears_corrupt_cache_witness :
  localStorage (AuthenticationService.win signed_in_world) !! "other" = Some "1" /\
  snd (AuthenticationService.acquireTokenInCache AuthenticationService.DEFAULT_SCOPES
         signed_in_world)
  = Throw (ProviderError (Some "cannot_parse_cache") "cache is corrupt") /\
  localStorage (AuthenticationService.win
                  (fst (AuthenticationService.acquireTokenInCache
                          AuthenticationService.DEFAULT_SCOPES signed_in_world))) = ∅ /\
  sessionStorage (AuthenticationService.win
                    (fst (AuthenticationService.acquireTokenInCache
                            AuthenticationService.DEFAULT_SCOPES signed_in_world)))
  = sessionStorage (AuthenticationService.win signed_in_world).
Proof.
  split; [vm_compute; reflexivity|].
  exact (proj1 (@acquireTokenInCache_clears_corrupt_cache unit
                  AuthenticationService.DEFAULT_SCOPES signed_in_world signed_in_context
                  (ProviderError (Some "cannot_parse_cache") "cache is corrupt")
                  eq_refl eq_refl eq_refl) eq_refl).
Defined.

(** Claim C9, refuted as stated: the account of [signed_in_world] has
    claims without ['roles'], and [getRoles] returns [null] instead of
    raising. *)
Lemma getRoles_missing_claim_returns_null :
  AuthenticationService.disabled signed_in_world = false /\
  (AuthenticationService.getClaims signed_in_world = Normal (Some [("name", VStr "Ada")])) /\
  own_prop [("name", VStr "Ada")] "roles" = None /\
  AuthenticationService.getRoles signed_in_world = Normal VNull /\
  (forall e, AuthenticationService.getRoles signed_in_world <> Throw e).
Proof.
  repeat split; try (vm_compute; reflexivity). intros e. vm_compute. discriminate.
Qed.

Lemma getRoles_without_roles_is_null_witness :
  AuthenticationService.getRoles signed_in_world = Normal VNull.
Proof.
  exact (proj1 (@getRoles_without_roles_is_null unit signed_in_world signed_in_context
                  {| AuthenticationService.accountIdentifier := "u1";
                     AuthenticationService.userName := "ada@example.org";
                     AuthenticationService.idTokenClaims := Some [("name", VStr "Ada")] |}
                  [("name", VStr "Ada")] eq_refl eq_refl eq_refl eq_refl) eq_refl).
Defined.

(** ** The scenarios of the specification, run on the embedding *)

(** Disabled mode: [acquireToken()] after [init(config, true)]. *)
Example disabled_world_acquireToken :
  AuthenticationService.promises
    (fst (AuthenticationService.acquireToken AuthenticationService.DEFAULT_SCOPES false
            disabled_world))
  = [AuthenticationService.PFulfilled
       (AuthenticationService.PExn
          (TypeError "Cannot read properties of null (reading 'then')"))] /\
  AuthenticationService.requests
    (fst (AuthenticationService.acquireToken AuthenticationService.DEFAULT_SCOPES false
            disabled_world)) = [].
Proof. split; vm_compute; reflexivity. Qed.

(** End to end: no account at [init]; [login()] sets [authenticating]; the
    silent attempt fails, the redirect comes back with a response; the
    state settles and the listeners were told twice since [init]. *)
Example sign_in_by_redirect :
  let w1 := fst (AuthenticationService.login AuthenticationService.login_defaults
                   signed_out_world) in
  let w2 := AuthenticationService.steps
              [AuthenticationService.Settled 1
                 (AuthenticationService.PRejected AuthenticationService.PUndefined);
               AuthenticationService.RedirectReturned AuthenticationService.SUndefined true]
              w1 in
  map_to_list (AuthenticationService.state signed_out_world)
  = [("authenticated", AuthenticationService.SBool false);
     ("authenticating", AuthenticationService.SBool false)] /\
  map_to_list (AuthenticationService.state w1)
  = [("authenticated", AuthenticationService.SBool false);
     ("authenticating", AuthenticationService.SBool true)] /\
  map_to_list (AuthenticationService.state w2)
  = [("authenticated", AuthenticationService.SBool true);
     ("authenticating", AuthenticationService.SBool false)] /\
  AuthenticationService.requests w2
  = [AuthenticationService.AcquireTokenSilent ["user.read"] None None;
     AuthenticationService.LoginRedirect ["user.read"] None false] /\
  length (AuthenticationService.broadcasts w2)
  = (length (AuthenticationService.broadcasts signed_out_world) + 2)%nat /\
  AuthenticationService.promises w2 !! 0%nat
  = Some (AuthenticationService.PFulfilled
            (AuthenticationService.PState (AuthenticationService.state w2))).
Proof. repeat split; vm_compute; reflexivity. Qed.



(** * Further properties of the sources *)

(** ** cache.util.js: the other paths of [cacheAsyncCallback] *)

Section CachePaths.
Context `{Platform}.

Lemma not_truthy_not_expired (now : Z) (cache : value) :
  truthy cache = false -> expired now cache = false.
Proof.
  intros Hf. destruct (expired now cache) eqn:E; [|reflexivity].
  apply expired_truthy in E. congruence.
Qed.

(** Further property X1: with nothing usable stored under [key], [cacheAsyncCallback] waits
    for the producer; when the producer succeeds (the storage taking the
    text) its data fulfils the promise and is stored under [key] with the
    expiration [dateNextDays] of that moment, and the next call is served
    with that data from the storage. *)
Theorem cache_miss_fetches_and_stores (key : string) (st : storage_type) (now : Z)
    (w : window) (cache : value) :
  key <> EmptyString ->
  read key st w = Normal cache ->
  truthy cache = false ->
  cacheAsyncCallback key st now w
  = {| returned := Pending; refreshing := false; awaiting := true |} /\
  forall (days : option Z) (fresh : value) (now' : Z) (w' : window)
         (items' : gmap string string),
    json_ok fresh = true ->
    write_try key (new_entry now' days fresh) (storage_of w' st) = Normal items' ->
    returned (fst (producer_settled key days st (Normal fresh) now'
                     (cacheAsyncCallback key st now w) w')) = Fulfilled fresh /\
    read key st (snd (producer_settled key days st (Normal fresh) now'
                        (cacheAsyncCallback key st now w) w'))
    = Normal (VObj [("expiration", stored_form (dateNextDays now' days)); ("data", fresh)]) /\
    forall now'' : Z,
      returned (cacheAsyncCallback key st now''
                  (snd (producer_settled key days st (Normal fresh) now'
                          (cacheAsyncCallback key st now w) w')))
      = Fulfilled fresh.
Proof.
  intros Hkey Hread Hfalsy.
  assert (Hk : String.eqb key EmptyString = false) by (apply String.eqb_neq; exact Hkey).
  assert (Hcall : cacheAsyncCallback key st now w
                  = {| returned := Pending; refreshing := false; awaiting := true |}).
  { unfold cacheAsyncCallback.
    rewrite Hk, Hread, Hfalsy, (not_truthy_not_expired now cache Hfalsy). reflexivity. }
  split; [exact Hcall|]. rewrite Hcall.
  intros days fresh now' w' items' Hfresh Htry.
  assert (Hback : read key st (write key (new_entry now' days fresh) st w')
                  = Normal (VObj [("expiration", stored_form (dateNextDays now' days));
                                  ("data", fresh)])).
  { unfold new_entry in *. eapply read_write_entry; eauto using dateNextDays_stored. }
  unfold producer_settled. cbn [refreshing awaiting returned fst snd].
  split; [reflexivity|]. split; [exact Hback|].
  intros now''. unfold cacheAsyncCallback. rewrite Hk, Hback. reflexivity.
Qed.

(** Further property X2: a failing producer: the caller that waited for it (no entry) gets its
    error; the caller that was served stale data keeps its fulfilled
    promise, the failure of the detached refresh reaching nobody. In both
    cases the storage is left as it was. *)
Theorem producer_failure_reaches_only_the_waiting_caller (key : string)
    (st : storage_type) (now now' : Z) (w w' : window) (cache : value)
    (days : option Z) (e : exn) :
  key <> EmptyString ->
  read key st w = Normal cache ->
  snd (producer_settled key days st (Throw e) now' (cacheAsyncCallback key st now w) w') = w' /\
  (truthy cache = false ->
   returned (fst (producer_settled key days st (Throw e) now'
                    (cacheAsyncCallback key st now w) w')) = Rejected e) /\
  (truthy cache = true ->
   returned (fst (producer_settled key days st (Throw e) now'
                    (cacheAsyncCallback key st now w) w'))
   = Fulfilled (get_prop cache "data")).
Proof.
  intros Hkey Hread.
  assert (Hk : String.eqb key EmptyString = false) by (apply String.eqb_neq; exact Hkey).
  unfold cacheAsyncCallback, producer_settled. rewrite Hk, Hread.
  destruct (truthy cache); cbn [refreshing awaiting returned fst snd].
  - destruct (expired now cache); repeat split; congruence.
  - destruct (expired now cache); repeat split; congruence.
Qed.

(** Further property X3: an entry that has not expired (no expiration, an expiration that is
    no date, or one not yet passed) is served at once and nothing is ever
    written for this call, whatever the producer does later. *)
Theorem unexpired_entry_served_without_write (key : string) (st : storage_type)
    (now now' : Z) (w w' : window) (cache : value) (days : option Z)
    (outcome : completion value) :
  key <> EmptyString ->
  read key st w = Normal cache ->
  truthy cache = true ->
  (truthy (get_prop cache "expiration") = false \/
   Date_getTime (get_prop cache "expiration") = None \/
   exists t, Date_getTime (get_prop cache "expiration") = Some t /\ now <= t) ->
  cacheAsyncCallback key st now w
  = {| returned := Fulfilled (get_prop cache "data"); refreshing := false;
       awaiting := false |} /\
  producer_settled key days st outcome now' (cacheAsyncCallback key st now w) w'
  = (cacheAsyncCallback key st now w, w').
Proof.
  intros Hkey Hread Htruthy Hfresh.
  assert (Hk : String.eqb key EmptyString = false) by (apply String.eqb_neq; exact Hkey).
  assert (Hexp : expired now cache = false).
  { unfold expired.
    assert (Hc : match cache with
                 | VNull | VUndefined => VUndefined
                 | _ => get_prop cache "expiration"
                 end = get_prop cache "expiration") by (destruct cache; reflexivity).
    rewrite Hc. destruct Hfresh as [-> | [-> | (t & -> & Ht)]].
    - reflexivity.
    - apply andb_false_r.
    - apply Z.ltb_ge in Ht. rewrite Ht. apply andb_false_r. }
  assert (Hcall : cacheAsyncCallback key st now w
                  = {| returned := Fulfilled (get_prop cache "data"); refreshing := false;
                       awaiting := false |}).
  { unfold cacheAsyncCallback. rewrite Hk, Hread, Hexp, Htruthy. reflexivity. }
  split; [exact Hcall|]. rewrite Hcall. reflexivity.
Qed.


(** ** cache.util.js: what [write] and [read] do to each other *)

Lemma read_after_setItem (key text : string) (v : value) (st : storage_type) (w : window) :
  write_try key v (storage_of w st) = Normal (<[key := text]> (storage_of w st)) ->
  read key st (write key v st w)
  = if blank text then Normal VNull else JSON_parse text.
Proof.
  intros Htry. unfold write. rewrite Htry. unfold read, getItem.
  rewrite storage_of_with_storage, lookup_insert_eq. reflexivity.
Qed.

(** Further property X5: a falsy value is stored as the text of the value itself, not as JSON:
    [undefined], [null] and the empty string are read back as [null],
    [false] and zero as themselves, and [NaN] leaves a text on which
    [read] raises. *)
Theorem write_read_falsy (key text : string) (v : value) (st : storage_type) (w : window) :
  falsy_text v = Some text ->
  storage_accepts (storage_of w st) key text = true ->
  read key st (write key v st w)
  = match v with
    | VBool false => Normal (VBool false)
    | VNum _ | VBigInt _ => Normal (VNum 0)
    | VNaN => Throw SyntaxError
    | _ => Normal VNull
    end.
Proof.
  intros Hf Hacc.
  rewrite (read_after_setItem key text).
  - destruct v as [ | | [] | [] | | [] | [] | | | ]; try discriminate Hf;
      injection Hf as <-; reflexivity.
  - unfold write_try, setItem. rewrite Hf, Hacc. reflexivity.
Qed.

Lemma blank_num_start (c : ascii) (s : string) :
  num_start c = true -> blank (String c s) = false.
Proof.
  destruct c as [[] [] [] [] [] [] [] []]; intros Hc; try discriminate Hc; reflexivity.
Qed.

Lemma blank_array_text (c : ascii) (s : string) :
  val_start c = true -> blank (String "["%char (String c s)) = false.
Proof.
  destruct c as [[] [] [] [] [] [] [] []]; intros Hc; try discriminate Hc; reflexivity.
Qed.

(** Among the texts of truthy JSON-representable values, [read] skips
    those of the empty object and of the empty array only. *)
Lemma blank_print (v : value) :
  json_ok v = true -> falsy_text v = None ->
  blank (string_of_list_ascii (print v))
  = match v with
    | VObj [] | VArr [] => true
    | _ => false
    end.
Proof.
  intros Hok Hf.
  destruct v as [ | | [] | n | | n | s | t | [|x l] | [|[k x] l]];
    try discriminate Hok; try discriminate Hf; try reflexivity.
  - destruct (print_Z_head n) as (c & t & Hp & Hc).
    cbn [print]. rewrite Hp. apply blank_num_start, Hc.
  - assert (Hx : json_ok x = true) by (simpl in Hok; apply andb_prop in Hok; tauto).
    destruct (print_head x Hx) as (c & t & Hp & Hc).
    destruct (join_comma_head (print x) (List.map print l) c t Hp) as (u & Hu).
    cbn [print List.map]. rewrite Hu. apply blank_array_text, Hc.
  - apply blank_object_text.
Qed.

(** Further property X6: a truthy JSON-representable value written under a key is read back
    unchanged, except the empty object and the empty array, which are
    read back as [null]. *)
Theorem write_read_json (key : string) (v : value) (st : storage_type) (w : window)
    (items' : gmap string string) :
  json_ok v = true ->
  falsy_text v = None ->
  write_try key v (storage_of w st) = Normal items' ->
  read key st (write key v st w)
  = match v with
    | VObj [] | VArr [] => Normal VNull
    | _ => Normal v
    end.
Proof.
  intros Hok Hf Htry.
  assert (Htext : write_try key v (storage_of w st)
                  = Normal (<[key := string_of_list_ascii (print v)]> (storage_of w st))).
  { revert Htry. unfold write_try, JSON_stringify, setItem.
    rewrite Hf, (serialize_print v Hok).
    destruct (storage_accepts _ _ _); [reflexivity | discriminate]. }
  rewrite (read_after_setItem key _ v st w Htext), (blank_print v Hok Hf).
  rewrite (JSON_parse_print v Hok).
  destruct v as [ | | | | | | | | [|x l] | [|kx l]]; reflexivity.
Qed.

(** Further property X7: [write] never touches the storage of the other type; in its own it
    either sets the one key or removes every item. *)
Theorem write_sets_one_key_or_clears (key : string) (v : value) (st : storage_type)
    (w : window) :
  (forall st', st' <> st -> storage_of (write key v st w) st' = storage_of w st') /\
  ((exists text, storage_of (write key v st w) st = <[key := text]> (storage_of w st)) \/
   storage_of (write key v st w) st = ∅).
Proof.
  unfold write. split.
  - intros st' Hne. destruct (write_try _ _ _); apply storage_of_with_storage_ne, Hne.
  - destruct (write_try key v (storage_of w st)) as [items'|e] eqn:E.
    + left. rewrite storage_of_with_storage. revert E. unfold write_try, setItem.
      destruct (falsy_text v) as [text|].
      * destruct (storage_accepts _ _ _); [|discriminate]. intros [= <-]. eauto.
      * destruct (JSON_stringify v) as [[text|]|e']; [| |discriminate];
          (destruct (storage_accepts _ _ _); [|discriminate]); intros [= <-]; eauto.
    + right. apply storage_of_with_storage.
Qed.
End CachePaths.

Lemma cache_miss_fetches_and_stores_witness :
  @cacheAsyncCallback example_platform "fresh.key" LOCAL_STORAGE 5000 stale_window
  = {| returned := Pending; refreshing := false; awaiting := true |}.
Proof.
  refine (proj1 (@cache_miss_fetches_and_stores example_platform "fresh.key" LOCAL_STORAGE
                   5000 stale_window VNull _ _ eq_refl)).
  - discriminate.
  - vm_compute. reflexivity.
Defined.

Lemma producer_failure_reaches_only_the_waiting_caller_witness :
  returned (fst (@producer_settled example_platform "msal.u1.info" (Some 1) LOCAL_STORAGE
                   (Throw (Error "offline")) 6000
                   (@cacheAsyncCallback example_platform "msal.u1.info" LOCAL_STORAGE 5000
                      stale_window) stale_window)) = Fulfilled (VStr "old").
Proof.
  refine (proj2 (proj2 (@producer_failure_reaches_only_the_waiting_caller example_platform
                          "msal.u1.info" LOCAL_STORAGE 5000 6000 stale_window stale_window
                          (VObj [("expiration", VStr "1000"); ("data", VStr "old")])
                          (Some 1) (Error "offline") _ _)) eq_refl).
  - discriminate.
  - vm_compute. reflexivity.
Defined.

Lemma unexpired_entry_served_without_write_witness :
  @cacheAsyncCallback example_platform "msal.u1.info" LOCAL_STORAGE 900 stale_window
  = {| returned := Fulfilled (VStr "old"); refreshing := false; awaiting := false |}.
Proof.
  refine (proj1 (@unexpired_entry_served_without_write example_platform "msal.u1.info"
                   LOCAL_STORAGE 900 950 stale_window stale_window
                   (VObj [("expiration", VStr "1000"); ("data", VStr "old")])
                   None (Normal VNull) _ _ eq_refl _)).
  - discriminate.
  - vm_compute. reflexivity.
  - right. right. exists 1000. split; [reflexivity | discriminate].
Defined.


Lemma write_read_falsy_witness :
  read "k" LOCAL_STORAGE (@write example_platform "k" VNaN LOCAL_STORAGE stale_window)
  = Throw SyntaxError.
Proof.
  exact (@write_read_falsy example_platform "k" "NaN" VNaN LOCAL_STORAGE stale_window
           eq_refl eq_refl).
Defined.

Lemma write_read_json_witness :
  read "k" LOCAL_STORAGE
    (@write example_platform "k" (VArr [VStr "a"; VObj []]) LOCAL_STORAGE stale_window)
  = Normal (VArr [VStr "a"; VObj []]) /\
  read "k" LOCAL_STORAGE (@write example_platform "k" (VObj []) LOCAL_STORAGE stale_window)
  = Normal VNull.
Proof.
  split.
  - refine (@write_read_json example_platform "k" (VArr [VStr "a"; VObj []]) LOCAL_STORAGE
              stale_window _ eq_refl eq_refl _).
    vm_compute. reflexivity.
  - refine (@write_read_json example_platform "k" (VObj []) LOCAL_STORAGE
              stale_window _ eq_refl eq_refl _).
    vm_compute. reflexivity.
Defined.

(** ** observer.util.js: [unsubscribe] and the order of [trigger] *)

Section ObserverFacts.
Context {V : Type}.
Implicit Types (o str : list (string * V)) (idx : list (N * (string * V))).

Lemma own_prop_set_prop_ne o (k k' : string) (v : V) :
  k <> k' -> own_prop (set_prop o k v) k' = own_prop o k'.
Proof.
  intros Hne. induction o as [|[k0 v0] o IH]; simpl.
  - destruct (String.eqb_spec k k'); [contradiction | reflexivity].
  - destruct (String.eqb_spec k0 k) as [-> | Hk0]; simpl.
    + destruct (String.eqb_spec k k'); [contradiction | reflexivity].
    + destruct (String.eqb k0 k'); [reflexivity | exact IH].
Qed.

Lemma insert_index_comm (i j : N) (d x : string * V) idx :
  i <> j ->
  Observer.insert_index j x (Observer.insert_index i d idx)
  = Observer.insert_index i d (Observer.insert_index j x idx).
Proof.
  intros Hne. induction idx as [|[k e] idx IH]; simpl.
  - destruct (N.ltb_spec j i), (N.ltb_spec i j); try reflexivity; lia.
  - destruct (N.ltb_spec i k), (N.ltb_spec j k); simpl.
    + destruct (N.ltb_spec j i), (N.ltb_spec i j); try lia;
        destruct (N.ltb_spec i k), (N.ltb_spec j k); try lia; reflexivity.
    + destruct (N.ltb_spec j i), (N.ltb_spec i k), (N.ltb_spec j k); try lia; reflexivity.
    + destruct (N.ltb_spec i j), (N.ltb_spec i k), (N.ltb_spec j k); try lia; reflexivity.
    + destruct (N.ltb_spec i k), (N.ltb_spec j k); try lia. rewrite IH. reflexivity.
Qed.

Lemma insert_index_split (i : N) (d : string * V) idx :
  exists l1 l2, idx = l1 ++ l2 /\ Observer.insert_index i d idx = l1 ++ (i, d) :: l2.
Proof.
  induction idx as [|[k e] idx (l1 & l2 & -> & IH)]; simpl.
  - exists [], []. split; reflexivity.
  - destruct (i <? k)%N.
    + exists [], ((k, e) :: l1 ++ l2). split; reflexivity.
    + exists ((k, e) :: l1), l2. rewrite IH. split; reflexivity.
Qed.

Lemma insert_index_map (f : string -> V -> V) (i : N) (k : string) (v : V) idx :
  Observer.insert_index i (k, f k v)
    (List.map (fun p => (fst p, (fst (snd p), f (fst (snd p)) (snd (snd p))))) idx)
  = List.map (fun p => (fst p, (fst (snd p), f (fst (snd p)) (snd (snd p)))))
      (Observer.insert_index i (k, v) idx).
Proof.
  induction idx as [|[j [k' v']] idx IH]; simpl; [reflexivity|].
  destruct (i <? j)%N; simpl; [reflexivity | rewrite IH; reflexivity].
Qed.

(** Changing values without changing keys commutes with the ordering of
    the properties. *)
Lemma Object_entries_map (f : string -> V -> V) o :
  Observer.Object_entries (List.map (fun e => (fst e, f (fst e) (snd e))) o)
  = List.map (fun e => (fst e, f (fst e) (snd e))) (Observer.Object_entries o).
Proof.
  unfold Observer.Object_entries.
  assert (E : Observer.own_entries (List.map (fun e => (fst e, f (fst e) (snd e))) o)
              = (List.map (fun p => (fst p, (fst (snd p), f (fst (snd p)) (snd (snd p)))))
                   (fst (Observer.own_entries o)),
                 List.map (fun e => (fst e, f (fst e) (snd e))) (snd (Observer.own_entries o)))).
  { induction o as [|[k v] o IH]; [reflexivity|].
    cbn [List.map Observer.own_entries fst snd]. rewrite IH.
    destruct (Observer.own_entries o) as [idx str]. cbn [fst snd].
    destruct (Observer.array_index k) as [i|]; [|reflexivity].
    rewrite insert_index_map. reflexivity. }
  rewrite E. destruct (Observer.own_entries o) as [idx str]. cbn [fst snd].
  rewrite List.map_app, !List.map_map. reflexivity.
Qed.

Lemma set_prop_map o (id : string) (v : V) :
  List.NoDup (List.map fst o) -> In id (List.map fst o) ->
  set_prop o id v
  = List.map (fun e => (fst e, if String.eqb (fst e) id then v else snd e)) o.
Proof.
  induction o as [|[k v0] o IH]; intros Hnd Hin; [destruct Hin|].
  cbn [set_prop List.map fst snd] in *. inversion Hnd as [|? ? Hk Hnd']; subst.
  destruct (String.eqb_spec k id) as [-> | Hne].
  - f_equal. clear IH Hin Hnd Hnd'. induction o as [|[k' v'] o IH]; [reflexivity|].
    cbn [List.map fst snd] in *.
    destruct (String.eqb_spec k' id) as [-> | _];
      [exfalso; apply Hk; left; reflexivity|].
    rewrite <- IH by (intros Hin; apply Hk; right; exact Hin). reflexivity.
  - f_equal. apply IH; [exact Hnd' | destruct Hin; [contradiction | assumption]].
Qed.

Lemma Object_entries_keys o (e : string * V) :
  In e (Observer.Object_entries o) <-> In e o.
Proof.
  unfold Observer.Object_entries.
  assert (Hins : forall i d idx x,
            In x (List.map snd (Observer.insert_index i d idx))
            <-> x = d \/ In x (List.map snd idx)).
  { intros i d idx x. destruct (insert_index_split i d idx) as (l1 & l2 & -> & ->).
    rewrite !List.map_app. cbn [List.map snd]. rewrite !in_app_iff. simpl. intuition. }
  induction o as [|[k v] o IH]; [simpl; tauto|].
  cbn [Observer.own_entries]. destruct (Observer.own_entries o) as [idx str].
  destruct (Observer.array_index k) as [i|]; rewrite in_app_iff in *.
  - rewrite Hins. simpl. intuition.
  - simpl. intuition.
Qed.

Lemma digit_of_print (c : ascii) (d : uint -> uint) (u : uint) :
  digit_of c = Some d -> print_uint (d u) = c :: print_uint u.
Proof.
  destruct c as [[] [] [] [] [] [] [] []]; simpl; intros E; try discriminate E;
    injection E as <-; reflexivity.
Qed.

Lemma take_digits_all (s : list ascii) (u : uint) :
  take_digits s = (u, []) -> s = print_uint u.
Proof.
  revert u. induction s as [|c s IH]; simpl; intros u E.
  - injection E as <-. reflexivity.
  - destruct (digit_of c) as [d|] eqn:Hd; [|discriminate E].
    destruct (take_digits s) as [u' r']. injection E as <- ->.
    rewrite (digit_of_print c d u' Hd), <- (IH u' eq_refl). reflexivity.
Qed.

(** Two keys with the same array index are the same key. *)
Lemma array_index_inj (k k' : string) (i : N) :
  Observer.array_index k = Some i -> Observer.array_index k' = Some i -> k = k'.
Proof.
  assert (Hkey : forall k0, Observer.array_index k0 = Some i ->
                   list_ascii_of_string k0 = print_uint (N.to_uint i)).
  { intros k0. unfold Observer.array_index.
    destruct (take_digits (list_ascii_of_string k0)) as [u r] eqn:E.
    destruct r; [|discriminate].
    unfold uint_eqb. destruct (uint_eq_dec (unorm u) u) as [Hu|]; [|discriminate].
    cbn [andb]. destruct (N.of_uint u <? 4294967295)%N; [|discriminate].
    intros [= <-]. rewrite DecimalN.Unsigned.to_of, Hu. apply take_digits_all, E. }
  intros H1 H2. apply Hkey in H1, H2.
  rewrite <- (string_of_list_ascii_of_string k), <- (string_of_list_ascii_of_string k').
  congruence.
Qed.

(** A property added last to an object: where it shows in the order. *)
Lemma own_entries_snoc o (id : string) (v : V) :
  ~ In id (List.map fst o) ->
  Observer.own_entries (o ++ [(id, v)])
  = match Observer.array_index id with
    | Some i => (Observer.insert_index i (id, v) (fst (Observer.own_entries o)),
                 snd (Observer.own_entries o))
    | None => (fst (Observer.own_entries o), snd (Observer.own_entries o) ++ [(id, v)])
    end.
Proof.
  induction o as [|[k x] o IH]; intros Hid.
  - cbn. destruct (Observer.array_index id); reflexivity.
  - cbn [List.app Observer.own_entries]. rewrite IH by (intros Hin; apply Hid; right; exact Hin).
    destruct (Observer.own_entries o) as [idx str]. cbn [fst snd].
    destruct (Observer.array_index id) as [i|] eqn:Ei,
             (Observer.array_index k) as [j|] eqn:Ej; cbn [fst snd]; try reflexivity.
    rewrite insert_index_comm; [reflexivity|].
    intros ->. apply Hid. left. cbn [fst]. eapply array_index_inj; eassumption.
Qed.
End ObserverFacts.

Section ObserverUse.
Context {Args App : Type}.
Implicit Types (cbs : list (string * option (@Observer.callback Args App))).
Implicit Types (this : @Observer.subscriptors Args App).

(** Entries whose listener is [undefined] are passed over by the loop. *)
Lemma call_each_blanked cbs (id : string) (args : Args) (app : App) :
  Observer.call_each
    (List.map (fun e => (fst e, if String.eqb (fst e) id then None else snd e)) cbs)
    args app
  = Observer.call_each (List.filter (fun e => negb (String.eqb (fst e) id)) cbs) args app.
Proof.
  revert app. induction cbs as [|[k x] cbs IH]; intros app; [reflexivity|].
  cbn [List.map List.filter fst snd]. destruct (String.eqb k id); cbn [negb].
  - cbn [Observer.call_each]. apply IH.
  - destruct x as [cb|]; cbn [Observer.call_each]; [|apply IH].
    destruct (cb args app) as [app1 [e|]]; [reflexivity|]. rewrite IH. reflexivity.
Qed.

Lemma call_each_skip cbs1 cbs2 (id : string) (args : Args) (app : App) :
  Observer.call_each (cbs1 ++ (id, None) :: cbs2) args app
  = Observer.call_each (cbs1 ++ cbs2) args app.
Proof.
  rewrite !call_each_app. reflexivity.
Qed.

(** Only ids that hold a listener are reported as called. *)
Lemma call_each_ids cbs (args : Args) (app : App) (x : string) :
  In x (snd (fst (Observer.call_each cbs args app))) ->
  exists cb, In (x, Some cb) cbs.
Proof.
  revert app. induction cbs as [|[k [cb|]] cbs IH]; intros app; cbn [Observer.call_each].
  - intros [].
  - destruct (cb args app) as [app1 [e|]]; cbn [fst snd].
    + intros [<- | []]. exists cb. left. reflexivity.
    + specialize (IH app1).
      destruct (Observer.call_each cbs args app1) as [[app2 ids] res]. cbn [fst snd] in *.
      intros [<- | Hin]; [exists cb; left; reflexivity|].
      destruct (IH Hin) as [cb' Hcb']. exists cb'. right. exact Hcb'.
  - intros Hin. destruct (IH app Hin) as [cb' Hcb']. exists cb'. right. exact Hcb'.
Qed.

Lemma filter_other_keys cbs (id : string) :
  ~ In id (List.map fst cbs) ->
  List.filter (fun e => negb (String.eqb (fst e) id)) cbs = cbs.
Proof.
  induction cbs as [|[k x] cbs IH]; intros Hid; [reflexivity|].
  cbn [List.filter fst]. destruct (String.eqb_spec k id) as [-> | Hne].
  - exfalso. apply Hid. left. reflexivity.
  - cbn [negb]. rewrite IH by (intros Hin; apply Hid; right; exact Hin). reflexivity.
Qed.

Lemma Object_entries_key_set this (id : string) :
  In id (List.map fst (Observer.Object_entries this)) <-> In id (List.map fst this).
Proof.
  rewrite !in_map_iff. split; intros [e [He Hin]]; exists e; split; try exact He;
    apply Object_entries_keys; exact Hin.
Qed.

Lemma trigger_unsubscribe this (id : string) (args : Args) (app : App) :
  List.NoDup (List.map fst this) ->
  Observer.trigger args (Observer.unsubscribe id this) app
  = Observer.call_each
      (List.filter (fun e => negb (String.eqb (fst e) id)) (Observer.Object_entries this))
      args app.
Proof.
  intros Hnd. unfold Observer.trigger, Observer.unsubscribe.
  destruct (in_dec string_dec id (List.map fst this)) as [Hin | Hout].
  - rewrite (set_prop_map this id None Hnd Hin).
    rewrite (Object_entries_map (fun k v => if String.eqb k id then None else v)).
    apply call_each_blanked.
  - rewrite (set_prop_fresh this id None Hout).
    rewrite filter_other_keys by (rewrite Object_entries_key_set; exact Hout).
    unfold Observer.Object_entries. rewrite (own_entries_snoc this id None Hout).
    destruct (Observer.own_entries this) as [idx str]. cbn [fst snd].
    destruct (Observer.array_index id) as [i|].
    + destruct (insert_index_split i (id, None) idx) as [l1 [l2 [-> ->]]].
      rewrite !List.map_app. cbn [List.map snd]. rewrite <- !List.app_assoc.
      cbn [List.app]. apply call_each_skip.
    + rewrite List.app_assoc, <- (List.app_nil_r (List.map snd idx ++ str)) at 1.
      rewrite <- List.app_assoc. cbn [List.app].
      rewrite call_each_skip, List.app_nil_r. reflexivity.
Qed.

Lemma trigger_unsubscribe_skips this (id : string) (args : Args) (app : App) :
  List.NoDup (List.map fst this) ->
  ~ In id (snd (fst (Observer.trigger args (Observer.unsubscribe id this) app))).
Proof.
  intros Hnd. rewrite (trigger_unsubscribe this id args app Hnd).
  intros Hcalled. apply call_each_ids in Hcalled as [cb Hcb].
  apply List.filter_In in Hcb as [_ Hne]. cbn [fst] in Hne.
  rewrite String.eqb_refl in Hne. discriminate Hne.
Qed.

(** Further property X8: [unsubscribe] followed by [trigger]: the loop runs over the entries
    the registry had, in the same order, with the one of [id] left out;
    the listener of [id] is not called, whatever the others do. The id
    itself stays a key of the registry, holding [undefined], and a second
    [unsubscribe] of it changes nothing. An id that was never issued is
    accepted as well: it becomes a key holding [undefined]. *)
Theorem unsubscribe_then_trigger this (id : string) (args : Args) (app : App) :
  List.NoDup (List.map fst this) ->
  Observer.trigger args (Observer.unsubscribe id this) app
  = Observer.call_each
      (List.filter (fun e => negb (String.eqb (fst e) id)) (Observer.Object_entries this))
      args app /\
  ~ In id (snd (fst (Observer.trigger args (Observer.unsubscribe id this) app))) /\
  own_prop (Observer.unsubscribe id this) id = Some None /\
  Observer.unsubscribe id (Observer.unsubscribe id this) = Observer.unsubscribe id this.
Proof.
  intros Hnd. split; [apply trigger_unsubscribe, Hnd|].
  split; [apply trigger_unsubscribe_skips, Hnd|]. split.
  - apply own_prop_set_prop.
  - apply set_prop_set_prop.
Qed.

(** Further property X9: [subscribe] touches the property of its own id only: the new listener
    is registered under the id returned, and every other id keeps what it
    had. Two subscriptions made at different readings of the clock get
    different ids, and both listeners are registered afterwards. *)
Theorem subscribe_at_distinct_times (now1 now2 : Z)
    (cb1 cb2 : @Observer.callback Args App) this :
  now1 <> now2 ->
  let s1 := Observer.subscribe now1 cb1 this in
  let s2 := Observer.subscribe now2 cb2 (snd s1) in
  fst s1 <> fst s2 /\
  own_prop (snd s2) (fst s1) = Some (Some cb1) /\
  own_prop (snd s2) (fst s2) = Some (Some cb2) /\
  forall k, k <> fst s1 -> k <> fst s2 -> own_prop (snd s2) k = own_prop this k.
Proof.
  intros Hne. unfold Observer.subscribe. cbn [fst snd].
  assert (Hid : Observer.fresh_id now1 <> Observer.fresh_id now2).
  { intros E. apply Hne, fresh_id_inj, E. }
  split; [exact Hid|]. split; [|split].
  - rewrite own_prop_set_prop_ne by (intros E; apply Hid; symmetry; exact E).
    apply own_prop_set_prop.
  - apply own_prop_set_prop.
  - intros k Hk1 Hk2. rewrite !own_prop_set_prop_ne; [reflexivity | | ];
      intros E; [apply Hk1 | apply Hk2]; symmetry; exact E.
Qed.
(** Further property X10: two subscriptions made at the same reading of the clock share their
    id, so that [unsubscribe] with the id either of them got leaves
    neither listener registered: the registry is as if the id had been
    unsubscribed with no subscription made, and a later [trigger] calls
    no listener under that id. *)
Theorem unsubscribe_after_same_tick_drops_both (now : Z)
    (cb1 cb2 : @Observer.callback Args App) this (args : Args) (app : App) :
  List.NoDup (List.map fst this) ->
  let s1 := Observer.subscribe now cb1 this in
  let s2 := Observer.subscribe now cb2 (snd s1) in
  Observer.unsubscribe (fst s1) (snd s2) = Observer.unsubscribe (Observer.fresh_id now) this /\
  own_prop (Observer.unsubscribe (fst s1) (snd s2)) (fst s2) = Some None /\
  ~ In (fst s2)
      (snd (fst (Observer.trigger args (Observer.unsubscribe (fst s1) (snd s2)) app))).
Proof.
  intros Hnd. unfold Observer.subscribe. cbn [fst snd]. unfold Observer.unsubscribe.
  rewrite !set_prop_set_prop. split; [reflexivity|]. split; [apply own_prop_set_prop|].
  apply trigger_unsubscribe_skips, Hnd.
Qed.

(** The id issued at a clock reading of [2^32 - 1] or more is no array
    index. *)
Lemma fresh_id_not_index (now : Z) :
  4294967295 <= now -> Observer.array_index (Observer.fresh_id now) = None.
Proof.
  intros Hnow. unfold Observer.array_index, Observer.fresh_id, print_Z.
  rewrite list_ascii_of_string_of_list_ascii.
  destruct now as [|p|p]; try lia.
  cbn [Z.to_int]. rewrite <- (List.app_nil_r (print_uint (Pos.to_uint p))).
  rewrite take_digits_print by exact I.
  change (Pos.to_uint p) with (N.to_uint (N.pos p)).
  rewrite DecimalN.Unsigned.of_to.
  replace (N.pos p <? 4294967295)%N with false by (symmetry; apply N.ltb_ge; lia).
  rewrite Bool.andb_false_r. reflexivity.
Qed.

(** Further property X11: a listener subscribed at a clock reading of [2^32 - 1] or more, under
    an id the registry does not hold yet, is notified after all the
    listeners registered before it, and only if none of them raised. *)
Theorem late_subscriber_notified_last (now : Z) (cb : @Observer.callback Args App)
    this (args : Args) (app : App) :
  4294967295 <= now ->
  ~ In (Observer.fresh_id now) (List.map fst this) ->
  Observer.trigger args (snd (Observer.subscribe now cb this)) app
  = match Observer.trigger args this app with
    | (app1, ids1, Some e) => (app1, ids1, Some e)
    | (app1, ids1, None) =>
        (fst (cb args app1), ids1 ++ [Observer.fresh_id now], snd (cb args app1))
    end.
Proof.
  intros Hnow Hnew. unfold Observer.trigger, Observer.subscribe. cbn [snd].
  rewrite (set_prop_fresh this _ (Some cb) Hnew).
  unfold Observer.Object_entries. rewrite (own_entries_snoc this _ (Some cb) Hnew).
  rewrite (fresh_id_not_index now Hnow).
  destruct (Observer.own_entries this) as [idx str]. cbn [fst snd].
  rewrite List.app_assoc, call_each_app.
  destruct (Observer.call_each (List.map snd idx ++ str) args app) as [[app1 ids1] [e|]];
    [reflexivity|].
  cbn [Observer.call_each]. destruct (cb args app1) as [app2 [e|]]; reflexivity.
Qed.
End ObserverUse.

Lemma two_listeners_distinct : List.NoDup (List.map fst two_listeners).
Proof.
  apply List.NoDup_cons; [|apply List.NoDup_cons; [intros [] | apply List.NoDup_nil]].
  intros [E | []]. discriminate E.
Qed.

Lemma unsubscribe_then_trigger_witness :
  List.NoDup (List.map fst two_listeners) /\
  Observer.trigger tt (Observer.unsubscribe "1700000000000" two_listeners) []
  = (["second"], ["1700000000001"], None).
Proof.
  split; [exact two_listeners_distinct|].
  exact (proj1 (unsubscribe_then_trigger two_listeners "1700000000000" tt []
                  two_listeners_distinct)).
Defined.

Lemma unsubscribe_after_same_tick_drops_both_witness :
  List.NoDup (List.map fst (@Observer.new unit (list string))) /\
  own_prop (Observer.unsubscribe "1700000000000" same_tick_listeners) "1700000000000"
  = Some None /\
  ~ In "1700000000000"
      (snd (fst (Observer.trigger tt
                   (Observer.unsubscribe "1700000000000" same_tick_listeners) []))).
Proof.
  split; [apply List.NoDup_nil|].
  exact (proj2 (unsubscribe_after_same_tick_drops_both 1700000000000 noisy_listener
                  quiet_listener Observer.new tt [] (List.NoDup_nil _))).
Defined.

Lemma subscribe_at_distinct_times_witness :
  1700000000000 <> 1700000000001 /\
  own_prop two_listeners "1700000000000" = Some (Some noisy_listener).
Proof.
  split; [discriminate|].
  exact (proj1 (proj2 (subscribe_at_distinct_times 1700000000000 1700000000001
                         noisy_listener quiet_listener Observer.new ltac:(discriminate)))).
Defined.

Lemma late_subscriber_notified_last_witness :
  4294967295 <= 1700000000001 /\
  Observer.trigger tt
    (snd (Observer.subscribe 1700000000001 noisy_listener
            (snd (Observer.subscribe 1700000000000 quiet_listener Observer.new)))) []
  = (["second"; "first"], ["1700000000000"; "1700000000001"], Some (Error "boom")).
Proof.
  split; [discriminate|].
  refine (late_subscriber_notified_last 1700000000001 noisy_listener
            (snd (Observer.subscribe 1700000000000 quiet_listener Observer.new)) tt []
            ltac:(discriminate) _).
  intros [E | []]. discriminate E.
Defined.

(** ** services/aad.service.js: the session state *)

Section SessionState.
Import AuthenticationService.
Context {App : Type}.
Implicit Types (w : @world App) (s changes : session).

Lemma exn_eqb_eq (a b : exn) : exn_eqb a b = true -> a = b.
Proof.
  destruct a as [|x| |x|c x], b as [|y| |y|d y]; simpl; try discriminate; try reflexivity.
  - intros E. apply String.eqb_eq in E. congruence.
  - intros E. apply String.eqb_eq in E. congruence.
  - intros E. apply andb_prop in E as [Ec Ex]. apply String.eqb_eq in Ex. subst y.
    destruct c as [c|], d as [d|]; try discriminate; [|reflexivity].
    apply String.eqb_eq in Ec. congruence.
Qed.

Lemma strict_eq_eq (a b : sval) : strict_eq a b = true -> a = b.
Proof.
  destruct a, b; simpl; try discriminate; try reflexivity; intros E.
  - apply Bool.eqb_prop in E. congruence.
  - apply Z.eqb_eq in E. congruence.
  - apply String.eqb_eq in E. congruence.
  - apply Nat.eqb_eq in E. congruence.
  - apply exn_eqb_eq in E. congruence.
Qed.

Lemma exn_eqb_refl (a : exn) : exn_eqb a a = true.
Proof.
  destruct a as [|x| |x|[c|] x]; simpl; rewrite ?String.eqb_refl; reflexivity.
Qed.

Lemma strict_eq_refl (a : sval) : a <> SNaN -> strict_eq a a = true.
Proof.
  destruct a; simpl; intros Hn; try reflexivity.
  - apply Bool.eqb_reflx.
  - apply Z.eqb_refl.
  - congruence.
  - apply String.eqb_refl.
  - apply Nat.eqb_refl.
  - apply exn_eqb_refl.
Qed.

Lemma changed_false (old changes : session) :
  changed (List.map fst (map_to_list (changes ∪ old))) old (changes ∪ old) = false ->
  forall k, get old k = get (changes ∪ old) k.
Proof.
  intros Hc k. apply strict_eq_eq.
  destruct (strict_eq (get old k) (get (changes ∪ old) k)) eqn:E; [reflexivity|].
  assert (Ht : changed (List.map fst (map_to_list (changes ∪ old))) old (changes ∪ old) = true)
    by (apply changed_merged; eauto).
  congruence.
Qed.

Lemma get_union_l changes s (k : string) (v : sval) :
  changes !! k = Some v -> get (changes ∪ s) k = v.
Proof.
  intros E. unfold get. rewrite (lookup_union_Some_l changes s k v E). reflexivity.
Qed.

Lemma get_union_r changes s (k : string) :
  changes !! k = None -> get (changes ∪ s) k = get s k.
Proof.
  intros E. unfold get. rewrite (lookup_union_r changes s k E). reflexivity.
Qed.

Lemma setState_fields changes w :
  (forall k v, changes !! k = Some v -> get (state (fst (setState changes w))) k = v) /\
  (forall k, changes !! k = None ->
     get (state (fst (setState changes w))) k = get (state w) k).
Proof.
  rewrite setState_unfold.
  destruct (changed _ _ _) eqn:Hc; cbn [fst state set_app set_broadcasts set_state].
  - split; [intros k v; apply get_union_l | intros k; apply get_union_r].
  - pose proof (changed_false _ _ Hc) as Hsame. split.
    + intros k v E. rewrite Hsame. apply get_union_l, E.
    + reflexivity.
Qed.

(** Further property X12: what [setState] leaves in the stored state, whether it found a change
    or not and whether a listener raised or not: each field named in
    [changes] reads as [changes] gave it, and every other field reads as
    before. *)
Theorem setState_merges_fields changes w :
  (forall k v, changes !! k = Some v -> get (state (fst (setState changes w))) k = v) /\
  (forall k, changes !! k = None ->
     get (state (fst (setState changes w))) k = get (state w) k).
Proof.
  rewrite setState_unfold.
  destruct (changed _ _ _) eqn:Hc; cbn [fst state set_app set_broadcasts set_state].
  - split; [intros k v; apply get_union_l | intros k; apply get_union_r].
  - pose proof (changed_false _ _ Hc) as Hsame. split.
    + intros k v E. rewrite Hsame. apply get_union_l, E.
    + reflexivity.
Qed.

(** Further property X13: the same update made a second time finds nothing changed: the service
    is left as the first call left it, the listeners are not told again,
    and the stored state is returned. This needs that no field holds
    [NaN], which differs from itself. *)
Theorem setState_repeat_is_silent changes w :
  (forall k, changes !! k <> Some SNaN) ->
  (forall k, state w !! k <> Some SNaN) ->
  setState changes (fst (setState changes w))
  = (fst (setState changes w), Normal (state (fst (setState changes w)))).
Proof.
  intros Hc Hs.
  destruct (setState_fields changes w) as [Hin Hout].
  set (w1 := fst (setState changes w)) in *.
  assert (Hsame : forall k, strict_eq (get (state w1) k) (get (changes ∪ state w1) k) = true).
  { intros k. destruct (changes !! k) as [v|] eqn:E.
    - rewrite (get_union_l _ _ _ _ E), (Hin k v E). apply strict_eq_refl.
      intros ->. exact (Hc k E).
    - rewrite (get_union_r _ _ _ E). apply strict_eq_refl.
      rewrite (Hout k E). unfold get. intros Hn.
      destruct (state w !! k) as [v|] eqn:Es; simpl in Hn; [|discriminate Hn].
      subst v. exact (Hs k Es). }
  rewrite setState_unfold.
  destruct (changed _ _ _) eqn:Hch; [|reflexivity].
  apply changed_merged in Hch as [k Hk]. rewrite Hsame in Hk. discriminate Hk.
Qed.

(** Further property X14: a field given as [NaN] is a change every time: each such call stores
    the merged state and tells the listeners, also when the field held
    [NaN] before. *)
Theorem setState_NaN_always_broadcasts changes w (k : string) :
  changes !! k = Some SNaN ->
  broadcasts (fst (setState changes w)) = broadcasts w ++ [changes ∪ state w] /\
  broadcasts (fst (setState changes (fst (setState changes w))))
  = broadcasts w ++ [changes ∪ state w; changes ∪ state w].
Proof.
  intros Hk.
  assert (Hgo : forall w0, fst (setState changes w0)
    = set_app (fst (fst (Observer.trigger (changes ∪ state w0) (observer w0) (app w0))))
        (set_broadcasts (broadcasts w0 ++ [changes ∪ state w0])
           (set_state (changes ∪ state w0) w0))).
  { intros w0. rewrite setState_unfold.
    destruct (changed _ _ _) eqn:Hch; [reflexivity|].
    pose proof (changed_false _ _ Hch k) as E.
    assert (Ht : changed (List.map fst (map_to_list (changes ∪ state w0))) (state w0)
                   (changes ∪ state w0) = true).
    { apply changed_merged. exists k. rewrite (get_union_l _ _ _ _ Hk).
      destruct (get (state w0) k); reflexivity. }
    congruence. }
  rewrite !Hgo. cbn [broadcasts state set_app set_broadcasts set_state].
  split; [reflexivity|].
  rewrite <- List.app_assoc. cbn [List.app].
  replace (changes ∪ (changes ∪ state w)) with (changes ∪ state w); [reflexivity|].
  rewrite (assoc_L (∪)), (idemp_L (∪)). reflexivity.
Qed.
End SessionState.

Lemma no_NaN_listed (m : AuthenticationService.session) :
  Forall (fun p => snd p <> AuthenticationService.SNaN) (map_to_list m) ->
  forall k, m !! k <> Some AuthenticationService.SNaN.
Proof.
  intros Hall k E. apply elem_of_map_to_list in E.
  rewrite Forall_forall in Hall. exact (Hall _ E eq_refl).
Qed.

Lemma setState_repeat_is_silent_witness :
  AuthenticationService.broadcasts
    (fst (AuthenticationService.setState AuthenticationService.signed_in
            (fst (AuthenticationService.setState AuthenticationService.signed_in
                    signed_out_world))))
  = AuthenticationService.broadcasts
      (fst (AuthenticationService.setState AuthenticationService.signed_in signed_out_world)).
Proof.
  refine (f_equal (fun r => AuthenticationService.broadcasts (fst r))
            (setState_repeat_is_silent AuthenticationService.signed_in signed_out_world _ _)).
  - apply no_NaN_listed. vm_compute. repeat constructor; discriminate.
  - apply no_NaN_listed. vm_compute. repeat constructor; discriminate.
Defined.

Lemma setState_NaN_always_broadcasts_witness :
  length (AuthenticationService.broadcasts
            (fst (AuthenticationService.setState {[ "error" := AuthenticationService.SNaN ]}
                    (fst (AuthenticationService.setState
                            {[ "error" := AuthenticationService.SNaN ]} signed_out_world)))))
  = (length (AuthenticationService.broadcasts signed_out_world) + 2)%nat.
Proof.
  rewrite (proj2 (setState_NaN_always_broadcasts {[ "error" := AuthenticationService.SNaN ]}
                    signed_out_world "error" (lookup_singleton_eq _ _))).
  rewrite length_app. reflexivity.
Defined.

(** ** services/aad.service.js: tokens *)

Section Tokens.
Import AuthenticationService.
Context {App : Type}.
Implicit Types (w : @world App).

Ltac fields :=
  cbv [disabled baseConfig context observer state acquireTokenPromise authenticatingPromise
       AuthenticatingPromise Error promises flows redirectCallback requests broadcasts win app
       set_disabled set_baseConfig set_context set_observer set_state
       set_acquireTokenPromise set_AuthenticatingPromise set_Error set_promises set_flows
       set_redirectCallback set_requests set_broadcasts set_win set_app].

Ltac fields_in_all :=
  cbv [disabled baseConfig context observer state acquireTokenPromise authenticatingPromise
       AuthenticatingPromise Error promises flows redirectCallback requests broadcasts win app
       set_disabled set_baseConfig set_context set_observer set_state
       set_acquireTokenPromise set_AuthenticatingPromise set_Error set_promises set_flows
       set_redirectCallback set_requests set_broadcasts set_win set_app] in *.


Lemma acquireTokenSilent_start (sc : list string) (hint : option string)
    (force : option bool) w (c : UserAgentApplication) (cfg : Config) :
  disabled w = false -> context w = Some c -> baseConfig w = Some cfg ->
  acquireTokenPromise w = None \/ acquireTokenInProgress c = false ->
  acquireTokenSilent sc hint force w
  = (silent_started sc hint force c cfg w, Normal (Some (S (length (promises w))))).
Proof.
  intros Hd Hc Hb Hfree. unfold acquireTokenSilent. rewrite Hd, Hc.
  cbn [baseConfig set_context]. rewrite Hb.
  unfold new_promise, ask, silent_started.
  cbn [promises flows requests set_context set_requests set_promises
       set_acquireTokenPromise set_flows account set_redirectUri setAcquireTokenInProgress
       length].
  rewrite length_app. cbn [length]. rewrite Nat.add_1_r.
  rewrite <- List.app_assoc. cbn [List.app].
  destruct Hfree as [-> | Hp]; [reflexivity|].
  rewrite Hp. destruct (acquireTokenPromise w); reflexivity.
Qed.

(** Further property X15: [acquireTokenSilent] asks the library once per request in progress.
    The first call marks the application object, points its redirect URI
    at the refresh page, asks for a token with the account's user name as
    hint unless one was given, and hands out the promise derived by
    [finally]. A call made while that request is in progress asks nothing,
    whatever scopes and hint it names, and hands out the library's promise
    of the first request. *)
Theorem acquireTokenSilent_shares_request (sc : list string) (hint : option string)
    (force : option bool) w (c : UserAgentApplication) (cfg : Config) :
  disabled w = false -> context w = Some c -> baseConfig w = Some cfg ->
  acquireTokenPromise w = None \/ acquireTokenInProgress c = false ->
  let w1 := fst (acquireTokenSilent sc hint force w) in
  snd (acquireTokenSilent sc hint force w) = Normal (Some (S (length (promises w)))) /\
  requests w1
  = requests w ++ [AcquireTokenSilent sc
                     (match hint with Some h => Some h | None => userName <$> account c end)
                     force] /\
  context w1 = Some (set_redirectUri (tokenRefreshUri cfg) (setAcquireTokenInProgress true c)) /\
  promises w1 = promises w ++ [PPending; PPending] /\
  forall (sc' : list string) (hint' : option string) (force' : option bool),
    acquireTokenSilent sc' hint' force' w1 = (w1, Normal (Some (length (promises w)))).
Proof.
  intros Hd Hc Hb Hfree w1. subst w1.
  rewrite (acquireTokenSilent_start sc hint force w c cfg Hd Hc Hb Hfree).
  cbn [fst snd]. split; [reflexivity|]. split; [reflexivity|].
  split; [reflexivity|]. split; [reflexivity|].
  intros sc' hint' force'. unfold acquireTokenSilent, silent_started.
  cbn [disabled context acquireTokenPromise set_flows set_promises set_acquireTokenPromise
       set_requests set_context acquireTokenInProgress set_redirectUri
       setAcquireTokenInProgress].
  rewrite Hd. reflexivity.
Qed.

Lemma lookup_len {A : Type} (l r : list A) (a : A) : (l ++ a :: r) !! length l = Some a.
Proof. apply list_lookup_middle. reflexivity. Qed.

Lemma lookup_len_S {A : Type} (l r : list A) (a b : A) :
  (l ++ a :: b :: r) !! S (length l) = Some b.
Proof.
  change (l ++ a :: b :: r) with (l ++ [a] ++ b :: r). rewrite List.app_assoc.
  apply list_lookup_middle. rewrite length_app. simpl. lia.
Qed.

Lemma lookup_len_SS {A : Type} (l r : list A) (a b c : A) :
  (l ++ a :: b :: c :: r) !! S (S (length l)) = Some c.
Proof.
  change (l ++ a :: b :: c :: r) with (l ++ [a; b] ++ c :: r). rewrite List.app_assoc.
  apply list_lookup_middle. rewrite length_app. simpl. lia.
Qed.

Lemma insert_len {A : Type} (l r : list A) (a x : A) :
  <[length l := x]> (l ++ a :: r) = l ++ x :: r.
Proof. induction l as [|y l IH]; simpl; [reflexivity | rewrite IH; reflexivity]. Qed.

Lemma insert_len_S {A : Type} (l r : list A) (a b x : A) :
  <[S (length l) := x]> (l ++ a :: b :: r) = l ++ a :: x :: r.
Proof. induction l as [|y l IH]; simpl; [reflexivity | rewrite IH; reflexivity]. Qed.

Lemma insert_len_SS {A : Type} (l r : list A) (a b c x : A) :
  <[S (S (length l)) := x]> (l ++ a :: b :: c :: r) = l ++ a :: b :: x :: r.
Proof. induction l as [|y l IH]; simpl; [reflexivity | rewrite IH; reflexivity]. Qed.

(** In a service whose reactions refer to promises that were made, none
    waits on a promise still to be made. *)
Lemma made_no_wait w (q : nat) :
  made w -> (length (promises w) <= q)%nat ->
  List.filter (waits_on q) (flows w) = [] /\
  List.filter (fun f => negb (waits_on q f)) (flows w) = flows w /\
  finally_of q (flows w) = [] /\
  existsb (asked_of_library q) (flows w) = false.
Proof.
  intros [Hm _] Hq.
  assert (Hall : forall f, In f (flows w) -> waited f <> q).
  { intros f Hf. destruct (Hm f Hf) as [Hlt _]. lia. }
  clear Hm. induction (flows w) as [|f fs IH]; [repeat split|].
  destruct IH as (I1 & I2 & I3 & I4); [intros f' Hf'; apply Hall; right; exact Hf'|].
  pose proof (Hall f (or_introl eq_refl)) as Hf.
  assert (Hw : waits_on q f = false).
  { destruct f; cbn [waits_on waited] in *; apply Nat.eqb_neq; congruence. }
  cbn [List.filter finally_of flat_map existsb]. rewrite Hw. cbn [negb].
  fold (finally_of q fs). rewrite I1, I2, I3, I4.
  destruct f; cbn [waits_on asked_of_library] in *; rewrite ?Hw; repeat split.
Qed.
Lemma settle_pending (p : nat) (s : pstate) w :
  promises w !! p = Some PPending -> settle p s w = set_promises (<[p := s]> (promises w)) w.
Proof. intros E. unfold settle. rewrite E. reflexivity. Qed.

Lemma deliver_settled (q : nat) (outcome : pstate) w :
  promises w !! q = Some outcome -> outcome <> PPending ->
  deliver q w
  = fold_left (fun w f => react outcome f w) (List.filter (waits_on q) (flows w))
      (set_flows (List.filter (fun f => negb (waits_on q f)) (flows w)) w).
Proof.
  intros E Hout. unfold deliver. rewrite E. destruct outcome; [congruence | |]; reflexivity.
Qed.

Lemma react_Finally (outcome : pstate) (q q' : nat) w (c : UserAgentApplication) :
  outcome <> PPending -> context w = Some c ->
  react outcome (Finally q q') w
  = settle q' outcome (set_context (Some (setAcquireTokenInProgress false c)) w).
Proof.
  intros Hout Hc. unfold react. rewrite Hc. destruct outcome; [congruence | |]; reflexivity.
Qed.

Lemma step_settled_after_silent (sc : list string) (hint : option string)
    (force : option bool) w (c : UserAgentApplication) (cfg : Config) (outcome : pstate) :
  made w -> outcome <> PPending ->
  step (Settled (length (promises w)) outcome) (silent_started sc hint force c cfg w)
  = set_flows (flows w)
      (set_promises (promises w ++ [outcome; outcome])
         (set_context
            (Some (setAcquireTokenInProgress false
                     (set_redirectUri (tokenRefreshUri cfg) (setAcquireTokenInProgress true c))))
            (silent_started sc hint force c cfg w))).
Proof.
  intros Hm Hout.
  destruct (made_no_wait w (length (promises w)) Hm (Nat.le_refl _)) as (F1 & F2 & F3 & F4).
  destruct (made_no_wait w (S (length (promises w))) Hm (Nat.le_succ_diag_r _))
    as (G1 & G2 & G3 & G4).
  destruct w as [dis bc ctx obs st atp ap AP err ps fs rc rq br wn ap0]. fields_in_all.
  unfold step, silent_started. fields.
  rewrite existsb_app, F4. cbn [existsb asked_of_library orb].
  rewrite Nat.eqb_refl. cbn [orb].
  unfold finally_of. rewrite flat_map_app. fold (finally_of (length ps) fs).
  rewrite F3. cbn [flat_map List.app]. rewrite Nat.eqb_refl. cbn [List.app fold_left].
  rewrite settle_pending by (fields; apply lookup_len). fields. rewrite insert_len.
  rewrite (deliver_settled (length ps) outcome)
    by (fields; first [apply lookup_len | exact Hout]).
  fields. rewrite !List.filter_app, F1, F2. cbn [List.filter waits_on].
  rewrite Nat.eqb_refl. cbn [negb List.app fold_left].
  erewrite react_Finally by (fields; first [exact Hout | reflexivity]).
  rewrite settle_pending by (fields; apply lookup_len_S). fields. rewrite insert_len_S.
  rewrite (deliver_settled (S (length ps)) outcome)
    by (fields; first [apply lookup_len_S | exact Hout]).
  fields. rewrite ?List.app_nil_r, G1, G2. cbn [fold_left].
  destruct outcome; [congruence | reflexivity | reflexivity].
Qed.
Lemma made_no_flows w :
  flows w = [] -> redirectCallback w = None -> acquireTokenPromise w = None -> made w.
Proof.
  intros Hf Hr Hq. split; [|split].
  - rewrite Hf. intros f [].
  - rewrite Hr. discriminate.
  - rewrite Hq. discriminate.
Qed.

(** Further property X16: when a request settles, the promise handed out settles the same way,
    the application object is no more marked as acquiring, and the next
    call asks the library anew. The redirect URI of the application object
    stays at the refresh page. *)
Theorem acquireTokenSilent_settles (sc : list string) (hint : option string)
    (force : option bool) w (c : UserAgentApplication) (cfg : Config) (outcome : pstate) :
  disabled w = false -> context w = Some c -> baseConfig w = Some cfg ->
  acquireTokenPromise w = None \/ acquireTokenInProgress c = false ->
  made w -> outcome <> PPending ->
  let q := length (promises w) in
  let w1 := fst (acquireTokenSilent sc hint force w) in
  let w2 := step (Settled q outcome) w1 in
  promises w2 !! S q = Some outcome /\
  acquireTokenInProgress <$> context w2 = Some false /\
  redirectUri <$> context w2 = Some (tokenRefreshUri cfg) /\
  requests w2 = requests w1 /\
  forall (sc' : list string) (hint' : option string) (force' : option bool),
    snd (acquireTokenSilent sc' hint' force' w2) = Normal (Some (S (S (S q)))) /\
    requests (fst (acquireTokenSilent sc' hint' force' w2))
    = requests w2 ++ [AcquireTokenSilent sc'
                        (match hint' with Some h => Some h | None => userName <$> account c end)
                        force'].
Proof.
  intros Hd Hc Hb Hfree Hm Hout q w1 w2. subst q w1 w2.
  rewrite (acquireTokenSilent_start sc hint force w c cfg Hd Hc Hb Hfree). cbn [fst].
  rewrite (step_settled_after_silent sc hint force w c cfg outcome Hm Hout).
  unfold silent_started. fields.
  split; [apply lookup_len_S|]. split; [reflexivity|]. split; [reflexivity|].
  split; [reflexivity|]. intros sc' hint' force'.
  erewrite acquireTokenSilent_start; fields; try reflexivity; try eassumption.
  - cbn [fst snd]. unfold silent_started. fields. rewrite length_app. cbn [length].
    rewrite Nat.add_comm. split; reflexivity.
  - right. reflexivity.
Qed.
(** The cache has nothing usable for the default scopes, or the caller
    forces a refresh. *)
Lemma acquireToken_start (sc : list string) (force : bool) w (c : UserAgentApplication)
    (cfg : Config) :
  disabled w = false -> context w = Some c -> baseConfig w = Some cfg ->
  acquireTokenPromise w = None \/ acquireTokenInProgress c = false ->
  force = true \/
  (exists cached, cachedToken c DEFAULT_SCOPES = Normal cached /\ usable cached = false) ->
  acquireToken sc force w = (token_started sc c cfg w, S (S (length (promises w)))).
Proof.
  intros Hd Hc Hb Hfree Hwhy. unfold acquireToken.
  pose proof (acquireTokenSilent_start sc None (Some true) w c cfg Hd Hc Hb Hfree) as Hs.
  assert (Hcache : force = false ->
    exists cached, acquireTokenInCache DEFAULT_SCOPES w = (w, Normal cached) /\
                   usable cached = false).
  { intros ->. destruct Hwhy as [Hf | [cached [Hk Hu]]]; [discriminate Hf|].
    exists cached. unfold acquireTokenInCache. rewrite Hd, Hc, Hk. split; [reflexivity | exact Hu]. }
  assert (Hres :
    (if negb force then
       match acquireTokenInCache DEFAULT_SCOPES w with
       | (w', Throw e) => (w', inl (Throw e))
       | (w', Normal cached) =>
           match cached with
           | Some r =>
               if usable cached then (w', inl (Normal r))
               else match acquireTokenSilent sc None (Some true) w' with
                    | (w'', Throw e) => (w'', inl (Throw e))
                    | (w'', Normal None) => (w'', inl (Throw (null_deref "then")))
                    | (w'', Normal (Some r0)) => (w'', inr r0)
                    end
           | None => match acquireTokenSilent sc None (Some true) w' with
                     | (w'', Throw e) => (w'', inl (Throw e))
                     | (w'', Normal None) => (w'', inl (Throw (null_deref "then")))
                     | (w'', Normal (Some r0)) => (w'', inr r0)
                     end
           end
       end
     else match acquireTokenSilent sc None (Some true) w with
          | (w'', Throw e) => (w'', inl (Throw e))
          | (w'', Normal None) => (w'', inl (Throw (null_deref "then")))
          | (w'', Normal (Some r0)) => (w'', inr r0)
          end)
    = (silent_started sc None (Some true) c cfg w,
       inr (S (length (promises w))) : completion AuthResponse + nat)).
  { destruct force; cbn [negb].
    - rewrite Hs. reflexivity.
    - destruct (Hcache eq_refl) as [cached [-> Hu]].
      destruct cached as [r|]; [rewrite Hu|]; rewrite Hs; reflexivity. }
  cbv zeta beta. rewrite Hres. unfold new_promise.
  unfold deliver, token_started, silent_started. fields.
  rewrite length_app. cbn [length]. rewrite (Nat.add_comm _ 2). cbn [Nat.add].
  rewrite <- !List.app_assoc. cbn [List.app].
  rewrite lookup_len_S. reflexivity.
Qed.
Lemma step_settled_after_token (sc : list string) w (c : UserAgentApplication)
    (cfg : Config) (outcome : pstate) :
  made w -> outcome <> PPending ->
  step (Settled (length (promises w)) outcome) (token_started sc c cfg w)
  = let mid (x : pstate) :=
      set_flows (flows w)
        (set_promises (promises w ++ [outcome; outcome; x])
           (set_context
              (Some (setAcquireTokenInProgress false
                       (set_redirectUri (tokenRefreshUri cfg)
                          (setAcquireTokenInProgress true c))))
              (token_started sc c cfg w))) in
    match outcome with
    | PRejected _ => fst (login login_defaults (mid PPending))
    | _ => mid outcome
    end.
Proof.
  intros Hm Hout.
  destruct (made_no_wait w (length (promises w)) Hm (Nat.le_refl _)) as (F1 & F2 & F3 & F4).
  destruct (made_no_wait w (S (length (promises w))) Hm (Nat.le_succ_diag_r _))
    as (G1 & G2 & G3 & G4).
  destruct w as [dis bc ctx obs st atp ap AP err ps fs rc rq br wn ap0]. fields_in_all.
  unfold step, token_started, silent_started. fields.
  rewrite existsb_app, F4. cbn [existsb asked_of_library orb].
  rewrite Nat.eqb_refl. cbn [orb].
  unfold finally_of. rewrite flat_map_app. fold (finally_of (length ps) fs).
  rewrite F3. cbn [flat_map List.app]. rewrite Nat.eqb_refl. cbn [List.app fold_left].
  rewrite settle_pending by (fields; apply lookup_len). fields. rewrite insert_len.
  rewrite (deliver_settled (length ps) outcome)
    by (fields; first [apply lookup_len | exact Hout]).
  fields. rewrite !List.filter_app, F1, F2. cbn [List.filter waits_on].
  rewrite Nat.eqb_refl.
  replace (length ps =? S (length ps))%nat with false by (symmetry; apply Nat.eqb_neq; lia).
  cbn [negb List.app fold_left].
  erewrite react_Finally by (fields; first [exact Hout | reflexivity]).
  rewrite settle_pending by (fields; apply lookup_len_S). fields. rewrite insert_len_S.
  rewrite (deliver_settled (S (length ps)) outcome)
    by (fields; first [apply lookup_len_S | exact Hout]).
  fields. rewrite !List.filter_app, G1, G2. cbn [List.filter waits_on].
  rewrite Nat.eqb_refl. cbn [negb List.app fold_left].
  rewrite ?List.app_nil_r.
  destruct outcome as [|v|v]; [congruence | |]; cbn [react].
  - rewrite settle_pending by (fields; apply lookup_len_SS). fields.
    rewrite insert_len_SS. reflexivity.
  - reflexivity.
Qed.
Lemma setState_keeps_reactions (changes : session) w :
  promises (fst (setState changes w)) = promises w /\
  flows (fst (setState changes w)) = flows w /\
  redirectCallback (fst (setState changes w)) = redirectCallback w /\
  acquireTokenPromise (fst (setState changes w)) = acquireTokenPromise w.
Proof.
  rewrite setState_unfold. destruct (changed _ _ _); repeat split.
Qed.

Lemma abandoned_below (p : nat) w : abandoned p w -> (p < length (promises w))%nat.
Proof. intros [Hp _]. apply lookup_lt_Some in Hp. exact Hp. Qed.

Lemma abandoned_same (p : nat) w w' :
  promises w' = promises w -> flows w' = flows w ->
  redirectCallback w' = redirectCallback w ->
  abandoned p w -> abandoned p w'.
Proof. unfold abandoned. intros -> -> ->. tauto. Qed.

Lemma abandoned_setState (p : nat) (changes : session) w :
  abandoned p w -> abandoned p (fst (setState changes w)).
Proof.
  destruct (setState_keeps_reactions changes w) as (E1 & E2 & E3 & _).
  apply abandoned_same; assumption.
Qed.

Lemma abandoned_settle (p p' : nat) (s : pstate) w :
  p' <> p -> abandoned p w -> abandoned p (settle p' s w).
Proof.
  intros Hne (Hp & Hf & Hr). unfold settle.
  destruct (promises w !! p') as [[| |]|]; try (split; [exact Hp | split; [exact Hf | exact Hr]]).
  split; [|split; [exact Hf | exact Hr]]. fields.
  rewrite list_lookup_insert_ne by exact Hne. exact Hp.
Qed.

Lemma abandoned_new_promise (p : nat) (s : pstate) w :
  abandoned p w -> abandoned p (snd (new_promise s w)).
Proof.
  intros Ha. pose proof (abandoned_below p w Ha) as Hlt. destruct Ha as (Hp & Hf & Hr).
  unfold new_promise. cbn [snd]. split; [|split; [exact Hf | exact Hr]]. fields.
  rewrite lookup_app_l by exact Hlt. exact Hp.
Qed.

Lemma abandoned_ask (p : nat) (r : request) w : abandoned p w -> abandoned p (ask r w).
Proof. apply abandoned_same; reflexivity. Qed.

Lemma abandoned_add_flow (p : nat) (f : flow) w :
  target f <> p -> asked_of_library p f = false -> abandoned p w ->
  abandoned p (set_flows (flows w ++ [f]) w).
Proof.
  intros Ht Hw (Hp & Hf & Hr). split; [exact Hp|]. split; [|exact Hr].
  fields. intros f' Hin. apply in_app_or in Hin as [Hin | [<- | []]]; [apply Hf, Hin|].
  split; assumption.
Qed.

Lemma abandoned_resolve (p p' : nat) w :
  p' <> p -> abandoned p w -> abandoned p (fst (resolve_signed_in p' w)).
Proof.
  intros Hne Ha. unfold resolve_signed_in.
  pose proof (abandoned_setState p signed_in w Ha) as Hs.
  destruct (setState signed_in w) as [w' [s|e]]; cbn [fst] in *; [|exact Hs].
  apply abandoned_settle; assumption.
Qed.

Lemma abandoned_reject (p p' : nat) (error : sval) w :
  p' <> p -> abandoned p w -> abandoned p (reject_failed p' error w).
Proof.
  intros Hne Ha. unfold reject_failed.
  pose proof (abandoned_setState p (failed error) w Ha) as Hs.
  destruct (setState (failed error) w) as [w' [s|e]]; cbn [fst] in *; [|exact Hs].
  apply abandoned_settle; assumption.
Qed.

Lemma abandoned_interactive (p p' : nat) (t : LOGIN_TYPE) (sc : list string)
    (hint : option string) (force : bool) w :
  p' <> p -> abandoned p w -> abandoned p (interactive p' t sc hint force w).
Proof.
  intros Hne Ha.
  assert (H1 : abandoned p (set_redirectCallback (Some p') w)).
  { destruct Ha as (Hp & Hf & Hr). split; [exact Hp|]. split; [exact Hf|].
    fields. congruence. }
  unfold interactive. destruct t.
  - apply abandoned_ask, H1.
  - pose proof (abandoned_ask p (LoginPopup sc hint force) _ H1) as H2.
    pose proof (abandoned_below p _ H2) as Hlt.
    pose proof (abandoned_new_promise p PPending _ H2) as H3.
    unfold new_promise in *. cbn [snd] in H3.
    apply abandoned_add_flow; cbn [target asked_of_library];
      [exact Hne | apply Nat.eqb_neq; lia | exact H3].
Qed.

Lemma abandoned_login (p : nat) (o : login_options) w :
  abandoned p w -> abandoned p (fst (login o w)).
Proof.
  intros Ha. unfold login. destruct (disabled w); [exact Ha|].
  destruct (AuthenticatingPromise w); [exact Ha|].
  pose proof (abandoned_below p w Ha) as Hlt.
  pose proof (abandoned_new_promise p PPending w Ha) as H0.
  unfold new_promise in *. cbn [snd] in H0.
  set (w0 := set_promises (promises w ++ [PPending]) w) in *.
  assert (Hne : length (promises w) <> p) by lia.
  cbn [fst]. eapply abandoned_same; [reflexivity | reflexivity | reflexivity |].
  destruct (isAuthenticated w0) as [[|]|e].
  - apply abandoned_settle; assumption.
  - pose proof (abandoned_setState p {[ "authenticating" := SBool true ]} w0 H0) as Hs.
    destruct (setState {[ "authenticating" := SBool true ]} w0) as [w' [s|e]];
      cbn [fst] in Hs; [|apply abandoned_settle; assumption].
    pose proof (abandoned_ask p (AcquireTokenSilent (scopes o) None None) _ Hs) as H2.
    pose proof (abandoned_below p _ H2) as Hlt2.
    pose proof (abandoned_new_promise p PPending _ H2) as H3.
    unfold new_promise in H3. cbn [snd] in H3.
    cbv zeta beta iota. apply abandoned_add_flow; cbn [target asked_of_library];
      [exact Hne | apply Nat.eqb_neq; lia | exact H3].
  - apply abandoned_settle; assumption.
Qed.
Lemma abandoned_react (p : nat) (outcome : pstate) (f : flow) w :
  target f <> p -> abandoned p w -> abandoned p (react outcome f w).
Proof.
  intros Ht Ha. destruct f as [q p' t sc hint force | q p' | q q' | r p'];
    cbn [target] in Ht; destruct outcome as [|v|v]; cbn [react]; try exact Ha.
  - pose proof (abandoned_resolve p p' w Ht Ha) as Hr.
    destruct (resolve_signed_in p' w) as [w' [e|]]; cbn [fst] in Hr; [|exact Hr].
    apply abandoned_interactive; assumption.
  - apply abandoned_interactive; assumption.
  - pose proof (abandoned_resolve p p' w Ht Ha) as Hr.
    destruct (resolve_signed_in p' w) as [w' [e|]]; cbn [fst] in Hr; [|exact Hr].
    apply abandoned_reject; assumption.
  - apply abandoned_reject; assumption.
  - destruct (context w); apply abandoned_settle; try exact Ht.
    + eapply abandoned_same; [reflexivity | reflexivity | reflexivity | exact Ha].
    + exact Ha.
  - destruct (context w); apply abandoned_settle; try exact Ht.
    + eapply abandoned_same; [reflexivity | reflexivity | reflexivity | exact Ha].
    + exact Ha.
  - apply abandoned_settle; assumption.
  - apply abandoned_login, Ha.
Qed.

Lemma abandoned_reactions (p : nat) (outcome : pstate) (fs : list flow) w :
  (forall f, In f fs -> target f <> p) -> abandoned p w ->
  abandoned p (fold_left (fun w f => react outcome f w) fs w).
Proof.
  revert w. induction fs as [|f fs IH]; intros w Hfs Ha; [exact Ha|].
  cbn [fold_left]. apply IH; [intros f' Hin; apply Hfs; right; exact Hin|].
  apply abandoned_react; [apply Hfs; left; reflexivity | exact Ha].
Qed.

Lemma abandoned_deliver (p q : nat) w : abandoned p w -> abandoned p (deliver q w).
Proof.
  intros Ha. unfold deliver.
  assert (Hgo : abandoned p
    (fold_left (fun w f => react (default PPending (promises w !! q)) f w)
       (List.filter (waits_on q) (flows w))
       (set_flows (List.filter (fun f => negb (waits_on q f)) (flows w)) w)) -> True)
    by (intros; exact I). clear Hgo.
  destruct (promises w !! q) as [[|v|v]|]; try exact Ha.
  - apply abandoned_reactions.
    + intros f Hin. apply List.filter_In in Hin as [Hin _]. apply Ha, Hin.
    + destruct Ha as (Hp & Hf & Hr). split; [exact Hp|]. split; [|exact Hr].
      fields. intros f Hin. apply List.filter_In in Hin as [Hin _]. apply Hf, Hin.
  - apply abandoned_reactions.
    + intros f Hin. apply List.filter_In in Hin as [Hin _]. apply Ha, Hin.
    + destruct Ha as (Hp & Hf & Hr). split; [exact Hp|]. split; [|exact Hr].
      fields. intros f Hin. apply List.filter_In in Hin as [Hin _]. apply Hf, Hin.
Qed.

Lemma abandoned_delivers (p : nat) (qs : list nat) w :
  abandoned p w -> abandoned p (fold_left (fun w q' => deliver q' w) qs w).
Proof.
  revert w. induction qs as [|q qs IH]; intros w Ha; [exact Ha|].
  cbn [fold_left]. apply IH, abandoned_deliver, Ha.
Qed.

Lemma abandoned_step (p : nat) (e : event) w : abandoned p w -> abandoned p (step e w).
Proof.
  intros Ha. destruct e as [q outcome | error response | c]; cbn [step].
  - assert (Hq : existsb (asked_of_library q) (flows w) = true -> q <> p).
    { intros Hex. apply existsb_exists in Hex as [f [Hin Hf]].
      destruct (proj1 (proj2 Ha) f Hin) as [_ Hw]. congruence. }
    destruct outcome as [|v|v]; [exact Ha | |];
      (destruct (existsb (asked_of_library q) (flows w)); [|exact Ha]);
      apply abandoned_delivers, abandoned_deliver, abandoned_settle; auto.
  - destruct (redirectCallback w) as [p'|] eqn:Hr; [|exact Ha].
    assert (Hne : p' <> p) by (intros ->; exact (proj2 (proj2 Ha) Hr)).
    destruct response; [apply abandoned_resolve | apply abandoned_reject]; assumption.
  - destruct (context w); [|exact Ha].
    eapply abandoned_same; [reflexivity | reflexivity | reflexivity | exact Ha].
Qed.

Lemma abandoned_steps (p : nat) (es : list event) w :
  abandoned p w -> abandoned p (steps es w).
Proof.
  revert w. induction es as [|e es IH]; intros w Ha; [exact Ha|].
  cbn [steps]. apply IH, abandoned_step, Ha.
Qed.

Lemma abandoned_acquireTokenSilent (p : nat) (sc : list string) (hint : option string)
    (force : option bool) w :
  abandoned p w -> abandoned p (fst (acquireTokenSilent sc hint force w)).
Proof.
  intros Ha. pose proof (abandoned_below p w Ha) as Hlt.
  unfold acquireTokenSilent. destruct (disabled w); [exact Ha|].
  assert (Hstart : abandoned p (fst (
    match context w with
    | None => (w, Throw (null_deref "setAcquireTokenInProgress"))
    | Some c =>
        let w1 := set_context (Some (setAcquireTokenInProgress true c)) w in
        match baseConfig w1 with
        | None => (w1, Throw (null_deref "auth"))
        | Some cfg =>
            let c2 := set_redirectUri (tokenRefreshUri cfg) (setAcquireTokenInProgress true c) in
            let w2 := set_context (Some c2) w1 in
            let hint0 := match hint with
                         | Some h => Some h
                         | None => userName <$> account c2
                         end in
            let w3 := ask (AcquireTokenSilent sc hint0 force) w2 in
            let '(q, w4) := new_promise PPending w3 in
            let w5 := set_acquireTokenPromise (Some q) w4 in
            let '(q', w6) := new_promise PPending w5 in
            (set_flows (flows w6 ++ [Finally q q']) w6, Normal (Some q'))
        end
    end : world * completion (option nat)))).
  { destruct (context w) as [c|]; [|exact Ha]. cbv zeta.
    destruct (baseConfig _) as [cfg|].
    - clear - Ha Hlt. destruct w as [dis bc ctx obs st atp ap AP err ps fs rc rq br wn ap0].
      unfold abandoned in *. unfold new_promise, ask. fields_in_all. cbn [fst].
      destruct Ha as (Hp & Hf & Hr). split; [|split].
      + rewrite lookup_app_l by (rewrite length_app; lia).
        rewrite lookup_app_l by exact Hlt. exact Hp.
      + intros f Hin. apply in_app_or in Hin as [Hin | [<- | []]]; [apply Hf, Hin|].
        cbn [target asked_of_library]. rewrite length_app. cbn [length].
        split; [lia | apply Nat.eqb_neq; lia].
      + exact Hr.
    - cbn [fst]. eapply abandoned_same; [reflexivity | reflexivity | reflexivity | exact Ha]. }
  destruct (acquireTokenPromise w) as [q|]; [|exact Hstart].
  destruct (context w) as [c|]; [|exact Ha].
  destruct (acquireTokenInProgress c); [exact Ha | exact Hstart].
Qed.

Lemma abandoned_acquireToken (p : nat) (sc : list string) (force : bool) w :
  abandoned p w -> abandoned p (fst (acquireToken sc force w)).
Proof.
  intros Ha. unfold acquireToken.
  assert (Hsilent : abandoned p (fst (
    match acquireTokenSilent sc None (Some true) w with
    | (w', Throw e) => (w', inl (Throw e))
    | (w', Normal None) => (w', inl (Throw (null_deref "then")))
    | (w', Normal (Some r)) => (w', inr r)
    end : world * (completion AuthResponse + nat)))).
  { pose proof (abandoned_acquireTokenSilent p sc None (Some true) w Ha) as Hs.
    destruct (acquireTokenSilent sc None (Some true) w) as [w' [[r|]|e]]; exact Hs. }
  assert (Hcache : acquireTokenInCache DEFAULT_SCOPES w = (w, snd (acquireTokenInCache DEFAULT_SCOPES w))
                   \/ exists e x, acquireTokenInCache DEFAULT_SCOPES w = (set_win x w, Throw e)).
  { unfold acquireTokenInCache. destruct (disabled w); [left; reflexivity|].
    destruct (match context w with
              | Some c => cachedToken c DEFAULT_SCOPES
              | None => Throw (null_deref "getCachedTokenInternal")
              end) as [r|e]; [left; reflexivity|].
    destruct (errorCode e) as [code|]; [|left; reflexivity].
    destruct (String.eqb code "cannot_parse_cache"); [right; eauto | left; reflexivity]. }
  cbv zeta beta.
  match goal with
  | |- abandoned p (fst (let '(w1, res) := ?X in _)) =>
      assert (H1 : abandoned p (fst X)); [|destruct X as [w1 res]; cbn [fst] in H1]
  end.
  { destruct force; cbn [negb]; [exact Hsilent|].
    destruct Hcache as [E | (e & x & E)]; rewrite E.
    - destruct (snd (acquireTokenInCache DEFAULT_SCOPES w)) as [[r|]|e]; cbn [fst];
        [destruct (usable (Some r)); [exact Ha | exact Hsilent] | exact Hsilent | exact Ha].
    - cbn [fst]. eapply abandoned_same; [reflexivity | reflexivity | reflexivity | exact Ha]. }
  destruct res as [[r|e]|r].
  - unfold new_promise. cbn [fst]. exact (abandoned_new_promise p _ w1 H1).
  - unfold new_promise. cbn [fst].
    apply (abandoned_new_promise p _ (set_Error (Some e) w1)).
    eapply abandoned_same; [reflexivity | reflexivity | reflexivity | exact H1].
  - unfold new_promise. cbn [fst]. apply abandoned_deliver.
    pose proof (abandoned_below p w1 H1) as Hlt.
    apply (abandoned_add_flow p (TokenWait r (length (promises w1)))
             (set_promises (promises w1 ++ [PPending]) w1));
      [cbn [target]; lia | reflexivity |].
    exact (abandoned_new_promise p PPending w1 H1).
Qed.
Lemma abandoned_act (p : nat) (a : action) w : abandoned p w -> abandoned p (act a w).
Proof.
  intros Ha. destruct a; cbn [act].
  - unfold init. apply abandoned_setState.
    destruct disabled'; (eapply abandoned_same; [reflexivity | reflexivity | reflexivity | exact Ha]).
  - apply abandoned_setState, Ha.
  - apply abandoned_login, Ha.
  - unfold acquireTokenInCache. destruct (disabled w); [exact Ha|].
    destruct (match context w with
              | Some c => cachedToken c scopes'
              | None => Throw (null_deref "getCachedTokenInternal")
              end) as [r|e]; [exact Ha|].
    destruct (errorCode e) as [code|]; [|exact Ha].
    destruct (String.eqb code "cannot_parse_cache"); [|exact Ha].
    cbn [fst]. eapply abandoned_same; [reflexivity | reflexivity | reflexivity | exact Ha].
  - apply abandoned_acquireTokenSilent, Ha.
  - apply abandoned_acquireToken, Ha.
  - unfold logout. destruct (disabled w); [exact Ha|].
    destruct (context w); [apply abandoned_ask, Ha | exact Ha].
  - unfold clearCache. destruct (disabled w); [exact Ha|].
    destruct (context w); [apply abandoned_ask, Ha | exact Ha].
  - apply abandoned_step, Ha.
Qed.

Lemma abandoned_acts (p : nat) (l : list action) w :
  abandoned p w -> abandoned p (acts l w).
Proof.
  revert w. induction l as [|a l IH]; intros w Ha; [exact Ha|].
  cbn [acts]. apply IH, abandoned_act, Ha.
Qed.

(** Further property X17: [acquireToken] with a usable response in the cache: the promise is
    fulfilled with that response at once and the library is asked nothing.
    The cache is looked up under the default scopes whatever scopes the
    caller names. *)
Theorem acquireToken_serves_cached_response (sc : list string) w
    (c : UserAgentApplication) (r : AuthResponse) :
  disabled w = false -> context w = Some c ->
  cachedToken c DEFAULT_SCOPES = Normal (Some r) ->
  truthy (accessToken r) = true -> truthy (idToken r) = true ->
  promises (fst (acquireToken sc false w)) !! snd (acquireToken sc false w)
  = Some (PFulfilled (PResponse r)) /\
  requests (fst (acquireToken sc false w)) = requests w /\
  flows (fst (acquireToken sc false w)) = flows w /\
  context (fst (acquireToken sc false w)) = context w.
Proof.
  intros Hd Hc Hk Ha Hi. unfold acquireToken, acquireTokenInCache.
  rewrite Hd, Hc, Hk. cbn [negb usable]. rewrite Ha, Hi. cbn [andb].
  unfold new_promise. cbn [fst snd]. fields.
  split; [apply lookup_len|]. split; [reflexivity|]. split; [reflexivity | exact Hc].
Qed.

(** Further property X18: [acquireToken] when the cache lookup raises: the promise handed out
    is fulfilled, not rejected, and its value is the exception, which is
    also left in [AuthenticationService.Error]; the library is asked for
    nothing, and an unparseable cache has emptied the local storage. *)
Theorem acquireToken_fulfils_with_cache_error (sc : list string) w
    (c : UserAgentApplication) (e : exn) :
  disabled w = false -> context w = Some c -> cachedToken c DEFAULT_SCOPES = Throw e ->
  promises (fst (acquireToken sc false w)) !! snd (acquireToken sc false w)
  = Some (PFulfilled (PExn e)) /\
  Error (fst (acquireToken sc false w)) = Some e /\
  requests (fst (acquireToken sc false w)) = requests w /\
  (errorCode e = Some "cannot_parse_cache" ->
   localStorage (win (fst (acquireToken sc false w))) = ∅).
Proof.
  intros Hd Hc Hk. unfold acquireToken, acquireTokenInCache.
  rewrite Hd, Hc, Hk. cbn [negb].
  assert (Hcode : errorCode e = Some "cannot_parse_cache" \/
                  errorCode e <> Some "cannot_parse_cache").
  { destruct (errorCode e) as [code|]; [|right; discriminate].
    destruct (String.eqb_spec code "cannot_parse_cache") as [-> | Hne];
      [left; reflexivity | right; congruence]. }
  destruct Hcode as [Hcode | Hcode].
  - rewrite Hcode. cbn [String.eqb Ascii.eqb Bool.eqb]. unfold new_promise. cbn [fst snd]. fields.
    split; [apply lookup_len|]. repeat split.
  - assert (Hsame : match errorCode e with
                    | Some code =>
                        if String.eqb code "cannot_parse_cache"
                        then (set_win (with_storage (win w) LOCAL_STORAGE
                                         (clear (localStorage (win w)))) w,
                              Throw e : completion (option AuthResponse))
                        else (w, Throw e)
                    | None => (w, Throw e)
                    end = (w, Throw e)).
    { destruct (errorCode e) as [code|]; [|reflexivity].
      destruct (String.eqb_spec code "cannot_parse_cache") as [-> | Hne];
        [congruence | reflexivity]. }
    rewrite Hsame. unfold new_promise. cbn [fst snd]. fields.
    split; [apply lookup_len|]. split; [reflexivity|]. split; [reflexivity|].
    intros Hc'. congruence.
Qed.

(** Further property X20: when the request of [acquireToken] is rejected, [login()] is called
    and its result dropped: the promise handed out by [acquireToken] is
    left pending, and nothing the application does with the service
    afterwards, and nothing that happens around it, settles it. With an
    account present [login()] asks the library for nothing. *)
Theorem acquireToken_hangs_after_silent_failure (sc : list string) (force : bool) w
    (c : UserAgentApplication) (cfg : Config) (v : pvalue) :
  disabled w = false -> context w = Some c -> baseConfig w = Some cfg ->
  acquireTokenPromise w = None \/ acquireTokenInProgress c = false ->
  force = true \/
  (exists cached, cachedToken c DEFAULT_SCOPES = Normal cached /\ usable cached = false) ->
  made w ->
  let q := length (promises w) in
  let w1 := fst (acquireToken sc force w) in
  let p := snd (acquireToken sc force w) in
  let w2 := step (Settled q (PRejected v)) w1 in
  (forall l : list action, promises (acts l w2) !! p = Some PPending) /\
  (AuthenticatingPromise w = None -> AuthenticatingPromise w2 = Some (S (S (S q)))) /\
  (has_account c = true -> requests w2 = requests w1).
Proof.
  intros Hd Hc Hb Hfree Hwhy Hm q w1 p w2. subst q w1 p w2.
  rewrite (acquireToken_start sc force w c cfg Hd Hc Hb Hfree Hwhy). cbn [fst snd].
  rewrite (step_settled_after_token sc w c cfg (PRejected v) Hm) by discriminate.
  cbv zeta beta iota.
  set (mid := set_flows (flows w) _).
  assert (Hmid : abandoned (S (S (length (promises w)))) mid).
  { subst mid. clear - Hm. destruct w as [dis bc ctx obs st atp ap AP err ps fs rc rq br wn ap0].
    unfold token_started, silent_started, abandoned, made in *. fields_in_all.
    destruct Hm as (Hf & Hr & _). split; [|split].
    - apply lookup_len_SS.
    - intros f Hin. destruct (Hf f Hin) as [Hw Ht]. split; [lia|].
      destruct f; cbn [asked_of_library waited] in *; try reflexivity;
        apply Nat.eqb_neq; lia.
    - intros E. apply Hr in E. lia. }
  split; [|split].
  - intros l. apply (abandoned_acts _ l), abandoned_login, Hmid.
  - subst mid. clear - Hd.
    destruct w as [dis bc ctx obs st atp ap AP err ps fs rc rq br wn ap0].
    fields_in_all. subst dis. intros ->.
    unfold login, token_started, silent_started, new_promise. fields. cbn [fst]. fields.
    rewrite length_app. cbn [length]. rewrite (Nat.add_comm _ 3). reflexivity.
  - subst mid. clear - Hd Hc.
    destruct w as [dis bc ctx obs st atp ap AP err ps fs rc rq br wn ap0].
    fields_in_all. subst dis ctx. intros Hacc.
    unfold login, token_started, silent_started, new_promise, isAuthenticated. fields.
    destruct AP; [reflexivity|].
    replace (has_account _) with true by (symmetry; exact Hacc).
    unfold settle. fields. rewrite lookup_len. reflexivity.
Qed.
(** *** The reactions refer to promises that were made *)

Lemma made_on_refl w : made w -> made_on w w.
Proof. intros Hm. split; [exact Hm | lia]. Qed.

Lemma made_on_trans w w1 w2 : made_on w w1 -> made_on w1 w2 -> made_on w w2.
Proof. intros [_ H1] [Hm H2]. split; [exact Hm | lia]. Qed.

Lemma made_same w w' :
  promises w' = promises w -> flows w' = flows w ->
  redirectCallback w' = redirectCallback w ->
  acquireTokenPromise w' = acquireTokenPromise w -> made w -> made_on w w'.
Proof.
  unfold made_on, made. intros -> -> -> -> Hm. split; [exact Hm | lia].
Qed.

Lemma made_setState (changes : session) w : made w -> made_on w (fst (setState changes w)).
Proof.
  destruct (setState_keeps_reactions changes w) as (E1 & E2 & E3 & E4).
  apply made_same; assumption.
Qed.

Lemma made_settle (p : nat) (s : pstate) w : made w -> made_on w (settle p s w).
Proof.
  intros Hm. unfold settle.
  destruct (promises w !! p) as [[| |]|]; try (apply made_on_refl, Hm).
  destruct Hm as (Hf & Hr & Hq). unfold made_on, made.
  cbn [promises flows redirectCallback acquireTokenPromise set_promises].
  rewrite length_insert. split; [split; [exact Hf | split; [exact Hr | exact Hq]] | lia].
Qed.

Lemma made_new_promise (s : pstate) w : made w -> made_on w (snd (new_promise s w)).
Proof.
  intros (Hf & Hr & Hq). unfold new_promise, made_on, made.
  cbn [snd promises flows redirectCallback acquireTokenPromise set_promises].
  rewrite length_app. cbn [length]. split; [split; [|split] | lia].
  - intros f Hin. destruct (Hf f Hin). lia.
  - intros p Hp. apply Hr in Hp. lia.
  - intros q Hp. apply Hq in Hp. lia.
Qed.

Lemma made_ask (r : request) w : made w -> made_on w (ask r w).
Proof. apply made_same; reflexivity. Qed.

Lemma made_add_flow (f : flow) w :
  (waited f < length (promises w))%nat -> (target f < length (promises w))%nat ->
  made w -> made_on w (set_flows (flows w ++ [f]) w).
Proof.
  intros Hw Ht (Hf & Hr & Hq). unfold made_on, made.
  cbn [promises flows redirectCallback acquireTokenPromise set_flows].
  split; [split; [|split; [exact Hr | exact Hq]] | lia].
  intros f' Hin. apply in_app_or in Hin as [Hin | [<- | []]]; [apply Hf, Hin | split; assumption].
Qed.

Lemma made_resolve (p : nat) w : made w -> made_on w (fst (resolve_signed_in p w)).
Proof.
  intros Hm. unfold resolve_signed_in.
  pose proof (made_setState signed_in w Hm) as Hs.
  destruct (setState signed_in w) as [w' [s|e]]; cbn [fst] in *; [|exact Hs].
  eapply made_on_trans; [exact Hs | apply made_settle, Hs].
Qed.

Lemma made_reject (p : nat) (error : sval) w : made w -> made_on w (reject_failed p error w).
Proof.
  intros Hm. unfold reject_failed.
  pose proof (made_setState (failed error) w Hm) as Hs.
  destruct (setState (failed error) w) as [w' [s|e]]; cbn [fst] in *; [|exact Hs].
  eapply made_on_trans; [exact Hs | apply made_settle, Hs].
Qed.

Lemma made_interactive (p : nat) (t : LOGIN_TYPE) (sc : list string)
    (hint : option string) (force : bool) w :
  (p < length (promises w))%nat -> made w -> made_on w (interactive p t sc hint force w).
Proof.
  intros Hp Hm.
  assert (H1 : made_on w (set_redirectCallback (Some p) w)).
  { destruct Hm as (Hf & Hr & Hq). unfold made_on, made.
    cbn [promises flows redirectCallback acquireTokenPromise set_redirectCallback].
    split; [split; [exact Hf | split; [|exact Hq]] | lia]. intros p' [= <-]. exact Hp. }
  unfold interactive. destruct t.
  - eapply made_on_trans; [exact H1 | apply made_ask, H1].
  - pose proof (made_ask (LoginPopup sc hint force) _ (proj1 H1)) as H2.
    pose proof (made_new_promise PPending _ (proj1 H2)) as H3.
    unfold new_promise in *. cbn [snd] in H3.
    eapply made_on_trans; [exact H1|]. eapply made_on_trans; [exact H2|].
    eapply made_on_trans; [exact H3|].
    apply made_add_flow; [| | exact (proj1 H3)];
      cbn [waited target promises set_promises]; rewrite length_app; cbn [length].
    + lia.
    + destruct H1 as [_ H1], H2 as [_ H2]. lia.
Qed.
Lemma made_login (o : login_options) w : made w -> made_on w (fst (login o w)).
Proof.
  intros Hm. unfold login. destruct (disabled w); [apply made_on_refl, Hm|].
  destruct (AuthenticatingPromise w); [apply made_on_refl, Hm|].
  pose proof (made_new_promise PPending w Hm) as H0.
  unfold new_promise in *. cbn [snd] in H0.
  set (w0 := set_promises (promises w ++ [PPending]) w) in *.
  assert (Hp : (length (promises w) < length (promises w0))%nat).
  { subst w0. cbn [promises set_promises]. rewrite length_app. cbn [length]. lia. }
  cbn [fst]. eapply made_on_trans; [exact H0|].
  match goal with
  | |- made_on w0 (set_AuthenticatingPromise _ ?X) =>
      assert (H1 : made_on w0 X);
        [|eapply made_on_trans; [exact H1 | apply made_same; [reflexivity .. | exact (proj1 H1)]]]
  end.
  destruct (isAuthenticated w0) as [[|]|e]; try (apply made_settle, H0).
  pose proof (made_setState {[ "authenticating" := SBool true ]} w0 (proj1 H0)) as Hs.
  destruct (setState {[ "authenticating" := SBool true ]} w0) as [w' [s|e]];
    cbn [fst] in Hs; [|eapply made_on_trans; [exact Hs | apply made_settle, Hs]].
  pose proof (made_ask (AcquireTokenSilent (scopes o) None None) _ (proj1 Hs)) as H2.
  pose proof (made_new_promise PPending _ (proj1 H2)) as H3.
  unfold new_promise in H3. cbn [snd] in H3. cbv zeta beta iota.
  eapply made_on_trans; [exact Hs|]. eapply made_on_trans; [exact H2|].
  eapply made_on_trans; [exact H3|].
  apply made_add_flow; [| | exact (proj1 H3)];
    cbn [waited target promises set_promises]; rewrite length_app; cbn [length].
  - lia.
  - destruct Hs as [_ Hs], H2 as [_ H2]. lia.
Qed.

Lemma made_react (outcome : pstate) (f : flow) w :
  (target f < length (promises w))%nat -> made w -> made_on w (react outcome f w).
Proof.
  intros Ht Hm. destruct f as [q p' t sc hint force | q p' | q q' | r p'];
    cbn [target] in Ht; destruct outcome as [|v|v]; cbn [react];
    try (apply made_on_refl, Hm).
  - pose proof (made_resolve p' w Hm) as Hr.
    destruct (resolve_signed_in p' w) as [w' [e|]]; cbn [fst] in Hr; [|exact Hr].
    eapply made_on_trans; [exact Hr|].
    apply made_interactive; [destruct Hr; lia | exact (proj1 Hr)].
  - apply made_interactive; assumption.
  - pose proof (made_resolve p' w Hm) as Hr.
    destruct (resolve_signed_in p' w) as [w' [e|]]; cbn [fst] in Hr; [|exact Hr].
    eapply made_on_trans; [exact Hr | apply made_reject, Hr].
  - apply made_reject, Hm.
  - destruct (context w); [|apply made_settle, Hm].
    pose proof (made_same w (set_context (Some (setAcquireTokenInProgress false u)) w)
                  eq_refl eq_refl eq_refl eq_refl Hm) as H1.
    eapply made_on_trans; [exact H1 | apply made_settle, H1].
  - destruct (context w); [|apply made_settle, Hm].
    pose proof (made_same w (set_context (Some (setAcquireTokenInProgress false u)) w)
                  eq_refl eq_refl eq_refl eq_refl Hm) as H1.
    eapply made_on_trans; [exact H1 | apply made_settle, H1].
  - apply made_settle, Hm.
  - apply made_login, Hm.
Qed.

Lemma made_reactions (outcome : pstate) (fs : list flow) w :
  (forall f, In f fs -> (target f < length (promises w))%nat) -> made w ->
  made_on w (fold_left (fun w f => react outcome f w) fs w).
Proof.
  revert w. induction fs as [|f fs IH]; intros w Hfs Hm; [apply made_on_refl, Hm|].
  cbn [fold_left].
  pose proof (made_react outcome f w (Hfs f (or_introl eq_refl)) Hm) as H1.
  eapply made_on_trans; [exact H1|]. apply IH; [|exact (proj1 H1)].
  intros f' Hin. pose proof (Hfs f' (or_intror Hin)). destruct H1. lia.
Qed.

Lemma made_deliver (q : nat) w : made w -> made_on w (deliver q w).
Proof.
  intros Hm. unfold deliver.
  assert (Hgo : forall outcome,
    made_on w (fold_left (fun w f => react outcome f w) (List.filter (waits_on q) (flows w))
                 (set_flows (List.filter (fun f => negb (waits_on q f)) (flows w)) w))).
  { intros outcome.
    assert (H1 : made_on w (set_flows (List.filter (fun f => negb (waits_on q f)) (flows w)) w)).
    { destruct Hm as (Hf & Hr & Hq). unfold made_on, made.
      cbn [promises flows redirectCallback acquireTokenPromise set_flows].
      split; [split; [|split; [exact Hr | exact Hq]] | lia].
      intros f Hin. apply List.filter_In in Hin as [Hin _]. apply Hf, Hin. }
    eapply made_on_trans; [exact H1|]. apply made_reactions; [|exact (proj1 H1)].
    intros f Hin. apply List.filter_In in Hin as [Hin _].
    cbn [promises set_flows]. apply (proj1 Hm), Hin. }
  destruct (promises w !! q) as [[|v|v]|]; try (apply made_on_refl, Hm); apply Hgo.
Qed.

Lemma made_delivers (qs : list nat) w :
  made w -> made_on w (fold_left (fun w q' => deliver q' w) qs w).
Proof.
  revert w. induction qs as [|q qs IH]; intros w Hm; [apply made_on_refl, Hm|].
  cbn [fold_left]. pose proof (made_deliver q w Hm) as H1.
  eapply made_on_trans; [exact H1 | apply IH, H1].
Qed.

Lemma made_step (e : event) w : made w -> made_on w (step e w).
Proof.
  intros Hm. destruct e as [q outcome | error response | c]; cbn [step].
  - assert (Hgo : made_on w (fold_left (fun w q' => deliver q' w) (finally_of q (flows w))
                               (deliver q (settle q outcome w)))).
    { pose proof (made_settle q outcome w Hm) as H1.
      pose proof (made_deliver q _ (proj1 H1)) as H2.
      eapply made_on_trans; [exact H1|]. eapply made_on_trans; [exact H2|].
      apply made_delivers, H2. }
    destruct outcome as [|v|v]; [apply made_on_refl, Hm | |];
      (destruct (existsb (asked_of_library q) (flows w)); [exact Hgo | apply made_on_refl, Hm]).
  - destruct (redirectCallback w) as [p|]; [|apply made_on_refl, Hm].
    destruct response; [apply made_resolve | apply made_reject]; exact Hm.
  - destruct (context w); [|apply made_on_refl, Hm]. apply made_same; [reflexivity .. | exact Hm].
Qed.

Lemma made_acquireTokenSilent (sc : list string) (hint : option string)
    (force : option bool) w :
  made w -> made_on w (fst (acquireTokenSilent sc hint force w)).
Proof.
  intros Hm. unfold acquireTokenSilent. destruct (disabled w); [apply made_on_refl, Hm|].
  assert (Hstart : made_on w (fst (
    match context w with
    | None => (w, Throw (null_deref "setAcquireTokenInProgress"))
    | Some c =>
        let w1 := set_context (Some (setAcquireTokenInProgress true c)) w in
        match baseConfig w1 with
        | None => (w1, Throw (null_deref "auth"))
        | Some cfg =>
            let c2 := set_redirectUri (tokenRefreshUri cfg) (setAcquireTokenInProgress true c) in
            let w2 := set_context (Some c2) w1 in
            let hint0 := match hint with
                         | Some h => Some h
                         | None => userName <$> account c2
                         end in
            let w3 := ask (AcquireTokenSilent sc hint0 force) w2 in
            let '(q, w4) := new_promise PPending w3 in
            let w5 := set_acquireTokenPromise (Some q) w4 in
            let '(q', w6) := new_promise PPending w5 in
            (set_flows (flows w6 ++ [Finally q q']) w6, Normal (Some q'))
        end
    end : world * completion (option nat)))).
  { destruct (context w) as [c|]; [|apply made_on_refl, Hm]. cbv zeta.
    destruct (baseConfig _) as [cfg|].
    - clear - Hm. destruct w as [dis bc ctx obs st atp ap AP err ps fs rc rq br wn ap0].
      unfold made_on, made in *. unfold new_promise, ask. fields_in_all. cbn [fst].
      fields. destruct Hm as (Hf & Hr & Hq). rewrite !length_app. cbn [length].
      split; [split; [|split] | lia].
      + intros f Hin. apply in_app_or in Hin as [Hin | [<- | []]].
        * destruct (Hf f Hin). lia.
        * cbn [target waited]. lia.
      + intros p Hp. apply Hr in Hp. lia.
      + intros q [= <-]. lia.
    - cbn [fst]. apply made_same; [reflexivity .. | exact Hm]. }
  destruct (acquireTokenPromise w) as [q|]; [|exact Hstart].
  destruct (context w) as [c|]; [|apply made_on_refl, Hm].
  destruct (acquireTokenInProgress c); [apply made_on_refl, Hm | exact Hstart].
Qed.
Lemma acquireTokenSilent_returns_made (sc : list string) (hint : option string)
    (force : option bool) w (r : nat) :
  made w -> snd (acquireTokenSilent sc hint force w) = Normal (Some r) ->
  (r < length (promises (fst (acquireTokenSilent sc hint force w))))%nat.
Proof.
  intros Hm. unfold acquireTokenSilent. destruct (disabled w); [discriminate|].
  assert (Hstart : snd (
    match context w with
    | None => (w, Throw (null_deref "setAcquireTokenInProgress"))
    | Some c =>
        let w1 := set_context (Some (setAcquireTokenInProgress true c)) w in
        match baseConfig w1 with
        | None => (w1, Throw (null_deref "auth"))
        | Some cfg =>
            let c2 := set_redirectUri (tokenRefreshUri cfg) (setAcquireTokenInProgress true c) in
            let w2 := set_context (Some c2) w1 in
            let hint0 := match hint with
                         | Some h => Some h
                         | None => userName <$> account c2
                         end in
            let w3 := ask (AcquireTokenSilent sc hint0 force) w2 in
            let '(q, w4) := new_promise PPending w3 in
            let w5 := set_acquireTokenPromise (Some q) w4 in
            let '(q', w6) := new_promise PPending w5 in
            (set_flows (flows w6 ++ [Finally q q']) w6, Normal (Some q'))
        end
    end : world * completion (option nat)) = Normal (Some r) ->
    (r < length (promises (fst (
    match context w with
    | None => (w, Throw (null_deref "setAcquireTokenInProgress"))
    | Some c =>
        let w1 := set_context (Some (setAcquireTokenInProgress true c)) w in
        match baseConfig w1 with
        | None => (w1, Throw (null_deref "auth"))
        | Some cfg =>
            let c2 := set_redirectUri (tokenRefreshUri cfg) (setAcquireTokenInProgress true c) in
            let w2 := set_context (Some c2) w1 in
            let hint0 := match hint with
                         | Some h => Some h
                         | None => userName <$> account c2
                         end in
            let w3 := ask (AcquireTokenSilent sc hint0 force) w2 in
            let '(q, w4) := new_promise PPending w3 in
            let w5 := set_acquireTokenPromise (Some q) w4 in
            let '(q', w6) := new_promise PPending w5 in
            (set_flows (flows w6 ++ [Finally q q']) w6, Normal (Some q'))
        end
    end : world * completion (option nat)))))%nat).
  { destruct (context w) as [c|]; [|discriminate]. cbv zeta.
    destruct (baseConfig _) as [cfg|]; [|discriminate].
    clear. destruct w as [dis bc ctx obs st atp ap AP err ps fs rc rq br wn ap0].
    unfold new_promise, ask. fields. cbn [fst snd]. fields.
    intros [= <-]. rewrite !length_app. cbn [length]. lia. }
  destruct (acquireTokenPromise w) as [q|] eqn:Hq; [|exact Hstart].
  destruct (context w) as [c|]; [|discriminate].
  destruct (acquireTokenInProgress c); [|exact Hstart].
  cbn [fst snd]. intros [= <-]. apply Hm, Hq.
Qed.

Lemma made_acquireToken (sc : list string) (force : bool) w :
  made w -> made_on w (fst (acquireToken sc force w)).
Proof.
  intros Hm. unfold acquireToken.
  assert (Hsilent : forall w0, made w0 ->
    made_on w0 (fst (
      match acquireTokenSilent sc None (Some true) w0 with
      | (w', Throw e) => (w', inl (Throw e))
      | (w', Normal None) => (w', inl (Throw (null_deref "then")))
      | (w', Normal (Some r)) => (w', inr r)
      end : world * (completion AuthResponse + nat))) /\
    forall r, snd (
      match acquireTokenSilent sc None (Some true) w0 with
      | (w', Throw e) => (w', inl (Throw e))
      | (w', Normal None) => (w', inl (Throw (null_deref "then")))
      | (w', Normal (Some r)) => (w', inr r)
      end : world * (completion AuthResponse + nat)) = inr r ->
      (r < length (promises (fst (acquireTokenSilent sc None (Some true) w0))))%nat).
  { intros w0 Hm0. pose proof (made_acquireTokenSilent sc None (Some true) w0 Hm0) as Hs.
    pose proof (acquireTokenSilent_returns_made sc None (Some true) w0) as Hr.
    destruct (acquireTokenSilent sc None (Some true) w0) as [w' [[r|]|e]];
      cbn [fst snd] in *; (split; [exact Hs|]); intros r0 E; try discriminate E.
    injection E as E. subst r0. apply Hr; [exact Hm0 | reflexivity]. }
  cbv zeta beta.
  match goal with
  | |- made_on w (fst (let '(w1, res) := ?X in _)) =>
      assert (H1 : made_on w (fst X) /\
                   forall r, snd X = inr r -> (r < length (promises (fst X)))%nat);
        [|destruct X as [w1 res]; cbn [fst snd] in H1; destruct H1 as [H1 Hr]]
  end.
  { assert (Hs' : forall X : world * (completion AuthResponse + nat),
        X = (match acquireTokenSilent sc None (Some true) w with
             | (w', Throw e) => (w', inl (Throw e))
             | (w', Normal None) => (w', inl (Throw (null_deref "then")))
             | (w', Normal (Some r)) => (w', inr r)
             end) ->
        made_on w (fst X) /\ forall r, snd X = inr r -> (r < length (promises (fst X)))%nat).
    { intros X ->. destruct (Hsilent w Hm) as [Ha Hb]. split; [exact Ha|].
      intros r E. specialize (Hb r E).
      destruct (acquireTokenSilent sc None (Some true) w) as [w' [[r'|]|e]]; exact Hb. }
    destruct force; cbn [negb]; [apply Hs'; reflexivity|].
    unfold acquireTokenInCache. destruct (disabled w).
    - apply Hs'; reflexivity.
    - destruct (match context w with
                | Some c => cachedToken c DEFAULT_SCOPES
                | None => Throw (null_deref "getCachedTokenInternal")
                end) as [[r|]|e].
      + destruct (usable (Some r)); [|apply Hs'; reflexivity].
        cbn [fst snd]. split; [apply made_on_refl, Hm | discriminate].
      + apply Hs'; reflexivity.
      + destruct (errorCode e) as [code|];
          [destruct (String.eqb code "cannot_parse_cache")|]; cbn [fst snd];
          (split; [|discriminate]); try (apply made_on_refl, Hm).
        apply made_same; [reflexivity .. | exact Hm]. }
  eapply made_on_trans; [exact H1|]. destruct res as [[r|e]|r].
  - unfold new_promise. cbn [fst]. exact (made_new_promise _ w1 (proj1 H1)).
  - unfold new_promise. cbn [fst].
    pose proof (made_same w1 (set_Error (Some e) w1) eq_refl eq_refl eq_refl eq_refl (proj1 H1))
      as H2.
    eapply made_on_trans; [exact H2|]. exact (made_new_promise _ _ (proj1 H2)).
  - unfold new_promise. cbn [fst].
    pose proof (made_new_promise PPending w1 (proj1 H1)) as H2.
    unfold new_promise in H2. cbn [snd] in H2.
    eapply made_on_trans; [exact H2|].
    pose proof (Hr r eq_refl) as Hlt.
    assert (H3 : made_on (set_promises (promises w1 ++ [PPending]) w1)
                   (set_flows (flows (set_promises (promises w1 ++ [PPending]) w1)
                               ++ [TokenWait r (length (promises w1))])
                      (set_promises (promises w1 ++ [PPending]) w1))).
    { apply made_add_flow; [| | exact (proj1 H2)];
        cbn [waited target promises set_promises]; rewrite length_app; cbn [length]; lia. }
    eapply made_on_trans; [exact H3 | apply made_deliver, H3].
Qed.

Lemma made_act (a : action) w : made w -> made_on w (act a w).
Proof.
  intros Hm. destruct a; cbn [act].
  - unfold init.
    assert (H1 : made_on w (if disabled' then set_context None (set_disabled disabled' w)
                            else set_context (Some ctx0)
                                   (set_baseConfig (Some config) (set_disabled disabled' w)))).
    { destruct disabled'; (apply made_same; [reflexivity .. | exact Hm]). }
    eapply made_on_trans; [exact H1 | apply made_setState, H1].
  - apply made_setState, Hm.
  - apply made_login, Hm.
  - unfold acquireTokenInCache. destruct (disabled w); [apply made_on_refl, Hm|].
    destruct (match context w with
              | Some c => cachedToken c scopes'
              | None => Throw (null_deref "getCachedTokenInternal")
              end) as [r|e]; [apply made_on_refl, Hm|].
    destruct (errorCode e) as [code|]; [|apply made_on_refl, Hm].
    destruct (String.eqb code "cannot_parse_cache"); [|apply made_on_refl, Hm].
    cbn [fst]. apply made_same; [reflexivity .. | exact Hm].
  - apply made_acquireTokenSilent, Hm.
  - apply made_acquireToken, Hm.
  - unfold logout. destruct (disabled w); [apply made_on_refl, Hm|].
    destruct (context w); [apply made_ask, Hm | apply made_on_refl, Hm].
  - unfold clearCache. destruct (disabled w); [apply made_on_refl, Hm|].
    destruct (context w); [apply made_ask, Hm | apply made_on_refl, Hm].
  - apply made_step, Hm.
Qed.

Lemma made_acts (l : list action) w : made w -> made_on w (acts l w).
Proof.
  revert w. induction l as [|a l IH]; intros w Hm; [apply made_on_refl, Hm|].
  cbn [acts]. pose proof (made_act a w Hm) as H1.
  eapply made_on_trans; [exact H1 | apply IH, H1].
Qed.

(** Whatever the application does with the service from its creation on,
    and whatever happens around it, the reactions of the service, the
    redirect callback and the handle of the token request refer to
    promises that were made, and promises are only ever added. *)
Lemma made_reachable (l1 l2 : list action) (win0 : window) (app0 : App) :
  made (acts l1 (created win0 app0)) /\
  (length (promises (acts l1 (created win0 app0)))
   <= length (promises (acts l2 (acts l1 (created win0 app0)))))%nat.
Proof.
  assert (H0 : made (created win0 app0)) by (apply made_no_flows; reflexivity).
  pose proof (made_acts l1 _ H0) as H1. split; [exact (proj1 H1)|].
  exact (proj2 (made_acts l2 _ (proj1 H1))).
Qed.
End Tokens.
Lemma acquireTokenSilent_shares_request_witness :
  AuthenticationService.acquireTokenPromise signed_in_world = None /\
  snd (AuthenticationService.acquireTokenSilent ["mail.read"] None None
         (fst (AuthenticationService.acquireTokenSilent AuthenticationService.DEFAULT_SCOPES
                 None None signed_in_world)))
  = Normal (Some 0%nat).
Proof.
  split; [reflexivity|].
  exact (f_equal snd
           (proj2 (proj2 (proj2 (proj2
              (acquireTokenSilent_shares_request AuthenticationService.DEFAULT_SCOPES None None
                 signed_in_world signed_in_context example_config
                 eq_refl eq_refl eq_refl (or_introl eq_refl)))))
              ["mail.read"] None None)).
Defined.

Lemma signed_in_world_made : made signed_in_world.
Proof. apply made_no_flows; vm_compute; reflexivity. Qed.

Lemma acquireTokenSilent_settles_witness :
  AuthenticationService.redirectUri signed_in_context = "/" /\
  AuthenticationService.redirectUri <$>
    AuthenticationService.context
      (AuthenticationService.step
         (AuthenticationService.Settled 0
            (AuthenticationService.PRejected AuthenticationService.PUndefined))
         (fst (AuthenticationService.acquireTokenSilent AuthenticationService.DEFAULT_SCOPES
                 None None signed_in_world)))
  = Some "/auth".
Proof.
  split; [reflexivity|].
  exact (proj1 (proj2 (proj2
           (acquireTokenSilent_settles AuthenticationService.DEFAULT_SCOPES None None
              signed_in_world signed_in_context example_config
              (AuthenticationService.PRejected AuthenticationService.PUndefined)
              eq_refl eq_refl eq_refl (or_introl eq_refl) signed_in_world_made
              ltac:(discriminate))))).
Defined.

Lemma acquireToken_serves_cached_response_witness :
  AuthenticationService.cachedToken cached_context ["mail.read"] = Normal None /\
  AuthenticationService.promises
    (fst (AuthenticationService.acquireToken ["mail.read"] false cached_world))
  !! snd (AuthenticationService.acquireToken ["mail.read"] false cached_world)
  = Some (AuthenticationService.PFulfilled
            (AuthenticationService.PResponse
               {| AuthenticationService.accessToken := VStr "access";
                  AuthenticationService.idToken := VStr "id" |})).
Proof.
  split; [reflexivity|].
  exact (proj1 (acquireToken_serves_cached_response ["mail.read"] cached_world cached_context
                  _ eq_refl eq_refl eq_refl eq_refl eq_refl)).
Defined.

Lemma acquireToken_fulfils_with_cache_error_witness :
  localStorage (AuthenticationService.win signed_in_world) !! "other" = Some "1" /\
  localStorage
    (AuthenticationService.win
       (fst (AuthenticationService.acquireToken AuthenticationService.DEFAULT_SCOPES false
               signed_in_world))) = ∅.
Proof.
  split; [reflexivity|].
  exact (proj2 (proj2 (proj2
           (acquireToken_fulfils_with_cache_error AuthenticationService.DEFAULT_SCOPES
              signed_in_world signed_in_context _ eq_refl eq_refl eq_refl))) eq_refl).
Defined.


Lemma acquireToken_hangs_after_silent_failure_witness :
  AuthenticationService.promises
    (acts [Happens (AuthenticationService.RedirectReturned AuthenticationService.SUndefined true);
           DoLogin AuthenticationService.login_defaults]
       (AuthenticationService.step
          (AuthenticationService.Settled 0
             (AuthenticationService.PRejected AuthenticationService.PUndefined))
          (fst (AuthenticationService.acquireToken ["mail.read"] true signed_in_world))))
  !! 2%nat
  = Some AuthenticationService.PPending.
Proof.
  exact (proj1
           (acquireToken_hangs_after_silent_failure ["mail.read"] true signed_in_world
              signed_in_context example_config AuthenticationService.PUndefined
              eq_refl eq_refl eq_refl (or_introl eq_refl) (or_introl eq_refl)
              signed_in_world_made)
           [Happens (AuthenticationService.RedirectReturned AuthenticationService.SUndefined true);
            DoLogin AuthenticationService.login_defaults]).
Defined.

(** ** services/aad.service.js: signing in and out *)

Section Flows.
Import AuthenticationService.
Context {App : Type}.
Implicit Types (w : @world App).

Ltac fields :=
  cbv [disabled baseConfig context observer state acquireTokenPromise authenticatingPromise
       AuthenticatingPromise Error promises flows redirectCallback requests broadcasts win app
       set_disabled set_baseConfig set_context set_observer set_state
       set_acquireTokenPromise set_AuthenticatingPromise set_Error set_promises set_flows
       set_redirectCallback set_requests set_broadcasts set_win set_app].

Ltac fields_in_all :=
  cbv [disabled baseConfig context observer state acquireTokenPromise authenticatingPromise
       AuthenticatingPromise Error promises flows redirectCallback requests broadcasts win app
       set_disabled set_baseConfig set_context set_observer set_state
       set_acquireTokenPromise set_AuthenticatingPromise set_Error set_promises set_flows
       set_redirectCallback set_requests set_broadcasts set_win set_app] in *.

(** With listeners that do not raise, [setState] returns the state it
    stored. *)
Lemma setState_quiet (changes : session) w :
  quiet w ->
  exists (st' : session) (br' : list session) (app' : App),
    setState changes w = (set_app app' (set_broadcasts br' (set_state st' w)), Normal st') /\
    (forall k v, changes !! k = Some v -> get st' k = v) /\
    (forall k, changes !! k = None -> get st' k = get (state w) k).
Proof.
  intros Hq. pose proof (setState_fields changes w) as Hfields.
  rewrite setState_unfold in *. destruct (changed _ _ _).
  - cbv zeta in *. cbn [fst state set_app set_broadcasts set_state] in Hfields.
    assert (Hnone : snd (Observer.trigger (changes ∪ state w) (observer w) (app w)) = None).
    { unfold Observer.trigger. apply call_each_quiet.
      intros id cb a Hin. apply (proj1 (Object_entries_keys _ _)) in Hin.
      exact (Hq id cb _ a Hin). }
    rewrite Hnone. eexists _, _, _. split; [reflexivity | exact Hfields].
  - exists (state w), (broadcasts w), (app w). split; [|exact Hfields].
    destruct w; reflexivity.
Qed.

Lemma get_signed_in (st0 st : session) :
  (forall k v, signed_in !! k = Some v -> get st k = v) ->
  get st "authenticated" = SBool true /\ get st "authenticating" = SBool false.
Proof. intros H. split; apply H; reflexivity. Qed.

Lemma get_failed (error : sval) (st0 st : session) :
  (forall k v, failed error !! k = Some v -> get st k = v) ->
  (forall k, failed error !! k = None -> get st k = get st0 k) ->
  get st "error" = error /\ get st "authenticating" = SBool false /\
  get st "authenticated" = get st0 "authenticated".
Proof.
  intros H H0. split; [|split].
  - apply H. unfold failed. rewrite lookup_insert_ne by discriminate.
    apply lookup_singleton_eq.
  - apply H. unfold failed. apply lookup_insert_eq.
  - apply H0. unfold failed. rewrite lookup_insert_ne by discriminate.
    apply lookup_singleton_ne. discriminate.
Qed.

(** Further property X21: [login()] with no account and no login made before, up to the
    redirect: the state says [authenticating], which [isAuthenticating()]
    reports; the library is asked for a token silently, under the scopes
    given and with no hint; when that is rejected it is asked to redirect,
    with the hint and the refresh option of the call, and the promise of
    [login] is still pending. When the redirect comes back with a
    response the promise is fulfilled with the stored state, which says
    [authenticated] and no more [authenticating]; when it comes back
    without one the promise is rejected with the stored state, which
    holds the error given and leaves [authenticated] as it was. *)
Theorem login_by_redirect_round_trip (o : login_options) w (c : UserAgentApplication)
    (v : pvalue) :
  disabled w = false -> context w = Some c -> account c = None ->
  AuthenticatingPromise w = None -> type o = REDIRECT -> quiet w -> made w ->
  let p := length (promises w) in
  let w1 := fst (login o w) in
  let w2 := step (Settled (S p) (PRejected v)) w1 in
  snd (login o w) = Some p /\
  isAuthenticating w1 = Normal (SBool true) /\
  requests w2
  = requests w ++ [AcquireTokenSilent (scopes o) None None;
                   LoginRedirect (scopes o) (loginHint o) (forceTokenRefresh o)] /\
  promises w2 !! p = Some PPending /\
  (forall error,
     let w3 := step (RedirectReturned error true) w2 in
     promises w3 !! p = Some (PFulfilled (PState (state w3))) /\
     get (state w3) "authenticated" = SBool true /\
     get (state w3) "authenticating" = SBool false) /\
  (forall error,
     let w3 := step (RedirectReturned error false) w2 in
     promises w3 !! p = Some (PRejected (PState (state w3))) /\
     get (state w3) "error" = error /\
     get (state w3) "authenticating" = SBool false /\
     get (state w3) "authenticated" = get (state w) "authenticated").
Proof.
  intros Hd Hc Hacc HA Ht Hq Hm p w1 w2. subst p w1 w2.
  destruct (made_no_wait w (S (length (promises w))) Hm (Nat.le_succ_diag_r _))
    as (G1 & G2 & G3 & G4).
  destruct o as [t sc hint force]. cbn [type scopes loginHint forceTokenRefresh] in *. subst t.
  destruct w as [dis bc ctx obs st atp ap AP err ps fs rc rq br wn ap0].
  unfold quiet in Hq. fields_in_all. subst dis ctx AP. clear Hm.
  unfold login, new_promise, isAuthenticated, has_account. fields. rewrite Hacc.
  match goal with
  | |- context [setState ?ch ?W] =>
      destruct (setState_quiet ch W Hq) as (st1 & br1 & app1 & E1 & Hin1 & Hout1)
  end.
  rewrite E1. unfold ask, new_promise. fields. cbn [fst snd].
  cbn [type scopes loginHint forceTokenRefresh]. fields.
  rewrite !length_app. cbn [length]. rewrite Nat.add_1_r.
  rewrite <- !List.app_assoc. cbn [List.app].
  split; [reflexivity|]. split.
  { unfold isAuthenticating. fields.
    rewrite (Hin1 "authenticating" (SBool true) (lookup_singleton_eq _ _)). reflexivity. }
  match goal with |- context [step _ ?W] => set (W1 := W) end.
  assert (E2 : step (Settled (S (length ps)) (PRejected v)) W1
    = set_requests (rq ++ [AcquireTokenSilent sc None None; LoginRedirect sc hint force])
        (set_redirectCallback (Some (length ps))
           (set_flows fs (set_promises (ps ++ [PPending; PRejected v]) W1)))).
  { subst W1. unfold step. fields.
    rewrite existsb_app. cbn [existsb asked_of_library]. rewrite Nat.eqb_refl, Bool.orb_true_r.
    unfold finally_of. rewrite flat_map_app. fold (finally_of (S (length ps)) fs).
    rewrite G3. cbn [flat_map List.app fold_left].
    rewrite settle_pending by (fields; apply lookup_len_S). fields. rewrite insert_len_S.
    rewrite (deliver_settled (S (length ps)) (PRejected v))
      by (fields; first [apply lookup_len_S | discriminate]).
    fields. rewrite !List.filter_app, G1, G2. cbn [List.filter waits_on].
    rewrite Nat.eqb_refl. cbn [negb List.app fold_left react].
    unfold interactive, ask. fields. rewrite List.app_nil_r, <- List.app_assoc. reflexivity. }
  rewrite E2. subst W1. fields.
  split; [reflexivity|]. split; [apply lookup_len|]. clear E2.
  split; intros error; unfold step; fields.
  - unfold resolve_signed_in.
    match goal with
    | |- context [setState ?ch ?W] =>
        destruct (setState_quiet ch W Hq) as (st3 & br3 & app3 & E3 & Hin3 & Hout3)
    end.
    rewrite E3. cbn [fst].
    rewrite settle_pending by (fields; apply lookup_len). fields. rewrite insert_len.
    split; [apply lookup_len|]. exact (get_signed_in st1 st3 Hin3).
  - unfold reject_failed.
    match goal with
    | |- context [setState ?ch ?W] =>
        destruct (setState_quiet ch W Hq) as (st3 & br3 & app3 & E3 & Hin3 & Hout3)
    end.
    rewrite E3.
    rewrite settle_pending by (fields; apply lookup_len). fields. rewrite insert_len.
    split; [apply lookup_len|].
    destruct (get_failed error st1 st3 Hin3 Hout3) as (F1 & F2 & F3).
    split; [exact F1|]. split; [exact F2|]. rewrite F3. apply Hout1.
    apply lookup_singleton_ne. discriminate.
Qed.

(** Further property X22: [login()] with no account, when the silent request is fulfilled: the
    promise of [login] is fulfilled with the stored state, which says
    [authenticated] and no more [authenticating], and the library is
    asked for nothing else, whatever the login type. *)
Theorem login_silently (o : login_options) w (c : UserAgentApplication) (v : pvalue) :
  disabled w = false -> context w = Some c -> account c = None ->
  AuthenticatingPromise w = None -> quiet w -> made w ->
  let p := length (promises w) in
  let w2 := step (Settled (S p) (PFulfilled v)) (fst (login o w)) in
  promises w2 !! p = Some (PFulfilled (PState (state w2))) /\
  get (state w2) "authenticated" = SBool true /\
  get (state w2) "authenticating" = SBool false /\
  requests w2 = requests w ++ [AcquireTokenSilent (scopes o) None None] /\
  redirectCallback w2 = redirectCallback w.
Proof.
  intros Hd Hc Hacc HA Hq Hm p w2. subst p w2.
  destruct (made_no_wait w (S (length (promises w))) Hm (Nat.le_succ_diag_r _))
    as (G1 & G2 & G3 & G4).
  destruct o as [t sc hint force]. cbn [type scopes loginHint forceTokenRefresh] in *.
  destruct w as [dis bc ctx obs st atp ap AP err ps fs rc rq br wn ap0].
  unfold quiet in Hq. fields_in_all. subst dis ctx AP. clear Hm.
  unfold login, new_promise, isAuthenticated, has_account. fields. rewrite Hacc.
  match goal with
  | |- context [setState ?ch ?W] =>
      destruct (setState_quiet ch W Hq) as (st1 & br1 & app1 & E1 & Hin1 & Hout1)
  end.
  rewrite E1. unfold ask, new_promise. fields. cbn [fst snd].
  cbn [type scopes loginHint forceTokenRefresh]. fields.
  rewrite !length_app. cbn [length]. rewrite Nat.add_1_r.
  rewrite <- !List.app_assoc. cbn [List.app].
  unfold step. fields.
  rewrite existsb_app. cbn [existsb asked_of_library]. rewrite Nat.eqb_refl, Bool.orb_true_r.
  unfold finally_of. rewrite flat_map_app. fold (finally_of (S (length ps)) fs).
  rewrite G3. cbn [flat_map List.app fold_left].
  rewrite settle_pending by (fields; apply lookup_len_S). fields. rewrite insert_len_S.
  rewrite (deliver_settled (S (length ps)) (PFulfilled v))
    by (fields; first [apply lookup_len_S | discriminate]).
  fields. rewrite !List.filter_app, G1, G2. cbn [List.filter waits_on].
  rewrite Nat.eqb_refl. cbn [negb List.app fold_left react].
  unfold resolve_signed_in.
  match goal with
  | |- context [setState ?ch ?W] =>
      destruct (setState_quiet ch W Hq) as (st3 & br3 & app3 & E3 & Hin3 & Hout3)
  end.
  rewrite E3. rewrite settle_pending by (fields; apply lookup_len). fields. rewrite insert_len.
  split; [apply lookup_len|].
  destruct (get_signed_in st1 st3 Hin3) as [S1 S2].
  split; [exact S1|]. split; [exact S2|]. split; reflexivity.
Qed.

(** Further property X23: [login({ type: 'loginPopup' })] with no account, after the silent
    request was rejected: the library is asked to open the popup, with
    the hint and the refresh option of the call. When the popup is
    fulfilled, the promise of [login] is fulfilled with the stored state,
    which says [authenticated]; when it is rejected with an exception,
    the promise is rejected with the stored state, which holds that
    exception as [error]. *)
Theorem login_by_popup (o : login_options) w (c : UserAgentApplication) (v : pvalue) :
  disabled w = false -> context w = Some c -> account c = None ->
  AuthenticatingPromise w = None -> type o = POPUP -> quiet w -> made w ->
  let p := length (promises w) in
  let w2 := step (Settled (S p) (PRejected v)) (fst (login o w)) in
  requests w2
  = requests w ++ [AcquireTokenSilent (scopes o) None None;
                   LoginPopup (scopes o) (loginHint o) (forceTokenRefresh o)] /\
  promises w2 !! p = Some PPending /\
  (forall v',
     let w3 := step (Settled (S (S p)) (PFulfilled v')) w2 in
     promises w3 !! p = Some (PFulfilled (PState (state w3))) /\
     get (state w3) "authenticated" = SBool true /\
     get (state w3) "authenticating" = SBool false) /\
  (forall e,
     let w3 := step (Settled (S (S p)) (PRejected (PExn e))) w2 in
     promises w3 !! p = Some (PRejected (PState (state w3))) /\
     get (state w3) "error" = SErr e /\
     get (state w3) "authenticating" = SBool false).
Proof.
  intros Hd Hc Hacc HA Ht Hq Hm p w2. subst p w2.
  destruct (made_no_wait w (S (length (promises w))) Hm (Nat.le_succ_diag_r _))
    as (G1 & G2 & G3 & G4).
  assert (Hle : (length (promises w) <= S (S (length (promises w))))%nat) by lia.
  destruct (made_no_wait w (S (S (length (promises w)))) Hm Hle) as (K1 & K2 & K3 & K4).
  clear Hle.
  destruct o as [t sc hint force]. cbn [type scopes loginHint forceTokenRefresh] in *. subst t.
  destruct w as [dis bc ctx obs st atp ap AP err ps fs rc rq br wn ap0].
  unfold quiet in Hq. fields_in_all. subst dis ctx AP. clear Hm.
  unfold login, new_promise, isAuthenticated, has_account. fields. rewrite Hacc.
  match goal with
  | |- context [setState ?ch ?W] =>
      destruct (setState_quiet ch W Hq) as (st1 & br1 & app1 & E1 & Hin1 & Hout1)
  end.
  rewrite E1. unfold ask, new_promise. fields. cbn [fst snd].
  cbn [type scopes loginHint forceTokenRefresh]. fields.
  rewrite !length_app. cbn [length]. rewrite Nat.add_1_r.
  rewrite <- !List.app_assoc. cbn [List.app].
  match goal with |- context [step _ ?W] => set (W1 := W) end.
  assert (E2 : step (Settled (S (length ps)) (PRejected v)) W1
    = set_flows (fs ++ [LoginPopupWait (S (S (length ps))) (length ps)])
        (set_requests (rq ++ [AcquireTokenSilent sc None None; LoginPopup sc hint force])
           (set_redirectCallback (Some (length ps))
              (set_promises (ps ++ [PPending; PRejected v; PPending]) W1)))).
  { subst W1. unfold step. fields.
    rewrite existsb_app. cbn [existsb asked_of_library]. rewrite Nat.eqb_refl, Bool.orb_true_r.
    unfold finally_of. rewrite flat_map_app. fold (finally_of (S (length ps)) fs).
    rewrite G3. cbn [flat_map List.app fold_left].
    rewrite settle_pending by (fields; apply lookup_len_S). fields. rewrite insert_len_S.
    rewrite (deliver_settled (S (length ps)) (PRejected v))
      by (fields; first [apply lookup_len_S | discriminate]).
    fields. rewrite !List.filter_app, G1, G2. cbn [List.filter waits_on].
    rewrite Nat.eqb_refl. cbn [negb List.app fold_left react].
    unfold interactive, ask, new_promise. fields.
    rewrite List.app_nil_r, <- !List.app_assoc. cbn [List.app].
    rewrite length_app. cbn [length]. rewrite (Nat.add_comm _ 2). reflexivity. }
  rewrite E2. subst W1. fields.
  split; [reflexivity|]. split; [apply lookup_len|]. clear E2.
  split; [intros v' | intros e]; unfold step; fields;
    rewrite existsb_app; cbn [existsb asked_of_library];
    rewrite Nat.eqb_refl, Bool.orb_true_r;
    unfold finally_of; rewrite flat_map_app; fold (finally_of (S (S (length ps))) fs);
    rewrite K3; cbn [flat_map List.app fold_left];
    (rewrite settle_pending by (fields; apply lookup_len_SS)); fields; rewrite insert_len_SS.
  - rewrite (deliver_settled (S (S (length ps))) (PFulfilled v'))
      by (fields; first [apply lookup_len_SS | discriminate]).
    fields. rewrite !List.filter_app, K1, K2. cbn [List.filter waits_on].
    rewrite Nat.eqb_refl. cbn [negb List.app fold_left react].
    unfold resolve_signed_in.
    match goal with
    | |- context [setState ?ch ?W] =>
        destruct (setState_quiet ch W Hq) as (st3 & br3 & app3 & E3 & Hin3 & Hout3)
    end.
    rewrite E3. rewrite settle_pending by (fields; apply lookup_len). fields.
    rewrite insert_len. split; [apply lookup_len|]. exact (get_signed_in st1 st3 Hin3).
  - rewrite (deliver_settled (S (S (length ps))) (PRejected (PExn e)))
      by (fields; first [apply lookup_len_SS | discriminate]).
    fields. rewrite !List.filter_app, K1, K2. cbn [List.filter waits_on].
    rewrite Nat.eqb_refl. cbn [negb List.app fold_left react error_of].
    unfold reject_failed.
    match goal with
    | |- context [setState ?ch ?W] =>
        destruct (setState_quiet ch W Hq) as (st3 & br3 & app3 & E3 & Hin3 & Hout3)
    end.
    rewrite E3. rewrite settle_pending by (fields; apply lookup_len). fields.
    rewrite insert_len. split; [apply lookup_len|].
    destruct (get_failed (SErr e) st1 st3 Hin3 Hout3) as (F1 & F2 & F3).
    split; [exact F1 | exact F2].
Qed.

(** *** A settled promise keeps its outcome *)

Lemma kept_settle (p p' : nat) (s s' : pstate) w :
  s <> PPending -> promises w !! p = Some s -> promises (settle p' s' w) !! p = Some s.
Proof.
  intros Hs Hp. unfold settle. destruct (promises w !! p') as [[| |]|] eqn:E; try exact Hp.
  cbn [promises set_promises]. destruct (Nat.eq_dec p' p) as [-> | Hne]; [congruence|].
  rewrite list_lookup_insert_ne by exact Hne. exact Hp.
Qed.

Lemma kept_setState (p : nat) (s : pstate) (changes : session) w :
  promises w !! p = Some s -> promises (fst (setState changes w)) !! p = Some s.
Proof.
  destruct (setState_keeps_reactions changes w) as (-> & _). tauto.
Qed.

Lemma kept_new_promise (p : nat) (s s0 : pstate) w :
  promises w !! p = Some s -> promises (snd (new_promise s0 w)) !! p = Some s.
Proof.
  intros Hp. unfold new_promise. cbn [snd promises set_promises].
  rewrite lookup_app_l by (apply lookup_lt_Some in Hp; exact Hp). exact Hp.
Qed.

Lemma kept_resolve (p p' : nat) (s : pstate) w :
  s <> PPending -> promises w !! p = Some s ->
  promises (fst (resolve_signed_in p' w)) !! p = Some s.
Proof.
  intros Hs Hp. unfold resolve_signed_in.
  pose proof (kept_setState p s signed_in w Hp) as H1.
  destruct (setState signed_in w) as [w' [st|e]]; cbn [fst] in *; [|exact H1].
  apply kept_settle; assumption.
Qed.

Lemma kept_reject (p p' : nat) (s : pstate) (error : sval) w :
  s <> PPending -> promises w !! p = Some s ->
  promises (reject_failed p' error w) !! p = Some s.
Proof.
  intros Hs Hp. unfold reject_failed.
  pose proof (kept_setState p s (failed error) w Hp) as H1.
  destruct (setState (failed error) w) as [w' [st|e]]; cbn [fst] in *; [|exact H1].
  apply kept_settle; assumption.
Qed.

Lemma kept_interactive (p p' : nat) (s : pstate) (t : LOGIN_TYPE) (sc : list string)
    (hint : option string) (force : bool) w :
  promises w !! p = Some s -> promises (interactive p' t sc hint force w) !! p = Some s.
Proof.
  intros Hp. unfold interactive, new_promise, ask. destruct t; [exact Hp|].
  cbn [promises set_promises set_flows set_requests set_redirectCallback].
  rewrite lookup_app_l by (apply lookup_lt_Some in Hp; exact Hp). exact Hp.
Qed.

Lemma kept_login (p : nat) (s : pstate) (o : login_options) w :
  s <> PPending -> promises w !! p = Some s -> promises (fst (login o w)) !! p = Some s.
Proof.
  intros Hs Hp. unfold login. destruct (disabled w); [exact Hp|].
  destruct (AuthenticatingPromise w); [exact Hp|].
  pose proof (kept_new_promise p s PPending w Hp) as H0.
  unfold new_promise in *. cbn [snd] in H0.
  set (w0 := set_promises (promises w ++ [PPending]) w) in *.
  cbn [fst promises set_AuthenticatingPromise].
  destruct (isAuthenticated w0) as [[|]|e]; try (apply kept_settle; assumption).
  pose proof (kept_setState p s {[ "authenticating" := SBool true ]} w0 H0) as H1.
  destruct (setState {[ "authenticating" := SBool true ]} w0) as [w' [st|e]];
    cbn [fst] in H1; [|apply kept_settle; assumption].
  cbv zeta beta iota. unfold ask.
  cbn [promises set_promises set_flows set_requests].
  rewrite lookup_app_l by (apply lookup_lt_Some in H1; exact H1). exact H1.
Qed.

Lemma kept_react (p : nat) (s outcome : pstate) (f : flow) w :
  s <> PPending -> promises w !! p = Some s -> promises (react outcome f w) !! p = Some s.
Proof.
  intros Hs Hp. destruct f as [q p' t sc hint force | q p' | q q' | r p'];
    destruct outcome as [|v|v]; cbn [react]; try exact Hp.
  - pose proof (kept_resolve p p' s w Hs Hp) as Hr.
    destruct (resolve_signed_in p' w) as [w' [e|]]; cbn [fst] in Hr; [|exact Hr].
    apply kept_interactive, Hr.
  - apply kept_interactive, Hp.
  - pose proof (kept_resolve p p' s w Hs Hp) as Hr.
    destruct (resolve_signed_in p' w) as [w' [e|]]; cbn [fst] in Hr; [|exact Hr].
    apply kept_reject; assumption.
  - apply kept_reject; assumption.
  - destruct (context w); apply kept_settle; assumption.
  - destruct (context w); apply kept_settle; assumption.
  - apply kept_settle; assumption.
  - apply kept_login; assumption.
Qed.

Lemma kept_reactions (p : nat) (s outcome : pstate) (fs : list flow) w :
  s <> PPending -> promises w !! p = Some s ->
  promises (fold_left (fun w f => react outcome f w) fs w) !! p = Some s.
Proof.
  intros Hs. revert w. induction fs as [|f fs IH]; intros w Hp; [exact Hp|].
  cbn [fold_left]. apply IH, kept_react; assumption.
Qed.

Lemma kept_deliver (p q : nat) (s : pstate) w :
  s <> PPending -> promises w !! p = Some s -> promises (deliver q w) !! p = Some s.
Proof.
  intros Hs Hp. unfold deliver.
  destruct (promises w !! q) as [[|v|v]|]; try exact Hp; apply kept_reactions; assumption.
Qed.

Lemma kept_delivers (p : nat) (s : pstate) (qs : list nat) w :
  s <> PPending -> promises w !! p = Some s ->
  promises (fold_left (fun w q' => deliver q' w) qs w) !! p = Some s.
Proof.
  intros Hs. revert w. induction qs as [|q qs IH]; intros w Hp; [exact Hp|].
  cbn [fold_left]. apply IH, kept_deliver; assumption.
Qed.

Lemma kept_step (p : nat) (s : pstate) (e : event) w :
  s <> PPending -> promises w !! p = Some s -> promises (step e w) !! p = Some s.
Proof.
  intros Hs Hp. destruct e as [q outcome | error response | c]; cbn [step].
  - destruct outcome as [|v|v]; [exact Hp | |];
      (destruct (existsb (asked_of_library q) (flows w)); [|exact Hp]);
      apply kept_delivers, kept_deliver, kept_settle; assumption.
  - destruct (redirectCallback w) as [p'|]; [|exact Hp].
    destruct response; [apply kept_resolve | apply kept_reject]; assumption.
  - destruct (context w); exact Hp.
Qed.

Lemma kept_steps (p : nat) (s : pstate) (es : list event) w :
  s <> PPending -> promises w !! p = Some s -> promises (steps es w) !! p = Some s.
Proof.
  intros Hs. revert w. induction es as [|e es IH]; intros w Hp; [exact Hp|].
  cbn [steps]. apply IH, kept_step; assumption.
Qed.

(** Further property X24: once the promise handed out by [login] has settled, every later
    [login()] hands out that same settled promise and leaves the service
    as it is, whatever happened in between: a login that was rejected is
    not attempted again. *)
Theorem login_outcome_is_final (h : nat) (s : pstate) (es : list event)
    (o : login_options) w :
  in_flight h w -> promises w !! h = Some s -> s <> PPending ->
  login o (steps es w) = (steps es w, Some h) /\
  promises (steps es w) !! h = Some s.
Proof.
  intros Hin Hp Hs. split; [apply in_flight_forever, Hin | apply kept_steps; assumption].
Qed.

(** Further property X25: [login()] before [init()]: the promise handed out is rejected with the
    [TypeError] of reading the account of a missing application object,
    and nothing is asked of the library. [init()] does not reset the
    handle: after it, and after whatever happens then, [login()] still
    hands out that rejected promise. *)
Theorem login_before_init_is_rejected (o o' : login_options) (win0 : window) (app0 : App)
    (config : Config) (ctx0 : UserAgentApplication) (es : list event) :
  let w1 := fst (login o (created win0 app0)) in
  let w2 := steps es (fst (init config ctx0 false w1)) in
  snd (login o (created win0 app0)) = Some 0%nat /\
  promises w1 !! 0%nat = Some (PRejected (PExn (null_deref "getAccount"))) /\
  requests w1 = [] /\
  login o' w2 = (w2, Some 0%nat) /\
  promises w2 !! 0%nat = Some (PRejected (PExn (null_deref "getAccount"))).
Proof.
  intros w1 w2. subst w1 w2.
  assert (E1 : login o (created win0 app0)
    = (set_AuthenticatingPromise (Some 0%nat)
         (set_promises [PRejected (PExn (null_deref "getAccount"))] (created win0 app0)),
       Some 0%nat)) by reflexivity.
  rewrite E1. cbn [fst snd]. split; [reflexivity|]. split; [reflexivity|].
  split; [reflexivity|].
  set (w1 := set_AuthenticatingPromise _ _).
  assert (Hin : in_flight 0 (fst (init config ctx0 false w1))).
  { unfold init, in_flight. cbn [negb orb andb].
    match goal with
    | |- context [setState ?ch ?W] => destruct (setState_frame ch W) as (F1 & _ & F3 & _)
    end.
    rewrite F1, F3. split; reflexivity. }
  assert (Hp : promises (fst (init config ctx0 false w1)) !! 0%nat
               = Some (PRejected (PExn (null_deref "getAccount")))).
  { unfold init. apply kept_setState. reflexivity. }
  split; [apply in_flight_forever, Hin | apply kept_steps; [discriminate | exact Hp]].
Qed.

(** *** Getters and sign-out *)

(** Further property X26: with no account, or an account without identity-token claims,
    [getClaims()] returns nothing, and so do [getAccount()], [getId()]
    and [getUserName()] with no account, but [getRoles()] raises a
    [TypeError]. *)
Theorem getRoles_raises_without_claims w (c : UserAgentApplication) :
  disabled w = false -> context w = Some c -> account c ≫= idTokenClaims = None ->
  getClaims w = Normal None /\
  getRoles w = Throw (TypeError "Cannot convert undefined or null to object") /\
  (account c = None ->
   getAccount w = Normal None /\ getId w = Normal None /\ getUserName w = Normal None /\
   isAuthenticated w = Normal false).
Proof.
  intros Hd Hc Hno. unfold getClaims, getRoles, getId, getUserName, isAuthenticated, getAccount,
    has_account.
  rewrite Hd, Hc, Hno. split; [reflexivity|]. split; [reflexivity|].
  intros ->. repeat split.
Qed.

(** Further property X27: the function of [useLogout]: with an account it asks the library to
    clear its cache and then to log out, in that order; with no account,
    and in disabled mode, it asks nothing; before [init] it raises. *)
Theorem useLogout_clears_then_logs_out w :
  (disabled w = true -> useLogout w = (w, Normal tt)) /\
  (disabled w = false -> context w = None ->
   useLogout w = (w, Throw (null_deref "getAccount"))) /\
  (forall c, disabled w = false -> context w = Some c ->
     snd (useLogout w) = Normal tt /\
     requests (fst (useLogout w))
     = requests w ++ (if has_account c then [ClearCache; Logout] else [])).
Proof.
  unfold useLogout, isAuthenticated, clearCache, logout. split; [|split].
  - intros Hd. rewrite !Hd. reflexivity.
  - intros Hd Hc. rewrite !Hd, !Hc. reflexivity.
  - intros c Hd Hc. rewrite !Hd, !Hc. destruct (has_account c).
    + cbn [disabled context ask set_requests requests]. rewrite Hd, Hc.
      cbn [fst snd requests ask set_requests]. rewrite <- List.app_assoc.
      split; reflexivity.
    + rewrite List.app_nil_r. split; reflexivity.
Qed.

(** Further property X28: [init] stores the two flags it computes and nothing else: the state
    says [authenticated] exactly when [isAuthenticated()] does afterwards;
    every other field of the state, an [error] among them, and the handle
    of an earlier [login] are as before. *)
Theorem init_publishes_flags (config : Config) (ctx0 : UserAgentApplication) (d : bool) w :
  let w' := fst (init config ctx0 d w) in
  disabled w' = d /\
  context w' = (if d then None else Some ctx0) /\
  get (state w') "authenticated" = SBool (d || has_account ctx0) /\
  get (state w') "authenticating" = SBool (negb d && loginInProgress ctx0) /\
  isAuthenticated w' = Normal (d || has_account ctx0) /\
  (forall k, k <> "authenticated" -> k <> "authenticating" ->
     get (state w') k = get (state w) k) /\
  AuthenticatingPromise w' = AuthenticatingPromise w.
Proof.
  intros w'. subst w'. unfold init.
  match goal with
  | |- context [setState ?ch ?W] =>
      destruct (setState_frame ch W) as (F1 & F2 & F3 & _);
      destruct (setState_fields ch W) as [Hin Hout]
  end.
  unfold isAuthenticated. rewrite F1, F2, F3.
  split; [destruct d; reflexivity|]. split; [destruct d; reflexivity|].
  split; [apply Hin; reflexivity|].
  split; [apply Hin; rewrite lookup_insert_ne by discriminate; apply lookup_singleton_eq|].
  split; [destruct d; reflexivity|]. split; [|destruct d; reflexivity].
  intros k H1 H2. rewrite Hout.
  - destruct d; reflexivity.
  - rewrite lookup_insert_ne by congruence. apply lookup_singleton_ne. congruence.
Qed.
End Flows.

Lemma signed_out_world_quiet : quiet signed_out_world.
Proof.
  intros id cb s a Hin. vm_compute in Hin. destruct Hin.
Qed.

Lemma signed_out_world_made : made signed_out_world.
Proof. apply made_no_flows; vm_compute; reflexivity. Qed.

Lemma login_by_redirect_round_trip_witness :
  AuthenticationService.requests
    (AuthenticationService.step
       (AuthenticationService.Settled 1
          (AuthenticationService.PRejected AuthenticationService.PUndefined))
       (fst (AuthenticationService.login AuthenticationService.login_defaults
               signed_out_world)))
  = [AuthenticationService.AcquireTokenSilent ["user.read"] None None;
     AuthenticationService.LoginRedirect ["user.read"] None false].
Proof.
  exact (proj1 (proj2 (proj2
           (login_by_redirect_round_trip AuthenticationService.login_defaults
              signed_out_world signed_out_context AuthenticationService.PUndefined
              eq_refl eq_refl eq_refl eq_refl eq_refl
              signed_out_world_quiet signed_out_world_made)))).
Defined.

Lemma login_silently_witness :
  AuthenticationService.requests
    (AuthenticationService.step
       (AuthenticationService.Settled 1
          (AuthenticationService.PFulfilled AuthenticationService.PUndefined))
       (fst (AuthenticationService.login AuthenticationService.login_defaults
               signed_out_world)))
  = [AuthenticationService.AcquireTokenSilent ["user.read"] None None].
Proof.
  exact (proj1 (proj2 (proj2 (proj2
           (login_silently AuthenticationService.login_defaults
              signed_out_world signed_out_context AuthenticationService.PUndefined
              eq_refl eq_refl eq_refl eq_refl
              signed_out_world_quiet signed_out_world_made))))).
Defined.

Lemma login_by_popup_witness :
  AuthenticationService.requests
    (AuthenticationService.step
       (AuthenticationService.Settled 1
          (AuthenticationService.PRejected AuthenticationService.PUndefined))
       (fst (AuthenticationService.login
               {| AuthenticationService.type := AuthenticationService.POPUP;
                  AuthenticationService.scopes := ["mail.read"];
                  AuthenticationService.loginHint := Some "ada@example.org";
                  AuthenticationService.forceTokenRefresh := true |}
               signed_out_world)))
  = [AuthenticationService.AcquireTokenSilent ["mail.read"] None None;
     AuthenticationService.LoginPopup ["mail.read"] (Some "ada@example.org") true].
Proof.
  exact (proj1
           (login_by_popup
              {| AuthenticationService.type := AuthenticationService.POPUP;
                 AuthenticationService.scopes := ["mail.read"];
                 AuthenticationService.loginHint := Some "ada@example.org";
                 AuthenticationService.forceTokenRefresh := true |}
              signed_out_world signed_out_context AuthenticationService.PUndefined
              eq_refl eq_refl eq_refl eq_refl eq_refl
              signed_out_world_quiet signed_out_world_made)).
Defined.

Lemma login_outcome_is_final_witness :
  AuthenticationService.promises
    (fst (AuthenticationService.login AuthenticationService.login_defaults signed_in_world))
  !! 0%nat
  = Some (AuthenticationService.PFulfilled
            (AuthenticationService.PState (AuthenticationService.state signed_in_world))) /\
  snd (AuthenticationService.login AuthenticationService.login_defaults
         (AuthenticationService.steps
            [AuthenticationService.RedirectReturned AuthenticationService.SUndefined false]
            (fst (AuthenticationService.login AuthenticationService.login_defaults
                    signed_in_world))))
  = Some 0%nat.
Proof.
  split; [reflexivity|].
  exact (f_equal snd
           (proj1 (login_outcome_is_final 0
                     (AuthenticationService.PFulfilled
                        (AuthenticationService.PState
                           (AuthenticationService.state signed_in_world)))
                     [AuthenticationService.RedirectReturned AuthenticationService.SUndefined
                        false]
                     AuthenticationService.login_defaults
                     (fst (AuthenticationService.login AuthenticationService.login_defaults
                             signed_in_world))
                     (conj eq_refl eq_refl) eq_refl ltac:(discriminate)))).
Defined.

Lemma getRoles_raises_without_claims_witness :
  AuthenticationService.getRoles signed_out_world
  = Throw (TypeError "Cannot convert undefined or null to object").
Proof.
  exact (proj1 (proj2 (getRoles_raises_without_claims signed_out_world signed_out_context
                         eq_refl eq_refl eq_refl))).
Defined.
